(** * Verification of the lint-configuration scaffolding tool

    Shallow embedding of
    - [lib/config-ops.js]   (severity normalizer),
    - [lib/index.js]        (config synthesizer, module list resolver,
                             the prompts' chain),
    - [lib/config-file.js]  (config serializer),
    - [lib/npm-utils.js]    (installation),
    - [lib/ide/ws/Watcher]  (IDE watch-rule generator and workspace merge),
    followed by the properties proved about them.

    Strings are held by the bytes of their UTF-8 form.  The file system
    and the libraries are parameters: a write or a read may be refused,
    a serializer may throw. *)

From Stdlib Require Import String Ascii List ZArith Bool Lia Arith.
Import ListNotations.
Open Scope string_scope.
Open Scope list_scope.

Set Warnings "-register-all".

(* ================================================================== *)
(** * JavaScript values and objects *)
(* ================================================================== *)

Module JS.

(** A JavaScript number is either an integer or something else (a
    fraction, [NaN], an infinity), kept by its printed form. *)
Inductive number : Type :=
| Int (z : Z)
| NotInt (shown : string).

Inductive value : Type :=
| VUndefined
| VNull
| VBool (b : bool)
| VNum (n : number)
| VStr (s : string)
| VArr (items : list value)
| VObj (props : list (string * value)).

(** [ToBoolean]. *)
Definition truthy (v : value) : bool :=
  match v with
  | VUndefined | VNull => false
  | VBool b => b
  | VNum (Int z) => negb (z =? 0)%Z
  | VNum (NotInt s) => negb (s =? "NaN")%string
  | VStr s => negb (s =? "")%string
  | VArr _ | VObj _ => true
  end.

(** An object with string keys: its own properties in insertion order
    (none of the keys used by the program is an array index). *)
Definition obj (V : Type) : Type := list (string * V).

Definition obj_keys {V} (o : obj V) : list string := map fst o.

Fixpoint obj_get {V} (k : string) (o : obj V) : option V :=
  match o with
  | [] => None
  | (k', v) :: o' => if (k' =? k)%string then Some v else obj_get k o'
  end.

(** [o[k] = v]: an existing property keeps its place, a new one goes
    last. *)
Fixpoint obj_set {V} (k : string) (v : V) (o : obj V) : obj V :=
  match o with
  | [] => [(k, v)]
  | (k', v') :: o' =>
      if (k' =? k)%string then (k', v) :: o' else (k', v') :: obj_set k v o'
  end.

(** [delete o[k]]. *)
Definition obj_delete {V} (k : string) (o : obj V) : obj V :=
  filter (fun kv => negb (fst kv =? k)%string) o.

(** [String.prototype.indexOf]: position of the first occurrence of
    [search] in [s], or [-1]. *)
Fixpoint indexOfFrom (i : Z) (search s : string) : Z :=
  if String.prefix search s then i
  else match s with
       | EmptyString => (-1)%Z
       | String _ s' => indexOfFrom (i + 1) search s'
       end.

Definition indexOf (s search : string) : Z := indexOfFrom 0 search s.

(** [Array.prototype.indexOf] on an array of strings. *)
Fixpoint arrayIndexOfFrom (i : Z) (x : string) (l : list string) : Z :=
  match l with
  | [] => (-1)%Z
  | y :: l' => if (y =? x)%string then i else arrayIndexOfFrom (i + 1) x l'
  end.

Definition arrayIndexOf (l : list string) (x : string) : Z :=
  arrayIndexOfFrom 0 x l.

End JS.

Import JS.

(* ================================================================== *)
(** * The configuration object *)
(* ================================================================== *)

(** The [extends] field: deleted, a bare string, or an array. *)
Inductive Extends : Type :=
| Absent
| Str (s : string)
| Arr (l : list string).

Record config : Type := mkConfig {
  rules : option (obj value);
  env : obj value;
  parserOptions : obj value;
  extends : Extends;
  plugins : option (list string);
  globals : option (obj value)
}.

Definition set_rules (r : option (obj value)) (c : config) : config :=
  mkConfig r (env c) (parserOptions c) (extends c) (plugins c) (globals c).

(* ================================================================== *)
(** * lib/config-ops.js *)
(* ================================================================== *)

Module ConfigOps.

Definition RULE_SEVERITY_STRINGS : list string := ["off"; "warn"; "error"].

(** [RULE_SEVERITY_STRINGS[n]], [None] standing for [undefined]. *)
Definition severityAt (n : number) : option string :=
  match n with
  | Int z => if (z <? 0)%Z then None
             else nth_error RULE_SEVERITY_STRINGS (Z.to_nat z)
  | NotInt _ => None
  end.

(** [RULE_SEVERITY_STRINGS[n] || RULE_SEVERITY_STRINGS[0]]; every entry
    of the table is a non-empty string, hence truthy. *)
Definition severityString (n : number) : string :=
  match severityAt n with
  | Some s => s
  | None => nth 0 RULE_SEVERITY_STRINGS ""
  end.

(** The body of the [forEach] callback, as the new value of the rule. *)
Definition normalizeRule (ruleConfig : value) : value :=
  match ruleConfig with
  | VNum n => VStr (severityString n)
  | VArr (VNum n :: options) => VArr (VStr (severityString n) :: options)
  | _ => ruleConfig
  end.

Definition normalizeRuleAt (rs : obj value) (ruleId : string) : obj value :=
  match obj_get ruleId rs with
  | Some ruleConfig => obj_set ruleId (normalizeRule ruleConfig) rs
  | None => rs
  end.

Definition normalizeToStrings (c : config) : config :=
  match rules c with
  | Some rs => set_rules (Some (fold_left normalizeRuleAt (obj_keys rs) rs)) c
  | None => c
  end.

End ConfigOps.

(* ================================================================== *)
(** * lib/index.js *)
(* ================================================================== *)

Module Answers.
Record t : Type := mk {
  purpose : string;
  moduleType : string;
  framework : string;
  env : list string;
  installedPrettier : bool
}.
End Answers.

Module Init.

Definition DEFAULT_ECMA_VERSION : Z := 2018.

(** The [extends] array of [genEslintConfig] just before it is
    normalized: initial value, then [push], [unshift], [push]. *)
Definition extendsArray (answers : Answers.t) : list string :=
  let e := ["fee-base"] in
  let e := if (Answers.framework answers =? "react")%string then e
           else if (Answers.framework answers =? "vue")%string
                then e ++ ["plugin:vue/essential"]
                else e in
  let e := if (Answers.purpose answers =? "problems")%string
           then "eslint:recommended" :: e else e in
  if Answers.installedPrettier answers then e ++ ["prettier"] else e.

(** "normalize extends". *)
Definition normalizeExtends (e : list string) : Extends :=
  match e with
  | [] => Absent
  | [x] => Str x
  | _ => Arr e
  end.

Definition parserOptionsOf (answers : Answers.t) : obj value :=
  let p := obj_set "ecmaVersion" (VNum (Int DEFAULT_ECMA_VERSION)) [] in
  let p := if (Answers.moduleType answers =? "esm")%string
           then obj_set "sourceType" (VStr "module") p else p in
  if (Answers.framework answers =? "react")%string
  then obj_set "ecmaFeatures" (VObj [("jsx", VBool true)]) p else p.

Definition envOf (answers : Answers.t) : obj value :=
  let e := obj_set "es6" (VBool true) [] in
  let e := if (Answers.moduleType answers =? "esm")%string then e
           else if (Answers.moduleType answers =? "commonjs")%string
                then obj_set "commonjs" (VBool true) e
                else e in
  fold_left (fun e name => obj_set name (VBool true) e)
            (Answers.env answers) e.

Definition pluginsOf (answers : Answers.t) : option (list string) :=
  let p := if (Answers.framework answers =? "react")%string
           then Some ["react"]
           else if (Answers.framework answers =? "vue")%string
                then Some ["vue"]
                else None in
  if Answers.installedPrettier answers
  then Some (match p with Some l => l | None => [] end ++ ["prettier"])
  else p.

Definition rulesOf (answers : Answers.t) : obj value :=
  if Answers.installedPrettier answers
  then obj_set "prettier/prettier" (VStr "error") [] else [].

Definition genEslintConfig (answers : Answers.t) : config :=
  ConfigOps.normalizeToStrings
    {| rules := Some (rulesOf answers);
       env := envOf answers;
       parserOptions := parserOptionsOf answers;
       extends := normalizeExtends (extendsArray answers);
       plugins := pluginsOf answers;
       globals := Some [("Atomics", VStr "readonly");
                        ("SharedArrayBuffer", VStr "readonly")] |}.

Definition externalModules : list string := ["prettier"].

Definition addPlugin (modules : obj string) (plugin : string) : obj string :=
  let modules := obj_set ("eslint-plugin-" ++ plugin)%string "latest" modules in
  if negb (arrayIndexOf externalModules plugin =? -1)%Z
  then obj_set plugin "latest" modules
  else modules.

Definition addExtend (modules : obj string) (extend : string) : obj string :=
  if ((indexOf extend "eslint:" =? -1)%Z && (indexOf extend "plugin:" =? -1)%Z)%bool
  then obj_set ("eslint-config-" ++ extend)%string "latest" modules
  else modules.

(** Template [`${name}@${modules[name]}`]. *)
Definition moduleSpec (modules : obj string) (name : string) : string :=
  (name ++ "@" ++ match obj_get name modules with
                  | Some v => v
                  | None => "undefined"
                  end)%string.

(** [installESLint] is [None] when the argument is omitted. *)
Definition getModulesList (eslintConfig : config)
           (installESLint : option bool) : list string :=
  let modules : obj string := [] in
  let modules := match plugins eslintConfig with
                 | Some ps => fold_left addPlugin ps modules
                 | None => modules
                 end in
  let modules := match extends eslintConfig with
                 | Arr es => fold_left addExtend es modules
                 | _ => modules
                 end in
  let modules := match installESLint with
                 | Some false => obj_delete "eslint" modules
                 | _ => obj_set "eslint" "latest" modules
                 end in
  map (moduleSpec modules) (obj_keys modules).

End Init.

(* ================================================================== *)
(** * The platform: files, console, exceptions *)
(* ================================================================== *)

Module Node.

Record world : Type := mkWorld {
  files : obj string;          (* file |-> content *)
  console : list string        (* lines logged so far *)
}.

Inductive exn : Type :=
| Error (message : string).

(** A computation runs on the world and either returns or throws. *)
Definition io (A : Type) : Type := world -> (exn + A) * world.

Definition ret {A} (a : A) : io A := fun w => (inr a, w).

Definition throw {A} (e : exn) : io A := fun w => (inl e, w).

Definition bind {A B} (m : io A) (k : A -> io B) : io B :=
  fun w => match m w with
           | (inl e, w') => (inl e, w')
           | (inr a, w') => k a w'
           end.

(** A [for] loop with an accumulator. *)
Fixpoint foldM {A B} (f : A -> B -> io A) (l : list B) (a : A) : io A :=
  match l with
  | [] => ret a
  | b :: l' => bind (f a b) (foldM f l')
  end.

(** A library call that returns or throws. *)
Definition call {A} (r : exn + A) : io A := fun w => (r, w).

(** The file system behind [fs]: the file that a path names (two paths
    may name one file; the files of the world are kept under these
    names), and the error with which the system refuses to write or to
    read a path in a state of the files ([EACCES], [EISDIR], [ENOENT]
    for a directory that is missing, ...), if it does. *)
Class FileSystem : Type := {
  realpath : string -> string;
  writeRefused : obj string -> string -> option exn;
  readRefused : obj string -> string -> option exn
}.

Definition get_files : io (obj string) := fun w => (inr (files w), w).

(** [fs.writeFileSync(path, content, 'utf-8')]. *)
Definition writeFileSync {fs : FileSystem} (path content : string)
  : io unit :=
  fun w => match writeRefused (files w) path with
           | Some e => (inl e, w)
           | None =>
               (inr tt,
                mkWorld (obj_set (realpath path) content (files w))
                        (console w))
           end.

(** [fs.readFileSync(path, 'utf-8')]. *)
Definition readFileSync {fs : FileSystem} (path : string) : io string :=
  fun w => match readRefused (files w) path with
           | Some e => (inl e, w)
           | None =>
               match obj_get (realpath path) (files w) with
               | Some content => (inr content, w)
               | None => (inl (Error "ENOENT"), w)
               end
           end.

(** Modelled from the spec: the [logging] module is not among the
    sources; failures are "reported via log" and the caller "receives a
    falsy result", so [log.error] and [log.info] print their message and
    return [undefined]. *)
Definition log (message : string) : io value :=
  fun w => (inr VUndefined, mkWorld (files w) (console w ++ [message])).

End Node.

Import Node.

Declare Scope io_scope.
Delimit Scope io_scope with io.
Notation "x <- m ;; k" := (bind m (fun x => k))
  (at level 61, m at next level, right associativity) : io_scope.
Notation "m ;; k" := (bind m (fun _ => k))
  (at level 61, right associativity) : io_scope.

(* ================================================================== *)
(** * lib/config-file.js *)
(* ================================================================== *)

Module ConfigFile.

(** The objects [{key, value}] that the stringifier hands to [cmp]. *)
Record entry : Type := mkEntry { key : string; val : value }.

(** [a > b] on strings: comparison of the code units, left to right. *)
Definition string_gt (a b : string) : bool :=
  match String.compare a b with
  | Gt => true
  | _ => false
  end.

Definition sortByKey (a b : entry) : Z :=
  if string_gt (key a) (key b) then 1%Z else (-1)%Z.

(** Options of [json-stable-stringify] and of [js-yaml]. *)
Record stringifyOptions : Type :=
  mkStringifyOptions { cmp : entry -> entry -> Z; space : Z }.

Record dumpOptions : Type := mkDumpOptions { sortKeys : bool }.

Section Serializer.

(** The configuration type and the three library functions; the two
    that serialize may throw (on a value they cannot write). *)
Context {C : Type}.
Context {fs : FileSystem}.
Variable extname : string -> string.
Variable stringify : C -> stringifyOptions -> exn + string.
Variable safeDump : C -> dumpOptions -> exn + string.

Definition writeJSONConfigFile (config : C) (filePath : string) : io unit :=
  (content <- call (stringify config (mkStringifyOptions sortByKey 4)) ;;
   writeFileSync filePath content)%io.

Definition writeYAMLConfigFile (config : C) (filePath : string) : io unit :=
  (content <- call (safeDump config (mkDumpOptions true)) ;;
   writeFileSync filePath content)%io.

Definition write (config : C) (filePath : string) : io unit :=
  let ext := extname filePath in
  if (ext =? ".json")%string then writeJSONConfigFile config filePath
  else if ((ext =? ".yaml") || (ext =? ".yml"))%string
       then writeYAMLConfigFile config filePath
       else throw (Error "Can't write to unknown file type.").

End Serializer.

End ConfigFile.

(* ================================================================== *)
(** * The document tree of the XML library *)
(* ================================================================== *)

Module Dom.

(** A node of a parsed document: character data, an element, or any
    other node (comment, processing instruction, CDATA). *)
Inductive node : Type :=
| Text (data : string)
| Other (kind data : string)
| Element (tag : string) (attribs : obj string) (children : list node).

(** The children of the document root. *)
Definition document : Type := list node.

(** What a selector sees of an element: its tag and attributes. *)
Definition entry : Type := (string * obj string)%type.

(** The two kinds of selector the program uses: [tag] and
    [[name="value"]]. *)
Inductive selector : Type :=
| ByTag (tag : string)
| ByAttr (name val : string).

Definition matchesE (sel : selector) (e : entry) : bool :=
  match sel with
  | ByTag t => (fst e =? t)%string
  | ByAttr n v => match obj_get n (snd e) with
                  | Some v' => (v' =? v)%string
                  | None => false
                  end
  end.

Definition matches (sel : selector) (x : node) : bool :=
  match x with
  | Element t a _ => matchesE sel (t, a)
  | _ => false
  end.

(** The elements of a tree in document order, tag and attributes only. *)
Fixpoint outlineIn (x : node) : list entry :=
  match x with
  | Element t a cs => (t, a) :: flat_map outlineIn cs
  | _ => []
  end.

Definition outline (d : list node) : list entry := flat_map outlineIn d.

(** [$(sel).length]. *)
Definition count (sel : selector) (d : list node) : nat :=
  length (filter (matchesE sel) (outline d)).

(** [$(sel).remove()]: every matched element leaves its parent, with
    all it contains. *)
Fixpoint removeIn (sel : selector) (x : node) : node :=
  match x with
  | Element t a cs =>
      Element t a (filter (fun c => negb (matches sel c))
                          (map (removeIn sel) cs))
  | _ => x
  end.

Definition remove (sel : selector) (d : list node) : list node :=
  filter (fun c => negb (matches sel c)) (map (removeIn sel) d).

(** [$(sel).append(content)]: every element matched in the document
    gets the content after its last child. *)
Fixpoint appendIn (sel : selector) (content : list node) (x : node) : node :=
  match x with
  | Element t a cs =>
      let cs' := map (appendIn sel content) cs in
      Element t a (if matchesE sel (t, a) then cs' ++ content else cs')
  | _ => x
  end.

Definition append (sel : selector) (content : list node) (d : list node)
  : list node :=
  map (appendIn sel content) d.

(** The parser joins character data that follows character data. *)
Fixpoint joinText (l : list node) : list node :=
  match l with
  | [] => []
  | Text a :: l' =>
      match joinText l' with
      | Text b :: r => Text (a ++ b) :: r
      | r => Text a :: r
      end
  | x :: l' => x :: joinText l'
  end.

End Dom.

Import Dom.

(* ================================================================== *)
(** * lib/ide/ws/Watcher *)
(* ================================================================== *)

Module Watcher.

Definition nl : string := String (ascii_of_nat 10) "".
Definition tab : string := String (ascii_of_nat 9) "".
Definition dq : string := String (ascii_of_nat 34) "".

(** A double-quoted attribute value. *)
Definition q (s : string) : string := (dq ++ s ++ dq)%string.

Definition SCOPENAME : obj string :=
  [("js", "prettier-js"); ("scss", "prettier-scss");
   ("md", "prettier-md"); ("vue", "prettier-vue")].

Definition NamedScopeManager : string := "NamedScopeManager".

(** One descriptor of [config.typeObj]; [scopeName] is [None] until
    [normalizedConfig] sets it, and is held by the text that a template
    literal gives it, the one use the program makes of it.  Every key
    owns its descriptor, as in the objects that [watch] of
    [lib/index.js] builds. *)
Record typeConfig : Type := mkTypeConfig {
  scopeName : option string;
  rule : list string;
  ruleDirection : bool
}.

(** A value inside a template literal. *)
Definition show (o : option string) : string :=
  match o with
  | Some s => s
  | None => "undefined"
  end.

(** What every object inherits from [Object.prototype]: the names, each
    with the text that a template literal gives the value (the native
    functions as Node prints them, and the prototype itself for
    [__proto__]). *)
Definition native (name : string) : string :=
  ("function " ++ name ++ "() { [native code] }")%string.

Definition objectPrototype : obj string :=
  [("constructor", native "Object");
   ("__defineGetter__", native "__defineGetter__");
   ("__defineSetter__", native "__defineSetter__");
   ("hasOwnProperty", native "hasOwnProperty");
   ("__lookupGetter__", native "__lookupGetter__");
   ("__lookupSetter__", native "__lookupSetter__");
   ("isPrototypeOf", native "isPrototypeOf");
   ("propertyIsEnumerable", native "propertyIsEnumerable");
   ("toString", native "toString");
   ("valueOf", native "valueOf");
   ("__proto__", "[object Object]");
   ("toLocaleString", native "toLocaleString")].

(** [SCOPENAME[key]]: the property of the table itself, or else the one
    it inherits; [None] is [undefined].  What is found is truthy in
    either case. *)
Definition scopeNameOf (key : string) : option string :=
  match obj_get key SCOPENAME with
  | Some name => Some name
  | None => obj_get key objectPrototype
  end.

(** One turn of the loop of [normalizedConfig]. *)
Definition normalizeKey (typeObj : obj typeConfig) (key : string)
  : io (obj typeConfig) :=
  match obj_get key typeObj with
  | None => ret typeObj
  | Some typeConfig =>
      match scopeNameOf key with
      | None =>
          (log (key ++ ":此类型尚未在SCOPENAME中配置！skip~") ;;
           ret (obj_delete key typeObj))%io
      | Some name =>
          ret (obj_set key
                 (mkTypeConfig (Some name) (rule typeConfig)
                               (ruleDirection typeConfig))
                 typeObj)
      end
  end.

Definition normalizedConfig (typeObj : obj typeConfig)
  : io (obj typeConfig) :=
  foldM normalizeKey (obj_keys typeObj) typeObj.

(** ** Watcher tasks *)

Definition genOptions (type : string) (options : typeConfig) : string :=
  String.concat nl
    [ "";
      "<TaskOptions isEnabled=" ++ q "true" ++ ">";
      "        <option name=" ++ q "arguments" ++ " value="
        ++ q "--write $FilePathRelativeToProjectRoot$" ++ " />";
      "        <option name=" ++ q "checkSyntaxErrors" ++ " value="
        ++ q "true" ++ " />";
      "        <option name=" ++ q "description" ++ " />";
      "        <option name=" ++ q "exitCodeBehavior" ++ " value="
        ++ q "ERROR" ++ " />";
      "        <option name=" ++ q "fileExtension" ++ " value="
        ++ q type ++ " />";
      "        <option name=" ++ q "immediateSync" ++ " value="
        ++ q "false" ++ " />";
      "        <option name=" ++ q "name" ++ " value="
        ++ q ("fee-prettier-" ++ type) ++ " />";
      "        <option name=" ++ q "output" ++ " value="
        ++ q "$FilePathRelativeToProjectRoot$" ++ " />";
      "        <option name=" ++ q "outputFilters" ++ ">";
      "        <array />";
      "        </option>";
      "        <option name=" ++ q "outputFromStdout" ++ " value="
        ++ q "false" ++ " />";
      "        <option name=" ++ q "program" ++ " value="
        ++ q "$ProjectFileDir$/node_modules/.bin/prettier" ++ " />";
      "        <option name=" ++ q "runOnExternalChanges" ++ " value="
        ++ q "true" ++ " />";
      "        <option name=" ++ q "scopeName" ++ " value="
        ++ q (show (scopeName options)) ++ " />";
      "        <option name=" ++ q "trackOnlyRoot" ++ " value="
        ++ q "false" ++ " />";
      "        <option name=" ++ q "workingDir" ++ " value="
        ++ q "$ProjectFileDir$" ++ " />";
      "        <envs />";
      "      </TaskOptions>";
      "" ]%string.

Definition genWatchXml (typeObj : obj typeConfig) : string :=
  let options :=
    fold_left (fun options kv =>
                 (options ++ genOptions (fst kv) (snd kv))%string)
              typeObj ""%string in
  String.concat nl
    [ "<?xml version=" ++ q "1.0" ++ " encoding=" ++ q "UTF-8" ++ "?>";
      "        <project version=" ++ q "4" ++ ">";
      "          <component name=" ++ q "ProjectTasksOptions" ++ ">";
      "            " ++ options;
      "          </component>";
      "        </project>" ]%string.

(** ** Named scopes *)

(** [/\/$/.test(s)]. *)
Fixpoint endsWithSlash (s : string) : bool :=
  match s with
  | EmptyString => false
  | String c EmptyString => (c =? "/")%char
  | String _ s' => endsWithSlash s'
  end.

(** The [while] loop that drops the slashes at the end. *)
Fixpoint dropSlashes (s : string) : string :=
  match s with
  | EmptyString => EmptyString
  | String c s' =>
      match dropSlashes s' with
      | EmptyString => if (c =? "/")%char then EmptyString
                       else String c EmptyString
      | r => String c r
      end
  end.

(** The callback of [ruleArr.map]. *)
Definition formatRule (projectName : string) (ruleDirection : bool)
           (rule : string) : string :=
  let normallizedRule := if negb ruleDirection then "!" else "" in
  if endsWithSlash rule
  then (normallizedRule ++ "file[" ++ projectName ++ "]:"
          ++ dropSlashes rule ++ "//*")%string
  else (normallizedRule ++ "file:" ++ rule)%string.

(** [joinTag] as it stands after the branch. *)
Definition joinTagOf (config : typeConfig) : string :=
  match rule config with
  | [] => "&&"
  | _ :: _ => if negb (ruleDirection config) then "&&" else "||"
  end.

Definition formatRuleArr (config : typeConfig) (projectName : string)
  : list string :=
  match rule config with
  | [] => [ "!file[" ++ projectName ++ "]:node_modules//*";
            "!file[" ++ projectName ++ "]:.git//*";
            "!file[" ++ projectName ++ "]:.svn//*" ]%string
  | ruleArr => map (formatRule projectName (ruleDirection config)) ruleArr
  end.

Definition scopePattern (config : typeConfig) (projectName : string)
  : string :=
  String.concat (joinTagOf config) (formatRuleArr config projectName).

Definition genScopes (config : typeConfig) (projectName : string) : string :=
  (nl ++ tab ++ "<scope name=" ++ q (show (scopeName config))
      ++ " pattern=" ++ q (scopePattern config projectName) ++ " />"
      ++ nl)%string.

(** The nodes that the markup of [genScopes] spells, read as written:
    one [scope] element for every entry, between the character data.
    This is what the parser returns for names and patterns that hold no
    double quote and no markup; the parser itself is a parameter
    ([load]), and where a property needs the scopes read this way it
    says so, by [load markup = scopesDom]. *)
Definition scopeEntry (config : typeConfig) (projectName : string) : entry :=
  ("scope", [("name", show (scopeName config));
             ("pattern", scopePattern config projectName)]).

Definition scopeNodes (config : typeConfig) (projectName : string)
  : list node :=
  [ Text (nl ++ tab);
    Element (fst (scopeEntry config projectName))
            (snd (scopeEntry config projectName)) [];
    Text nl ].

Definition scopesDom (typeObj : obj typeConfig) (projectName : string)
  : list node :=
  joinText (flat_map (fun kv => scopeNodes (snd kv) projectName) typeObj).

(** ** Merge into the workspace document *)

Definition cleanKey (doc : document) (key : string) : document :=
  let selector := ByAttr "name" (show (obj_get key SCOPENAME)) in
  if (0 <? count selector doc)%nat then remove selector doc else doc.

(** The first statement of [cleanNamedScope]: an empty container goes
    under [project] when no element is named [NamedScopeManager]. *)
Definition ensureContainer (doc : document) : document :=
  if (count (ByAttr "name" NamedScopeManager) doc =? 0)%nat
  then append (ByTag "project")
              [Element "component" [("name", NamedScopeManager)] []] doc
  else doc.

Definition cleanNamedScope (doc : document) : document :=
  fold_left cleanKey (obj_keys SCOPENAME) (ensureContainer doc).

(** The tree part of [addRuletoWorkspace]: clean, then append the
    parsed scopes to the container. *)
Definition mergeScopes (scopes : list node) (doc : document) : document :=
  append (ByAttr "name" NamedScopeManager) scopes (cleanNamedScope doc).

(** [s.match(/[^\.]+/)[0]]: the first run of characters other than a
    dot; [None] when there is none ([match] gives [null]). *)
Fixpoint untilDot (s : string) : string :=
  match s with
  | EmptyString => EmptyString
  | String c s' => if (c =? ".")%char then EmptyString
                   else String c (untilDot s')
  end.

Fixpoint firstNonDotRun (s : string) : option string :=
  match s with
  | EmptyString => None
  | String c s' => if (c =? ".")%char then firstNonDotRun s'
                   else Some (untilDot s)
  end.

Record wsConfigT : Type := mkWsConfig {
  projectConfig : string;
  workspaceConfig : string
}.

(** The fields of a [Watch] object. *)
Record Watch : Type := mkWatch {
  root : string;
  typeObj : obj typeConfig;          (* [this.config.typeObj] *)
  wsConfig : option wsConfigT        (* [None] is [false] *)
}.

Section Platform.

(** [path.resolve], [path.basename], [glob.sync] on the files that
    exist, [cheerio.load] in XML mode and [$.xml()]. *)
Context {fs : FileSystem}.
Variable resolve : string -> string -> string.
Variable basename : string -> string.
Variable glob_sync : obj string -> string -> list string.
Variable load : string -> document.
Variable xml : document -> string.

Definition getWSConfig (root : string) : io (option wsConfigT) :=
  (fs <- get_files ;;
   let workspaceConfig := resolve root ".idea/workspace.xml" in
   let projectConfig := resolve root ".idea/*.iml" in
   let projectConfig := glob_sync fs projectConfig in
   let workspaceConfig := glob_sync fs workspaceConfig in
   if ((length projectConfig =? 1)%nat
       && (length workspaceConfig =? 1)%nat)%bool
   then ret (Some (mkWsConfig (nth 0 projectConfig "")
                              (nth 0 workspaceConfig "")))
   else ret None)%io.

(** [new Watch(root, config)]. *)
Definition new (root : string) (typeObj : obj typeConfig) : io Watch :=
  (typeObj' <- normalizedConfig typeObj ;;
   ws <- getWSConfig root ;;
   ret (mkWatch root typeObj' ws))%io.

Definition addScope (ws : wsConfigT) (scopes : string)
           (kv : string * typeConfig) : io string :=
  match firstNonDotRun (basename (projectConfig ws)) with
  | None => throw (Error "TypeError")
  | Some name => ret (scopes ++ genScopes (snd kv) name)%string
  end.

(** The string [scopes] after the loop, for a project name. *)
Definition scopesMarkup (typeObj : obj typeConfig) (projectName : string)
  : string :=
  fold_left (fun scopes kv => (scopes ++ genScopes (snd kv) projectName)%string)
            typeObj ""%string.

Definition addRuletoWorkspace (this : Watch) (ws : wsConfigT) : io value :=
  (workspaceStr <- readFileSync (workspaceConfig ws) ;;
   let doc := load workspaceStr in
   scopes <- foldM (addScope ws) (typeObj this) ""%string ;;
   let doc := mergeScopes (load scopes) doc in
   writeFileSync (workspaceConfig ws) (xml doc) ;;
   log ("WS的workspace文件创建完成 " ++ workspaceConfig ws) ;;
   ret (VBool true))%io.

Definition writeFile (this : Watch) : io value :=
  match wsConfig this with
  | None => log "这不是一个webstorm项目！"
  | Some ws =>
      (let outputConfig := resolve (root this) ".idea/watcherTasks.xml" in
       let xml := genWatchXml (typeObj this) in
       writeFileSync outputConfig xml ;;
       log ("WS的监听文件创建完成 " ++ outputConfig) ;;
       addRuletoWorkspace this ws ;;
       ret (VBool true))%io
  end.

End Platform.

End Watcher.

(* ================================================================== *)
(** * Vocabulary of the specification *)
(* ================================================================== *)

Module Spec.

(** The symbolic severity the specification gives a numeric one: the
    entry at index [n] of [off, warn, error] for [n] in [{0,1,2}], and
    [off] for any other number. *)
Definition symbolic (n : number) : string :=
  match n with
  | Int 0 => "off"
  | Int 1 => "warn"
  | Int 2 => "error"
  | _ => "off"
  end.

(** The value the specification gives a rule after normalizing. *)
Definition normalized (ruleConfig : value) : value :=
  match ruleConfig with
  | VNum n => VStr (symbolic n)
  | VArr (VNum n :: options) => VArr (VStr (symbolic n) :: options)
  | _ => ruleConfig
  end.

(** [search] occurs somewhere in [s]. *)
Definition occursIn (search s : string) : Prop :=
  exists before after, s = (before ++ search ++ after)%string.

(** [x] comes before [y] in [l]. *)
Definition precedes (x y : string) (l : list string) : Prop :=
  exists l1 l2 l3, l = l1 ++ x :: l2 ++ y :: l3.

(** Strict lexicographic order on the character codes. *)
Fixpoint lexGt (a b : string) : bool :=
  match a, b with
  | EmptyString, _ => false
  | String _ _, EmptyString => true
  | String x a', String y b' =>
      if (nat_of_ascii y <? nat_of_ascii x)%nat then true
      else if (nat_of_ascii x <? nat_of_ascii y)%nat then false
      else lexGt a' b'
  end.

(** The file was thrown at rather than written. *)
Definition raises {A} (r : (exn + A) * world) : Prop :=
  exists e, fst r = inl e.

End Spec.

(* ================================================================== *)
(** * Invariants and sample inputs *)
(* ================================================================== *)

(** Every module collected so far is tagged [latest]. *)
Definition allLatest (m : obj string) : Prop :=
  Forall (fun kv => snd kv = "latest") m.

(** The entry passes the guard of the [forEach] callback of
    [getModulesList]. *)
Definition passes (extend : string) : bool :=
  ((indexOf extend "eslint:" =? -1)%Z && (indexOf extend "plugin:" =? -1)%Z)%bool.

(** The elements of a forest in document order, without those that
    satisfy [p] and without what these contain. *)
Fixpoint outsideIn (p : entry -> bool) (x : node) : list entry :=
  match x with
  | Element t a cs =>
      if p (t, a) then [] else (t, a) :: flat_map (outsideIn p) cs
  | _ => []
  end.

Definition outlineOutside (p : entry -> bool) (d : list node) : list entry :=
  flat_map (outsideIn p) d.

(** A forest without its character data and other nodes: the elements
    alone, as trees. *)
Fixpoint elementsIn (x : node) : list node :=
  match x with
  | Element t a cs => [Element t a (flat_map elementsIn cs)]
  | _ => []
  end.

Definition elements (d : list node) : list node := flat_map elementsIn d.

(** The node is an element that satisfies [p]. *)
Definition rootIs (p : entry -> bool) (x : node) : bool :=
  match x with
  | Element t a _ => p (t, a)
  | _ => false
  end.

(** A forest without the elements that satisfy [p] and without what
    these contain; every other node stays where it is. *)
Fixpoint withoutIn (p : entry -> bool) (x : node) : node :=
  match x with
  | Element t a cs =>
      Element t a (filter (fun c => negb (rootIs p c)) (map (withoutIn p) cs))
  | _ => x
  end.

Definition without (p : entry -> bool) (d : list node) : list node :=
  filter (fun c => negb (rootIs p c)) (map (withoutIn p) d).

(** A forest in which every element [e] has received the nodes
    [tail e] after its last child, and nothing else has changed. *)
Fixpoint withTailsIn (tail : entry -> list node) (x : node) : node :=
  match x with
  | Element t a cs => Element t a (map (withTailsIn tail) cs ++ tail (t, a))
  | _ => x
  end.

Definition withTails (tail : entry -> list node) (d : list node)
  : list node :=
  map (withTailsIn tail) d.

(** The element carries one of the scope names of the fixed table. *)
Definition tableNamed (e : entry) : bool :=
  existsb (fun kv => matchesE (ByAttr "name" (snd kv)) e) Watcher.SCOPENAME.

Definition isElement (x : node) : bool :=
  match x with
  | Element _ _ _ => true
  | _ => false
  end.

(** What a merge gives an element: the scopes to an element named
    [NamedScopeManager]; and, when the document had no such element
    ([fresh]), a container that holds the scopes to a [project]
    element; nothing to any other. *)
Definition mergedTail (scopes : list node) (fresh : bool) (e : entry)
  : list node :=
  if matchesE (ByAttr "name" Watcher.NamedScopeManager) e then scopes
  else if (fresh && (fst e =? "project")%string)%bool
       then [Element "component" [("name", Watcher.NamedScopeManager)] scopes]
       else [].

(** The elements that carry a scope name of the table are entries: they
    are not the [project] element and hold no element. *)
Fixpoint scopesAreEntriesIn (x : node) : bool :=
  match x with
  | Element t a cs =>
      (if tableNamed (t, a)
       then negb (t =? "project")%string && negb (existsb isElement cs)
       else true)
      && forallb scopesAreEntriesIn cs
  | _ => true
  end.

(** A workspace document: one [project] element, at most one element
    named [NamedScopeManager], and scope entries as above. *)
Definition workspaceDocument (d : document) : bool :=
  (count (ByTag "project") d =? 1)%nat
  && (count (ByAttr "name" Watcher.NamedScopeManager) d <=? 1)%nat
  && forallb scopesAreEntriesIn d.

(** The watch rule set as [normalizedConfig] leaves it: every key is in
    the table and its descriptor carries the scope name of the key. *)
Definition normalizedEntry (kv : string * Watcher.typeConfig) : Prop :=
  exists name, obj_get (fst kv) Watcher.SCOPENAME = Some name
               /\ Watcher.scopeName (snd kv) = Some name.

Definition normalizedRun (typeObj : obj Watcher.typeConfig) : Prop :=
  Forall normalizedEntry typeObj.

(** The markup of a node: character data as it is, an element by its
    tag and attributes, closed at once. *)
Definition attribute (kv : string * string) : string :=
  (" " ++ fst kv ++ "=" ++ Watcher.q (snd kv))%string.

Definition markup (x : node) : string :=
  match x with
  | Text data => data
  | Other _ data => data
  | Element t a _ =>
      ("<" ++ t ++ String.concat "" (map attribute a) ++ " />")%string
  end.

Definition markupOfList (l : list node) : string :=
  fold_right (fun x s => (markup x ++ s)%string) ""%string l.

(** Stand-ins for the library functions, to run the program on sample
    inputs. *)
Module Sample.

(** A workspace that holds a stale entry of a file type, [vue], and an
    entry of the user's own. *)
Definition workspace : document :=
  [ Element "project" [("version", "4")]
      [ Element "component" [("name", "NamedScopeManager")]
          [ Element "scope" [("name", "prettier-vue");
                             ("pattern", "file:src//*")] [];
            Element "scope" [("name", "tests"); ("pattern", "file:test//*")] []
          ] ] ].

(** A document with two containers, which no IDE writes. *)
Definition twoContainers : document :=
  [ Element "project" [("version", "4")]
      [ Element "component" [("name", "NamedScopeManager")] [];
        Element "component" [("name", "NamedScopeManager")] [] ] ].

(** A document that lies inside an entry of the table, which no IDE
    writes either. *)
Definition nested : document :=
  [ Element "scope" [("name", "prettier-js")]
      [ Element "project" [("version", "4")]
          [ Element "component" [("name", "NamedScopeManager")] [] ] ] ].

(** A run over the file type [js] alone. *)
Definition run : obj Watcher.typeConfig :=
  [("js", Watcher.mkTypeConfig (Some "prettier-js") [] true)].

(** The part of a path from its last dot. *)
Fixpoint extname (path : string) : string :=
  match path with
  | EmptyString => EmptyString
  | String c path' =>
      match extname path' with
      | EmptyString => if (c =? ".")%char then path else EmptyString
      | ext => ext
      end
  end.

(** A stringifier that knows one text, and a dump that cannot write a
    configuration without rules. *)
Definition stringify (c : config) (o : ConfigFile.stringifyOptions)
  : exn + string :=
  inr "{}".

Definition safeDump (c : config) (o : ConfigFile.dumpOptions)
  : exn + string :=
  match rules c with
  | Some _ => inr "{}"
  | None => inl (Error "YAMLException")
  end.

(** A file system that refuses nothing and has one name per file; and
    one on which nothing can be written. *)
Definition plain : FileSystem :=
  {| realpath := fun path => path;
     writeRefused := fun _ _ => None;
     readRefused := fun _ _ => None |}.

Definition readOnly : FileSystem :=
  {| realpath := fun path => path;
     writeRefused := fun _ _ => Some (Error "EACCES");
     readRefused := fun _ _ => None |}.

Definition resolve (root path : string) : string :=
  (root ++ "/" ++ path)%string.

(** The part of a path after its last slash. *)
Fixpoint basename (path : string) : string :=
  match path with
  | EmptyString => EmptyString
  | String c path' =>
      if existsb (Ascii.eqb "/") (list_ascii_of_string path')
      then basename path'
      else if (c =? "/")%char then path' else path
  end.

(** The files that match: those with the extension of a pattern that
    ends in a starred extension, the file of that very name otherwise. *)
Definition glob_sync (fs : obj string) (pattern : string) : list string :=
  if (basename pattern =? "*.iml")%string
  then filter (fun f => (extname f =? ".iml")%string) (obj_keys fs)
  else filter (String.eqb pattern) (obj_keys fs).

(** A parser for the markup of scopes: character data, and [scope]
    elements with a [name] and a [pattern] in double quotes, closed at
    once; what it cannot read is character data. *)
Fixpoint upTo (stop : ascii) (s : string) : option (string * string) :=
  match s with
  | EmptyString => None
  | String c s' =>
      if (c =? stop)%char then Some (EmptyString, s')
      else match upTo stop s' with
           | Some (before, rest) => Some (String c before, rest)
           | None => None
           end
  end.

Fixpoint after (p s : string) : option string :=
  match p, s with
  | EmptyString, _ => Some s
  | String a p', String b s' => if (a =? b)%char then after p' s' else None
  | String _ _, EmptyString => None
  end.

Definition scopeTag (s : string) : option (node * string) :=
  match after ("scope name=" ++ Watcher.dq) s with
  | None => None
  | Some s1 =>
      match upTo (ascii_of_nat 34) s1 with
      | None => None
      | Some (name, s2) =>
          match after (" pattern=" ++ Watcher.dq) s2 with
          | None => None
          | Some s3 =>
              match upTo (ascii_of_nat 34) s3 with
              | None => None
              | Some (pattern, s4) =>
                  match after " />" s4 with
                  | None => None
                  | Some s5 =>
                      Some (Element "scope" [("name", name);
                                             ("pattern", pattern)] [], s5)
                  end
              end
          end
      end
  end.

Definition text (s : string) : list node :=
  if (s =? "")%string then [] else [Text s].

Fixpoint parseScopes (fuel : nat) (s : string) : list node :=
  match fuel with
  | O => text s
  | S fuel' =>
      match upTo "<" s with
      | None => text s
      | Some (before, rest) =>
          match scopeTag rest with
          | Some (element, rest') =>
              text before ++ element :: parseScopes fuel' rest'
          | None => text s
          end
      end
  end.

Definition load (s : string) : document := parseScopes (String.length s) s.

(** A run with a rule that holds a double quote and markup after it. *)
Definition quoted : obj Watcher.typeConfig :=
  [("js", Watcher.mkTypeConfig (Some "prettier-js")
            [("a" ++ Watcher.dq ++ " /><scope name=" ++ Watcher.dq
                ++ "prettier-js" ++ Watcher.dq ++ " pattern=" ++ Watcher.dq
                ++ "b")%string]
            true)].

End Sample.

(* ================================================================== *)
(** * lib/npm-utils.js *)
(* ================================================================== *)

Module NpmUtils.

Section Spawn.

(** [spawn.sync(command, args, { stdio: "inherit" })]: the process may
    change the world; the answer is the [code] of [npmProcess.error], or
    [None] when there is no error. *)
Variable spawn_sync : string -> list string -> world -> option string * world.

Definition installSyncSaveDev (packages : string + list string) : io unit :=
  let packageList := match packages with
                     | inr l => l
                     | inl p => [p]
                     end in
  fun w =>
    let (error, w') := spawn_sync "npm" (["i"; "--save-dev"] ++ packageList) w in
    match error with
    | Some code =>
        if (code =? "ENOENT")%string
        then
          let pluralS := if (1 <? length packageList)%nat then "s" else "" in
          (log ("Could not execute npm. Please install the following package"
                  ++ pluralS
                  ++ " with a package manager of your choice: "
                  ++ String.concat ", " packageList) ;;
           ret tt)%io w'
        else (inr tt, w')
    | None => (inr tt, w')
    end.

End Spawn.

End NpmUtils.

(* ================================================================== *)
(** * lib/index.js, from the answers to the files *)
(* ================================================================== *)

Module Index.

(** The configuration as the object that [genEslintConfig] returns, its
    properties in the order in which they were created. *)
Definition configObject (c : config) : obj value :=
  match rules c with Some r => [("rules", VObj r)] | None => [] end
  ++ [("env", VObj (env c)); ("parserOptions", VObj (parserOptions c))]
  ++ match extends c with
     | Absent => []
     | Str s => [("extends", VStr s)]
     | Arr l => [("extends", VArr (map VStr l))]
     end
  ++ match globals c with Some g => [("globals", VObj g)] | None => [] end
  ++ match plugins c with
     | Some ps => [("plugins", VArr (map VStr ps))]
     | None => []
     end.

Definition prettierConfigObject : obj value :=
  [ ("printWidth", VNum (Int 100));
    ("bracketSpacing", VBool true);
    ("semi", VBool true);
    ("tabWidth", VNum (Int 4));
    ("singleQuote", VBool true);
    ("jsxSingleQuote", VBool false);
    ("jsxBracketSameLine", VBool false);
    ("arrowParens", VStr "avoid");
    ("endOfLine", VStr "lf") ].

Record configs : Type := mkConfigs {
  eslintConfig : config;
  prettierConfig : option (obj value)       (* [None] is [null] *)
}.

Definition processAnswers (answers : Answers.t) : configs :=
  let eslintConfig := Init.genEslintConfig answers in
  let prettierConfig := if Answers.installedPrettier answers
                        then Some prettierConfigObject else None in
  mkConfigs eslintConfig prettierConfig.

(** The answers of the second prompt. *)
Record watchAnswers : Type := mkWatchAnswers {
  wsWatch : bool;
  watchList : list string;
  watchMatch : string
}.

(** The white space of [\s] and of [trim]: the code points of
    [WhiteSpace] and [LineTerminator]. *)
Definition whiteSpace : list N :=
  [9; 10; 11; 12; 13; 32; 160; 5760;
   8192; 8193; 8194; 8195; 8196; 8197; 8198; 8199; 8200; 8201; 8202;
   8232; 8233; 8239; 8287; 12288; 65279]%N.

(** A string is held by the bytes of its UTF-8 form; these are the
    bytes of a code point below 65536. *)
Definition utf8 (n : N) : string :=
  if (n <? 128)%N then String (ascii_of_N n) ""
  else if (n <? 2048)%N
       then String (ascii_of_N (192 + n / 64))
              (String (ascii_of_N (128 + n mod 64)) "")
       else String (ascii_of_N (224 + n / 4096))
              (String (ascii_of_N (128 + (n / 64) mod 64))
                 (String (ascii_of_N (128 + n mod 64)) "")).

Definition spaces : list string := map utf8 whiteSpace.

(** The number of bytes of the white-space character that [s] begins
    with; 0 when it begins with none. *)
Definition spaceLength (s : string) : nat :=
  match find (fun sp => String.prefix sp s) spaces with
  | Some sp => String.length sp
  | None => 0
  end.

(** [s.trim()] is falsy: white space from end to end.  [skip] counts
    the bytes still to pass of the character being read. *)
Fixpoint allSpace (skip : nat) (s : string) : bool :=
  match s with
  | EmptyString => true
  | String _ s' =>
      match skip with
      | S k => allSpace k s'
      | O => match spaceLength s with
             | S k => allSpace k s'
             | O => false
             end
      end
  end.

(** [s.trim()] is truthy: some character is no white space. *)
Definition notBlank (s : string) : bool := negb (allSpace 0 s).

(** [s.split(/\s+/)], read from the left; [inRun] says that the
    character before was white space of the separator being skipped,
    [skip] counts the bytes still to pass of a white-space character. *)
Fixpoint splitFrom (skip : nat) (inRun : bool) (s : string) : list string :=
  match s with
  | EmptyString => [EmptyString]
  | String c s' =>
      match skip with
      | S k => splitFrom k inRun s'
      | O =>
          match spaceLength s with
          | S k => if inRun then splitFrom k true s'
                   else EmptyString :: splitFrom k true s'
          | O => match splitFrom 0 false s' with
                 | piece :: pieces => String c piece :: pieces
                 | [] => [String c EmptyString]
                 end
          end
      end
  end.

Definition split (s : string) : list string := splitFrom 0 false s.

(** [s.slice(1)]. *)
Definition slice1 (s : string) : string :=
  match s with
  | EmptyString => EmptyString
  | String _ s' => s'
  end.

(** The direction and the rules that [watch] reads off the answer. *)
Definition ruleDirectionOf (watchMatch : string) : bool :=
  negb (indexOf watchMatch "!" =? 0)%Z.

Definition ruleOf (watchMatch : string) : list string :=
  let watchMatch := if (indexOf watchMatch "!" =? 0)%Z
                    then slice1 watchMatch else watchMatch in
  if notBlank watchMatch then split watchMatch else [].

(** The object [config.typeObj] that [watch] builds. *)
Definition typeObjOf (answers : watchAnswers) : obj Watcher.typeConfig :=
  let ruleDirection := ruleDirectionOf (watchMatch answers) in
  let rule := ruleOf (watchMatch answers) in
  fold_left (fun typeObj fileType =>
               obj_set fileType (Watcher.mkTypeConfig None rule ruleDirection)
                       typeObj)
            (watchList answers) [].

Section Platform.

Context {fs : FileSystem}.
Variable spawn_sync : string -> list string -> world -> option string * world.
Variable extname : string -> string.
Variable stringify : obj value -> ConfigFile.stringifyOptions -> exn + string.
Variable safeDump : obj value -> ConfigFile.dumpOptions -> exn + string.
Variable process_cwd : string.            (* [process.cwd()] *)
Variable inspect : Answers.t -> string.   (* what [console.log] prints *)
Variable resolve : string -> string -> string.
Variable basename : string -> string.
Variable glob_sync : obj string -> string -> list string.
Variable load : string -> document.
Variable xml : document -> string.

Definition installModules (modules : list string) : io unit :=
  (log ("Installing " ++ String.concat ", " modules) ;;
   NpmUtils.installSyncSaveDev spawn_sync (inr modules))%io.

(** [executeInstallation] is the answer to the confirmation. *)
Definition askInstallModules (modules : list string)
           (executeInstallation : bool) : io unit :=
  if (length modules =? 0)%nat then ret tt
  else
    (log ("配置中中你选择的引用将会安装以下依赖:" ++ Watcher.nl) ;;
     log (String.concat " " modules) ;;
     if executeInstallation then installModules modules else ret tt)%io.

Definition writeFile (framework : string) (config : obj value)
           (format : string) : io unit :=
  let ext := if (format =? "YAML")%string then ".yml"
             else if (format =? "JSON")%string then ".json"
                  else ".js" in
  let installedESLint := obj_get "installedESLint" config in
  let config := obj_delete "installedESLint" config in
  (ConfigFile.write extname stringify safeDump config
                    ("./." ++ framework ++ "rc" ++ ext) ;;
   log ("Successfully created ." ++ framework ++ "rc" ++ ext
          ++ " file in " ++ process_cwd) ;;
   match installedESLint with
   | Some v =>
       if truthy v
       then (log "ESLint was installed locally. We recommend using this local copy instead of your globally-installed copy." ;;
             ret tt)
       else ret tt
   | None => ret tt
   end)%io.

(** [watch(cwd)], with the answers of its prompt; the result says
    whether the promise of the callback is resolved. *)
Definition watch (cwd : string) (answers : watchAnswers) : io bool :=
  if negb (wsWatch answers) then ret true
  else
    (watch <- Watcher.new resolve glob_sync cwd (typeObjOf answers) ;;
     written <- Watcher.writeFile resolve basename load xml watch ;;
     ret (truthy written))%io.

(** [promptUser(cwd)], with the answers of its prompt and of the
    prompts that follow; the steps of the promise chain run one after
    the other, and the result is that of [watch]. *)
Definition promptUser (cwd : string) (earlyAnswers : Answers.t)
           (executeInstallation : bool) (answers : watchAnswers) : io bool :=
  (log (inspect earlyAnswers) ;;
   let configs := processAnswers earlyAnswers in
   let modules := Init.getModulesList (eslintConfig configs) (Some true) in
   askInstallModules modules executeInstallation ;;
   writeFile "eslint" (configObject (eslintConfig configs)) "JSON" ;;
   match prettierConfig configs with
   | Some prettierConfig => writeFile "prettier" prettierConfig "JSON"
   | None => ret tt
   end ;;
   watch cwd answers)%io.

End Platform.

End Index.

(** The entries of an [extends] value. *)
Definition extendsList (e : Extends) : list string :=
  match e with
  | Absent => []
  | Str s => [s]
  | Arr l => l
  end.

(** What [normalizedConfig] makes of one entry of the watch rule set:
    the entry with its scope name, or nothing and a line on the console. *)
Definition keptEntry (kv : string * Watcher.typeConfig)
  : list (string * Watcher.typeConfig) :=
  match Watcher.scopeNameOf (fst kv) with
  | Some name =>
      [(fst kv, Watcher.mkTypeConfig (Some name) (Watcher.rule (snd kv))
                                     (Watcher.ruleDirection (snd kv)))]
  | None => []
  end.

Definition skipLine (kv : string * Watcher.typeConfig) : list string :=
  match Watcher.scopeNameOf (fst kv) with
  | Some _ => []
  | None => [(fst kv ++ ":此类型尚未在SCOPENAME中配置！skip~")%string]
  end.

(** The first byte of a character, and a byte that follows it. *)
Definition leadByte (c : ascii) : bool :=
  (nat_of_ascii c <? 128)%nat || (192 <=? nat_of_ascii c)%nat.

Definition tailByte (c : ascii) : bool := negb (leadByte c).

(** A character whole: a first byte and the bytes that follow it. *)
Definition wholeCharacter (sp : string) : bool :=
  match sp with
  | EmptyString => false
  | String c rest =>
      leadByte c && forallb tailByte (list_ascii_of_string rest)
  end.

(** A white-space character begins somewhere in the string. *)
Fixpoint hasSpace (s : string) : bool :=
  match s with
  | EmptyString => false
  | String _ s' => negb (Index.spaceLength s =? 0)%nat || hasSpace s'
  end.

(** More stand-ins for sample runs. *)
Module Demo.

(** No [npm] on the machine. *)
Definition noNpm (command : string) (args : list string) (w : world)
  : option string * world :=
  (Some "ENOENT"%string, w).

(** An [npm] that installs without error and records what it was asked. *)
Definition npm (command : string) (args : list string) (w : world)
  : option string * world :=
  (None, mkWorld (obj_set "package.json" (String.concat " " args) (files w))
                 (console w)).

Definition stringify (c : obj value) (o : ConfigFile.stringifyOptions)
  : exn + string :=
  inr (String.concat "," (obj_keys c)).

Definition safeDump (c : obj value) (o : ConfigFile.dumpOptions)
  : exn + string :=
  inr (String.concat "," (obj_keys c)).

Definition inspect (a : Answers.t) : string := Answers.purpose a.

(** A rule set with a file type that the table of scope names lacks. *)
Definition ruleSet : obj Watcher.typeConfig :=
  [("js", Watcher.mkTypeConfig None ["src/"] true);
   ("ts", Watcher.mkTypeConfig None ["src/"] true)].

(** A parser that knows one document besides the markup of scopes, and
    a printer of the elements. *)
Definition load (s : string) : document :=
  if (s =? "<project />")%string then [Element "project" [] []]
  else Sample.load s.

Definition xml (d : document) : string :=
  String.concat "" (map (fun e => ("<" ++ fst e ++ ">")%string) (outline d)).

End Demo.

(* ================================================================== *)
(** * Properties of objects *)
(* ================================================================== *)

Section ObjectFacts.

Context {V : Type}.

Lemma obj_get_set_same (k : string) (v : V) (o : obj V) :
  obj_get k (obj_set k v o) = Some v.
Proof.
  induction o as [|[k' v'] o IH]; simpl.
  - now rewrite String.eqb_refl.
  - destruct (String.eqb k' k) eqn:E; simpl; rewrite E; auto.
Qed.

Lemma obj_get_set_other (k k' : string) (v : V) (o : obj V) :
  k <> k' -> obj_get k' (obj_set k v o) = obj_get k' o.
Proof.
  intros Hne. induction o as [|[k0 v0] o IH]; simpl.
  - apply String.eqb_neq in Hne. now rewrite Hne.
  - destruct (String.eqb k0 k) eqn:E; simpl.
    + apply String.eqb_eq in E. subst k0.
      apply String.eqb_neq in Hne. now rewrite Hne.
    + now rewrite IH.
Qed.

Lemma obj_get_In_keys (k : string) (v : V) (o : obj V) :
  obj_get k o = Some v -> In k (obj_keys o).
Proof.
  induction o as [|[k' v'] o IH]; simpl; [discriminate|].
  destruct (String.eqb k' k) eqn:E.
  - apply String.eqb_eq in E. auto.
  - auto.
Qed.

Lemma obj_keys_set (k x : string) (v : V) (o : obj V) :
  In x (obj_keys (obj_set k v o)) <-> x = k \/ In x (obj_keys o).
Proof.
  induction o as [|[k' v'] o IH]; simpl.
  - intuition.
  - destruct (String.eqb k' k) eqn:E; simpl.
    + apply String.eqb_eq in E. subst. intuition.
    + rewrite IH. intuition.
Qed.

Lemma obj_keys_delete (k x : string) (o : obj V) :
  In x (obj_keys (obj_delete k o)) <-> x <> k /\ In x (obj_keys o).
Proof.
  unfold obj_keys, obj_delete.
  induction o as [|[k' v'] o IH]; simpl.
  - intuition.
  - destruct (String.eqb k' k) eqn:E; simpl.
    + apply String.eqb_eq in E. subst. rewrite IH. intuition congruence.
    + apply String.eqb_neq in E. rewrite IH. intuition congruence.
Qed.

End ObjectFacts.

(* ================================================================== *)
(** * The severity normalizer *)
(* ================================================================== *)

Section Normalizer.

Import ConfigOps.

Lemma severityString_out_of_range (z : Z) :
  (z < 0 \/ 3 <= z)%Z -> severityString (Int z) = "off".
Proof.
  intros Hz. unfold severityString, severityAt.
  destruct (Z.ltb_spec z 0) as [Hneg|Hpos]; [reflexivity|].
  assert (H3 : (3 <= Z.to_nat z)%nat) by lia.
  destruct (Z.to_nat z) as [|[|[|m]]]; try lia.
  destruct m; reflexivity.
Qed.

Lemma severityString_symbolic (n : number) :
  severityString n = Spec.symbolic n.
Proof.
  destruct n as [z|s]; [|reflexivity].
  destruct z as [|p|p].
  - reflexivity.
  - destruct p as [p|[p|p|]|]; try reflexivity;
      apply severityString_out_of_range; lia.
  - apply severityString_out_of_range; lia.
Qed.

Lemma normalizeRule_normalized (v : value) :
  normalizeRule v = Spec.normalized v.
Proof.
  destruct v as [| | | n | | items |]; simpl; try reflexivity.
  - now rewrite severityString_symbolic.
  - destruct items as [|[| | | n | | |] options]; try reflexivity.
    now rewrite severityString_symbolic.
Qed.

Lemma normalizeRule_idem (v : value) :
  normalizeRule (normalizeRule v) = normalizeRule v.
Proof.
  destruct v as [| | | n | | items |]; simpl; try reflexivity.
  destruct items as [|[| | | n | | |] options]; reflexivity.
Qed.

(** A rule that is already normalized stays as it is through the loop. *)
Lemma normalize_loop_stable (ks : list string) :
  forall (rs : obj value) (k : string) (v : value),
    obj_get k rs = Some v -> normalizeRule v = v ->
    obj_get k (fold_left normalizeRuleAt ks rs) = Some v.
Proof.
  induction ks as [|a ks IH]; intros rs k v Hget Hfix; simpl; [assumption|].
  apply IH; [|assumption].
  unfold normalizeRuleAt.
  destruct (obj_get a rs) as [w|] eqn:Ha; [|assumption].
  destruct (String.eqb_spec a k) as [->|Hne].
  - rewrite Hget in Ha. injection Ha as <-.
    rewrite Hfix. apply obj_get_set_same.
  - now rewrite obj_get_set_other.
Qed.

(** A rule whose key the loop visits ends up normalized. *)
Lemma normalize_loop_visited (ks : list string) :
  forall (rs : obj value) (k : string) (v : value),
    obj_get k rs = Some v -> In k ks ->
    obj_get k (fold_left normalizeRuleAt ks rs) = Some (normalizeRule v).
Proof.
  induction ks as [|a ks IH]; intros rs k v Hget Hin; simpl; [easy|].
  unfold normalizeRuleAt at 2.
  destruct (String.eqb_spec a k) as [->|Hne].
  - rewrite Hget.
    apply normalize_loop_stable;
      [apply obj_get_set_same | apply normalizeRule_idem].
  - destruct Hin as [->|Hin]; [congruence|].
    apply IH; [|assumption].
    destruct (obj_get a rs); [now rewrite obj_get_set_other | assumption].
Qed.

(** C4. For every configuration object and every key of its [rules]
    mapping, after normalizing the rule holds: for a number [n] in
    [{0,1,2}] the entry at index [n] of [off, warn, error]; for any
    other number [off]; for an array whose first element is a number
    the same array with only that first element replaced; and a string
    (like any other value) is left as it was. *)
Theorem normalizeToStrings_rule
        (c : config) (rs : obj value) (ruleId : string) (ruleConfig : value) :
  rules c = Some rs ->
  obj_get ruleId rs = Some ruleConfig ->
  exists rs' v',
    rules (normalizeToStrings c) = Some rs'
    /\ obj_get ruleId rs' = Some v'
    /\ match ruleConfig with
       | VNum (Int 0) => v' = VStr (nth 0 RULE_SEVERITY_STRINGS "")
       | VNum (Int 1) => v' = VStr (nth 1 RULE_SEVERITY_STRINGS "")
       | VNum (Int 2) => v' = VStr (nth 2 RULE_SEVERITY_STRINGS "")
       | VNum _ => v' = VStr "off"
       | VArr (VNum n :: options) =>
           v' = VArr (VStr (Spec.symbolic n) :: options)
       | VStr s => v' = VStr s
       | other => v' = other
       end.
Proof.
  intros Hrules Hget.
  exists (fold_left normalizeRuleAt (obj_keys rs) rs), (normalizeRule ruleConfig).
  split; [|split].
  - unfold normalizeToStrings. now rewrite Hrules.
  - apply normalize_loop_visited; [assumption|].
    eapply obj_get_In_keys; eassumption.
  - rewrite normalizeRule_normalized.
    destruct ruleConfig as [| | | n | | items |]; simpl; try reflexivity.
    + destruct n as [[|[p|[p|p|]|]|p]|s]; reflexivity.
    + destruct items as [|[| | | n | | |] options]; reflexivity.
Qed.

Lemma normalizeToStrings_rule_witness :
  exists rs' v',
    rules (normalizeToStrings
             (mkConfig (Some [("semi", VArr [VNum (Int 2); VStr "always"]);
                              ("no-console", VNum (Int 1))])
                       [] [] Absent None None)) = Some rs'
    /\ obj_get "semi" rs' = Some v'
    /\ v' = VArr [VStr "error"; VStr "always"].
Proof.
  destruct (normalizeToStrings_rule
              (mkConfig (Some [("semi", VArr [VNum (Int 2); VStr "always"]);
                               ("no-console", VNum (Int 1))])
                        [] [] Absent None None)
              [("semi", VArr [VNum (Int 2); VStr "always"]);
               ("no-console", VNum (Int 1))]
              "semi" (VArr [VNum (Int 2); VStr "always"])
              eq_refl eq_refl) as (rs' & v' & H1 & H2 & H3).
  exists rs', v'. auto.
Defined.

End Normalizer.

(* ================================================================== *)
(** * The config synthesizer *)
(* ================================================================== *)

Section Synthesizer.

Import Init.

Lemma normalizeToStrings_extends (c : config) :
  extends (ConfigOps.normalizeToStrings c) = extends c.
Proof.
  unfold ConfigOps.normalizeToStrings. destruct (rules c); reflexivity.
Qed.

Lemma genEslintConfig_extends (answers : Answers.t) :
  extends (genEslintConfig answers) = normalizeExtends (extendsArray answers).
Proof.
  unfold genEslintConfig. now rewrite normalizeToStrings_extends.
Qed.

Lemma extendsArray_base (answers : Answers.t) :
  In "fee-base" (extendsArray answers).
Proof.
  unfold extendsArray.
  destruct (Answers.framework answers =? "react")%string;
    destruct (Answers.framework answers =? "vue")%string;
    destruct (Answers.purpose answers =? "problems")%string;
    destruct (Answers.installedPrettier answers); simpl; auto 6.
Qed.

(** C5. For every answer set with [purpose = "problems"] and
    [installedPrettier = true], the [extends] value of the synthesized
    configuration is a sequence in which ["eslint:recommended"] comes
    before ["prettier"], and ["prettier"] is its last entry. *)
Theorem genEslintConfig_recommended_before_prettier (answers : Answers.t) :
  Answers.purpose answers = "problems" ->
  Answers.installedPrettier answers = true ->
  exists l,
    extends (genEslintConfig answers) = Arr l
    /\ Spec.precedes "eslint:recommended" "prettier" l
    /\ last l "" = "prettier".
Proof.
  intros Hp Hf.
  rewrite genEslintConfig_extends. unfold extendsArray.
  rewrite Hp, Hf. simpl.
  destruct (Answers.framework answers =? "react")%string;
    [|destruct (Answers.framework answers =? "vue")%string]; simpl;
    eexists; (split; [reflexivity|]); split; try reflexivity.
  - now exists [], ["fee-base"], [].
  - now exists [], ["fee-base"; "plugin:vue/essential"], [].
  - now exists [], ["fee-base"], [].
Qed.

Lemma genEslintConfig_recommended_before_prettier_witness :
  exists l,
    extends (genEslintConfig
               (Answers.mk "problems" "esm" "vue" ["browser"] true)) = Arr l
    /\ Spec.precedes "eslint:recommended" "prettier" l
    /\ last l "" = "prettier".
Proof.
  exact (genEslintConfig_recommended_before_prettier
           (Answers.mk "problems" "esm" "vue" ["browser"] true)
           eq_refl eq_refl).
Defined.

(** C7. After synthesis the [extends] field is the collapsed form of
    the array built from the answers, and collapsing goes by the number
    of entries: none, the field is absent; exactly one, the bare string
    of that entry; two or more, the same ordered sequence. *)
Theorem genEslintConfig_extends_collapsed (answers : Answers.t) :
  extends (genEslintConfig answers) = normalizeExtends (extendsArray answers)
  /\ forall e : list string,
       normalizeExtends e =
       match length e with
       | 0 => Absent
       | 1 => Str (hd "" e)
       | _ => Arr e
       end.
Proof.
  split; [apply genEslintConfig_extends|].
  intros [|x [|y e]]; reflexivity.
Qed.

(** C10. For every answer set the synthesized configuration has
    ["fee-base"] in its [extends] value, as the bare string or as an
    element of the sequence; the array is never empty before it is
    collapsed, so the field is never removed. *)
Theorem genEslintConfig_has_base (answers : Answers.t) :
  match extends (genEslintConfig answers) with
  | Absent => False
  | Str s => s = "fee-base"
  | Arr l => In "fee-base" l
  end
  /\ In "fee-base" (extendsArray answers)
  /\ extendsArray answers <> []
  /\ extends (genEslintConfig answers) <> Absent.
Proof.
  pose proof (extendsArray_base answers) as Hin.
  rewrite genEslintConfig_extends.
  destruct (extendsArray answers) as [|x [|y e]] eqn:E; simpl.
  - destruct Hin.
  - destruct Hin as [->|[]]. repeat split; auto; discriminate.
  - repeat split; auto; discriminate.
Qed.

End Synthesizer.

(* ================================================================== *)
(** * Properties of strings *)
(* ================================================================== *)

Section StringFacts.

Lemma string_length_append (a b : string) :
  String.length (a ++ b) = String.length a + String.length b.
Proof. induction a as [|c a IH]; simpl; congruence. Qed.

Lemma append_inj_r (s : string) :
  forall a b : string, (a ++ s = b ++ s)%string -> a = b.
Proof.
  induction a as [|c a IH]; intros [|d b] H; simpl in H.
  - reflexivity.
  - apply (f_equal String.length) in H. simpl in H.
    rewrite string_length_append in H. lia.
  - apply (f_equal String.length) in H. simpl in H.
    rewrite string_length_append in H. lia.
  - injection H as -> H. f_equal. now apply IH.
Qed.

Lemma append_inj_l (p : string) :
  forall a b : string, (p ++ a = p ++ b)%string -> a = b.
Proof.
  induction p as [|c p IH]; intros a b H; simpl in H; [assumption|].
  injection H as H. now apply IH.
Qed.

Lemma prefix_app_iff (p : string) :
  forall s, String.prefix p s = true <-> exists b, s = (p ++ b)%string.
Proof.
  induction p as [|c p IH]; intros s.
  - split; [intros _; now exists s | intros _; now destruct s].
  - destruct s as [|d s]; simpl.
    + split; [discriminate | intros [b Hb]; discriminate].
    + destruct (ascii_dec c d) as [->|Hne].
      * rewrite IH. split; intros [b Hb]; exists b; simpl in *; congruence.
      * split; [discriminate | intros [b Hb]; simpl in Hb; congruence].
Qed.

Lemma indexOfFrom_eq (i : Z) (search s : string) :
  indexOfFrom i search s
  = if String.prefix search s then i
    else match s with
         | EmptyString => (-1)%Z
         | String _ s' => indexOfFrom (i + 1) search s'
         end.
Proof. destruct s; reflexivity. Qed.

(** [indexOf] answers [-1] exactly when there is no occurrence. *)
Lemma indexOfFrom_spec (search : string) :
  forall (s : string) (i : Z),
    (0 <= i)%Z ->
    (indexOfFrom i search s = (-1)%Z /\ ~ Spec.occursIn search s)
    \/ ((i <= indexOfFrom i search s)%Z /\ Spec.occursIn search s).
Proof.
  induction s as [|c s IH]; intros i Hi; rewrite indexOfFrom_eq.
  - destruct (String.prefix search "") eqn:E.
    + right. split; [lia|].
      apply prefix_app_iff in E. destruct E as [b Hb].
      now exists ""%string, b.
    + left. split; [reflexivity|].
      intros (before & after & H).
      destruct before; [|discriminate]. simpl in H.
      assert (String.prefix search "" = true)
        by (apply prefix_app_iff; now exists after).
      congruence.
  - destruct (String.prefix search (String c s)) eqn:E.
    + right. split; [lia|].
      apply prefix_app_iff in E. destruct E as [b Hb].
      now exists ""%string, b.
    + destruct (IH (i + 1)%Z ltac:(lia)) as [[H1 H2]|[H1 H2]].
      * left. split; [assumption|].
        intros (before & after & H).
        destruct before as [|d before]; simpl in H.
        -- assert (String.prefix search (String c s) = true)
             by (apply prefix_app_iff; now exists after).
           congruence.
        -- injection H as _ H. apply H2. now exists before, after.
      * right. split; [lia|].
        destruct H2 as (before & after & H).
        exists (String c before), after. simpl. now rewrite H.
Qed.

Lemma indexOf_none_iff (s search : string) :
  indexOf s search = (-1)%Z <-> ~ Spec.occursIn search s.
Proof.
  unfold indexOf.
  destruct (indexOfFrom_spec search s 0 ltac:(lia)) as [[H1 H2]|[H1 H2]];
    split; intros H; try assumption; try contradiction; lia.
Qed.

End StringFacts.

(* ================================================================== *)
(** * The module list resolver *)
(* ================================================================== *)

Section Resolver.

Import Init.

Lemma allLatest_set (k : string) (m : obj string) :
  allLatest m -> allLatest (obj_set k "latest" m).
Proof.
  unfold allLatest. induction m as [|[k' v'] m IH]; intros H; simpl.
  - repeat constructor.
  - inversion H; subst.
    destruct (String.eqb k' k); constructor; auto.
Qed.

Lemma allLatest_delete (k : string) (m : obj string) :
  allLatest m -> allLatest (obj_delete k m).
Proof.
  unfold allLatest, obj_delete. intros H.
  apply Forall_forall. intros x Hx. apply filter_In in Hx.
  rewrite Forall_forall in H. now apply H.
Qed.

Lemma allLatest_get (k : string) (m : obj string) :
  allLatest m -> In k (obj_keys m) -> obj_get k m = Some "latest".
Proof.
  unfold allLatest. induction m as [|[k' v'] m IH]; intros H Hin; simpl in *.
  - destruct Hin.
  - inversion H; subst. simpl in *. subst v'.
    destruct (String.eqb_spec k' k) as [->|Hne]; [reflexivity|].
    destruct Hin; [congruence | auto].
Qed.

Lemma allLatest_plugins (ps : list string) :
  forall m, allLatest m -> allLatest (fold_left addPlugin ps m).
Proof.
  induction ps as [|p ps IH]; intros m H; simpl; [assumption|].
  apply IH. unfold addPlugin.
  destruct (negb _); repeat apply allLatest_set; assumption.
Qed.

Lemma allLatest_extends (es : list string) :
  forall m, allLatest m -> allLatest (fold_left addExtend es m).
Proof.
  induction es as [|e es IH]; intros m H; simpl; [assumption|].
  apply IH. unfold addExtend.
  destruct (_ && _)%bool; [apply allLatest_set|]; assumption.
Qed.

Lemma passes_iff (e : string) :
  passes e = true
  <-> ~ Spec.occursIn "eslint:" e /\ ~ Spec.occursIn "plugin:" e.
Proof.
  unfold passes.
  rewrite andb_true_iff, !Z.eqb_eq, !indexOf_none_iff. reflexivity.
Qed.

(** No plugin contributes a name that starts like a config package. *)
Lemma plugins_keys (ps : list string) :
  forall m x,
    In x (obj_keys (fold_left addPlugin ps m)) ->
    In x (obj_keys m) \/ String.prefix "eslint-config-" x = false.
Proof.
  induction ps as [|p ps IH]; intros m x Hin; simpl in Hin; [now left|].
  apply IH in Hin. destruct Hin as [Hin|Hin]; [|now right].
  unfold addPlugin in Hin.
  assert (Hplug : In x (obj_keys (obj_set ("eslint-plugin-" ++ p) "latest" m))
                  -> In x (obj_keys m)
                     \/ String.prefix "eslint-config-" x = false).
  { intros H. apply obj_keys_set in H. destruct H as [->|H]; auto. }
  destruct (negb _) eqn:E; [|auto].
  apply obj_keys_set in Hin. destruct Hin as [->|Hin]; [|auto].
  right. unfold externalModules, arrayIndexOf, arrayIndexOfFrom in E.
  destruct (String.eqb_spec "prettier" p) as [<-|Hne]; [reflexivity|].
  discriminate.
Qed.

Lemma extends_keys (es : list string) :
  forall m x,
    In x (obj_keys (fold_left addExtend es m))
    <-> In x (obj_keys m)
        \/ exists e, In e es /\ passes e = true
                     /\ x = ("eslint-config-" ++ e)%string.
Proof.
  induction es as [|e es IH]; intros m x; simpl.
  - split; [now left | intros [H|(e & [] & _)]; assumption].
  - rewrite IH. unfold addExtend. fold (passes e).
    destruct (passes e) eqn:E.
    + rewrite obj_keys_set. split.
      * intros [[->|H]|(e' & H1 & H2 & H3)]; eauto 7.
      * intros [H|(e' & [->|H1] & H2 & H3)]; eauto 7.
    + split.
      * intros [H|(e' & H1 & H2 & H3)]; eauto 7.
      * intros [H|(e' & [->|H1] & H2 & H3)]; eauto 7; congruence.
Qed.

Lemma getModulesList_latest (c : config) (installESLint : option bool) :
  exists modules : obj string,
    getModulesList c installESLint
    = map (fun name => (name ++ "@latest")%string) (obj_keys modules)
    /\ forall e,
         In ("eslint-config-" ++ e)%string (obj_keys modules)
         <-> match extends c with
             | Arr es => In e es /\ passes e = true
             | _ => False
             end.
Proof.
  unfold getModulesList.
  set (m1 := match plugins c with
             | Some ps => fold_left addPlugin ps []
             | None => []
             end).
  set (m2 := match extends c with
             | Arr es => fold_left addExtend es m1
             | _ => m1
             end).
  set (m3 := match installESLint with
             | Some false => obj_delete "eslint" m2
             | _ => obj_set "eslint" "latest" m2
             end).
  assert (L1 : allLatest m1).
  { subst m1. destruct (plugins c); [apply allLatest_plugins|]; constructor. }
  assert (L2 : allLatest m2).
  { subst m2. destruct (extends c); try assumption.
    now apply allLatest_extends. }
  assert (L3 : allLatest m3).
  { subst m3. destruct installESLint as [[|]|];
      auto using allLatest_set, allLatest_delete. }
  assert (K1 : forall e, ~ In ("eslint-config-" ++ e)%string (obj_keys m1)).
  { intros e H. subst m1. destruct (plugins c) as [ps|]; [|destruct H].
    apply plugins_keys in H. destruct H as [[]|H].
    assert (String.prefix "eslint-config-" ("eslint-config-" ++ e) = true)
      by (apply prefix_app_iff; now exists e).
    congruence. }
  assert (K3 : forall e, In ("eslint-config-" ++ e)%string (obj_keys m3)
                         <-> In ("eslint-config-" ++ e)%string (obj_keys m2)).
  { intros e. subst m3. destruct installESLint as [[|]|].
    - rewrite obj_keys_set. split; [intros [H|H]; [discriminate|auto]|auto].
    - rewrite obj_keys_delete. split; [tauto|]. split; [discriminate|auto].
    - rewrite obj_keys_set. split; [intros [H|H]; [discriminate|auto]|auto]. }
  exists m3. split.
  - apply map_ext_in. intros name Hname. unfold moduleSpec.
    now rewrite (allLatest_get name m3 L3 Hname).
  - intros e. rewrite K3. subst m2.
    destruct (extends c) as [| s | es]; try (split; [apply K1 | tauto]).
    rewrite extends_keys. split.
    + intros [H|(e' & H1 & H2 & H3)]; [now apply K1 in H|].
      apply append_inj_l in H3. subst e'. auto.
    + intros [H1 H2]. right. eauto.
Qed.

(** C3, as the specification states it, fails: an entry that holds a
    reserved prefix further inside does not begin with it, yet it
    contributes no config package. *)
Lemma getModulesList_prefix_counterexample :
  String.prefix "eslint:" "my-plugin:rules" = false
  /\ String.prefix "plugin:" "my-plugin:rules" = false
  /\ getModulesList
       (mkConfig None [] [] (Arr ["my-plugin:rules"]) None None) None
     = ["eslint@latest"].
Proof. repeat split. Qed.

(** C3, amended. For every configuration whose [extends] value is a
    sequence, an entry of it contributes the module
    ["eslint-config-" + entry], tagged [latest], if and only if neither
    ["eslint:"] nor ["plugin:"] occurs anywhere in the entry; and a
    configuration with [plugins = ["vue"]] and
    [extends = ["plugin:vue/essential"]] resolves to exactly
    ["eslint-plugin-vue@latest"], plus ["eslint@latest"] when the base
    linter package is requested. *)
Theorem getModulesList_extends (c : config) :
  (forall (es : list string) (e : string) (installESLint : option bool),
      extends c = Arr es -> In e es ->
      In (("eslint-config-" ++ e) ++ "@latest")%string
         (getModulesList c installESLint)
      <-> ~ Spec.occursIn "eslint:" e /\ ~ Spec.occursIn "plugin:" e)
  /\ (plugins c = Some ["vue"] ->
      extends c = Arr ["plugin:vue/essential"] ->
      getModulesList c (Some false) = ["eslint-plugin-vue@latest"]
      /\ getModulesList c (Some true)
         = ["eslint-plugin-vue@latest"; "eslint@latest"]
      /\ getModulesList c None
         = ["eslint-plugin-vue@latest"; "eslint@latest"]).
Proof.
  split.
  - intros es e installESLint Hext Hin.
    destruct (getModulesList_latest c installESLint) as (m & -> & Hm).
    rewrite <- passes_iff. rewrite in_map_iff. split.
    + intros (name & Heq & Hname).
      apply append_inj_r in Heq. subst name.
      apply Hm in Hname. rewrite Hext in Hname. tauto.
    + intros Hp. exists ("eslint-config-" ++ e)%string.
      split; [reflexivity|]. apply Hm. rewrite Hext. auto.
  - intros Hp He. unfold getModulesList. rewrite Hp, He.
    repeat split.
Qed.

Lemma getModulesList_extends_witness :
  (In "eslint-config-standard@latest"
      (getModulesList
         (mkConfig None [] [] (Arr ["plugin:vue/essential"; "standard"])
                   (Some ["vue"]) None) None)
   <-> ~ Spec.occursIn "eslint:" "standard"
       /\ ~ Spec.occursIn "plugin:" "standard")
  /\ getModulesList
       (mkConfig None [] [] (Arr ["plugin:vue/essential"]) (Some ["vue"]) None)
       (Some false)
     = ["eslint-plugin-vue@latest"].
Proof.
  split.
  - exact (proj1 (getModulesList_extends
                    (mkConfig None [] []
                              (Arr ["plugin:vue/essential"; "standard"])
                              (Some ["vue"]) None))
                 ["plugin:vue/essential"; "standard"] "standard" None
                 eq_refl (or_intror (or_introl eq_refl))).
  - exact (proj1 (proj2 (getModulesList_extends
                           (mkConfig None [] [] (Arr ["plugin:vue/essential"])
                                     (Some ["vue"]) None))
                        eq_refl eq_refl)).
Defined.

End Resolver.

(* ================================================================== *)
(** * The config serializer *)
(* ================================================================== *)

Section SerializerFacts.

Import ConfigFile.

Context {C : Type}.
Context {fs : FileSystem}.
Variable extname : string -> string.
Variable stringify : C -> stringifyOptions -> exn + string.
Variable safeDump : C -> dumpOptions -> exn + string.

Lemma string_gt_lexGt (a : string) :
  forall b, string_gt a b = Spec.lexGt a b.
Proof.
  unfold string_gt.
  induction a as [|x a IH]; intros [|y b]; simpl; try reflexivity.
  unfold Ascii.compare, nat_of_ascii.
  destruct (N.compare_spec (N_of_ascii x) (N_of_ascii y)) as [E|L|G].
  - rewrite E, Nat.ltb_irrefl. apply IH.
  - destruct (Nat.ltb_spec (N.to_nat (N_of_ascii y)) (N.to_nat (N_of_ascii x)));
      [lia|].
    destruct (Nat.ltb_spec (N.to_nat (N_of_ascii x)) (N.to_nat (N_of_ascii y)));
      [reflexivity | lia].
  - destruct (Nat.ltb_spec (N.to_nat (N_of_ascii y)) (N.to_nat (N_of_ascii x)));
      [reflexivity | lia].
Qed.

Lemma write_eq (config : C) (filePath : string) (w : world) :
  write extname stringify safeDump config filePath w
  = if (extname filePath =? ".json")%string
    then bind (call (stringify config (mkStringifyOptions sortByKey 4)))
              (writeFileSync filePath) w
    else if ((extname filePath =? ".yaml") || (extname filePath =? ".yml"))%string
         then bind (call (safeDump config (mkDumpOptions true)))
                   (writeFileSync filePath) w
         else (inl (Error "Can't write to unknown file type."), w).
Proof.
  unfold write, writeJSONConfigFile, writeYAMLConfigFile, throw.
  destruct (extname filePath =? ".json")%string; [reflexivity|].
  destruct ((extname filePath =? ".yaml") || (extname filePath =? ".yml"))%string;
    reflexivity.
Qed.

(** What becomes of a serialized text on its way to the file. *)
Lemma serialized_written (content : exn + string) (filePath : string)
      (w : world) :
  let r := bind (call content) (writeFileSync filePath) w in
  (forall text, content = inr text ->
                writeRefused (files w) filePath = None ->
                r = (inr tt,
                     mkWorld (obj_set (realpath filePath) text (files w))
                             (console w)))
  /\ (Spec.raises r
      <-> (exists e, content = inl e)
          \/ (exists e, writeRefused (files w) filePath = Some e))
  /\ (Spec.raises r -> snd r = w).
Proof.
  unfold bind, call, writeFileSync, Spec.raises.
  destruct content as [e|text]; cbn [fst snd].
  - split; [discriminate|]. split; [|reflexivity].
    split; [intros _; left; now exists e | intros _; now exists e].
  - destruct (writeRefused (files w) filePath) as [e|]; cbn [fst snd].
    + split; [discriminate|]. split; [|reflexivity].
      split; [intros _; right; now exists e | intros _; now exists e].
    + split; [now intros ? [= ->] _|]. split.
      * split; [intros [e He]; discriminate|].
        intros [[e He]|[e He]]; discriminate.
      * intros [e He]. discriminate.
Qed.


End SerializerFacts.



(* ================================================================== *)
(** * Named scopes *)
(* ================================================================== *)

Section Scopes.

Import Watcher.

(** C8. For every file-type descriptor whose rule list is empty, the
    pattern of the generated scope is the conjunction, joined with [&&],
    of exactly three negated default exclusions: the [node_modules],
    [.git] and [.svn] directories of the project; the join tag is never
    [||]. *)
Theorem genScopes_empty_rule (config : typeConfig) (projectName : string) :
  rule config = [] ->
  joinTagOf config = "&&"
  /\ joinTagOf config <> "||"
  /\ formatRuleArr config projectName
     = [ "!file[" ++ projectName ++ "]:node_modules//*";
         "!file[" ++ projectName ++ "]:.git//*";
         "!file[" ++ projectName ++ "]:.svn//*" ]%string
  /\ scopePattern config projectName
     = (("!file[" ++ projectName ++ "]:node_modules//*") ++ "&&"
          ++ ("!file[" ++ projectName ++ "]:.git//*") ++ "&&"
          ++ ("!file[" ++ projectName ++ "]:.svn//*"))%string
  /\ genScopes config projectName
     = (nl ++ tab ++ "<scope name=" ++ q (show (scopeName config))
           ++ " pattern="
           ++ q (("!file[" ++ projectName ++ "]:node_modules//*") ++ "&&"
                   ++ ("!file[" ++ projectName ++ "]:.git//*") ++ "&&"
                   ++ ("!file[" ++ projectName ++ "]:.svn//*"))
           ++ " />" ++ nl)%string.
Proof.
  intros Hrule.
  unfold genScopes, scopePattern, joinTagOf, formatRuleArr.
  rewrite Hrule. simpl. repeat split; try reflexivity. discriminate.
Qed.

Lemma genScopes_empty_rule_witness :
  scopePattern (mkTypeConfig (Some "prettier-js") [] true) "demo"
  = "!file[demo]:node_modules//*&&!file[demo]:.git//*&&!file[demo]:.svn//*"
  /\ scopePattern (mkTypeConfig (Some "prettier-md") [] false) "demo"
     = "!file[demo]:node_modules//*&&!file[demo]:.git//*&&!file[demo]:.svn//*".
Proof.
  split.
  - exact (proj1 (proj2 (proj2 (proj2
             (genScopes_empty_rule (mkTypeConfig (Some "prettier-js") [] true)
                                   "demo" eq_refl))))).
  - exact (proj1 (proj2 (proj2 (proj2
             (genScopes_empty_rule (mkTypeConfig (Some "prettier-md") [] false)
                                   "demo" eq_refl))))).
Defined.

End Scopes.

(* ================================================================== *)
(** * Project discovery *)
(* ================================================================== *)

Section Discovery.

Import Watcher.

Context {fs : FileSystem}.
Variable resolve : string -> string -> string.
Variable basename : string -> string.
Variable glob_sync : obj string -> string -> list string.
Variable load : string -> document.
Variable xml : document -> string.

(** Normalizing the watch configuration always returns, and only logs. *)
Lemma normalize_loop_returns (ks : list string) :
  forall (t : obj typeConfig) (w : world),
  exists t' w',
    foldM normalizeKey ks t w = (inr t', w') /\ files w' = files w.
Proof.
  induction ks as [|k ks IH]; intros t w; simpl.
  - now exists t, w.
  - unfold bind, normalizeKey.
    destruct (obj_get k t) as [tc|]; [destruct (scopeNameOf k)|];
      simpl;
      match goal with
      | |- exists t' w', foldM _ _ ?t0 ?w0 = _ /\ _ =>
          destruct (IH t0 w0) as (t' & w' & H1 & H2);
          exists t', w'; split; [exact H1 | exact H2]
      end.
Qed.

Lemma getWSConfig_eq (root : string) (w : world) :
  getWSConfig resolve glob_sync root w
  = (inr (if ((length (glob_sync (files w) (resolve root ".idea/*.iml")) =? 1)%nat
              && (length (glob_sync (files w)
                                    (resolve root ".idea/workspace.xml")) =? 1)%nat)%bool
          then Some (mkWsConfig
                       (nth 0 (glob_sync (files w) (resolve root ".idea/*.iml")) "")
                       (nth 0 (glob_sync (files w)
                                         (resolve root ".idea/workspace.xml")) ""))
          else None), w).
Proof.
  unfold getWSConfig, bind, get_files. simpl.
  destruct (_ && _)%bool; reflexivity.
Qed.

(** C9. Project discovery looks under [.idea] of the root for the
    workspace file and for the [.iml] project files, and succeeds when
    it finds exactly one of each; when it finds none or more than one of
    either (two [.iml] files, say), the write operation returns a falsy
    value, raises nothing and leaves every file as it was. *)
Theorem writeFile_refuses (rootDir : string) (config : obj typeConfig)
        (w : world) :
  let projectFound := glob_sync (files w) (resolve rootDir ".idea/*.iml") in
  let workspaceFound :=
    glob_sync (files w) (resolve rootDir ".idea/workspace.xml") in
  exists (this : Watch) (w1 : world),
    new resolve glob_sync rootDir config w = (inr this, w1)
    /\ files w1 = files w
    /\ (length projectFound = 1 -> length workspaceFound = 1 ->
        wsConfig this = Some (mkWsConfig (nth 0 projectFound "")
                                         (nth 0 workspaceFound "")))
    /\ (length projectFound <> 1 \/ length workspaceFound <> 1 ->
        wsConfig this = None
        /\ exists (result : value) (w2 : world),
            writeFile resolve basename load xml this w1 = (inr result, w2)
            /\ truthy result = false
            /\ files w2 = files w).
Proof.
  intros projectFound workspaceFound.
  unfold new, normalizedConfig.
  destruct (normalize_loop_returns (obj_keys config) config w)
    as (t' & w1 & Hnorm & Hfiles).
  unfold bind at 1. rewrite Hnorm.
  unfold bind at 1. rewrite getWSConfig_eq. rewrite Hfiles.
  fold projectFound workspaceFound.
  eexists; exists w1. split; [reflexivity|]. split; [assumption|].
  simpl wsConfig. split.
  - intros -> ->. reflexivity.
  - intros Hnot.
    assert (E : ((length projectFound =? 1)%nat
                 && (length workspaceFound =? 1)%nat)%bool = false).
    { apply andb_false_iff.
      destruct Hnot as [H|H]; [left|right]; now apply Nat.eqb_neq. }
    rewrite E. split; [reflexivity|].
    unfold writeFile, log. simpl.
    eexists; eexists. split; [reflexivity|]. split; [reflexivity|].
    simpl. assumption.
Qed.

End Discovery.

Section DiscoveryRun.

#[local] Existing Instance Sample.plain.

(** A root with two [.iml] files: the operation is refused. *)
Lemma writeFile_refuses_witness :
  exists (this : Watcher.Watch) (w1 : world),
    Watcher.new Sample.resolve Sample.glob_sync "/proj"
      [("js", Watcher.mkTypeConfig None [] true)]
      (mkWorld [("/proj/.idea/workspace.xml", "<project />");
                ("/proj/.idea/a.iml", ""); ("/proj/.idea/b.iml", "")] [])
    = (inr this, w1)
    /\ Watcher.wsConfig this = None
    /\ exists (result : value) (w2 : world),
        Watcher.writeFile Sample.resolve Sample.basename (fun _ => [])
                          (fun _ => ""%string) this w1
        = (inr result, w2)
        /\ truthy result = false
        /\ files w2 = [("/proj/.idea/workspace.xml", "<project />");
                       ("/proj/.idea/a.iml", ""); ("/proj/.idea/b.iml", "")].
Proof.
  destruct (writeFile_refuses
              Sample.resolve Sample.basename Sample.glob_sync
              (fun _ => []) (fun _ => ""%string) "/proj"
              [("js", Watcher.mkTypeConfig None [] true)]
              (mkWorld [("/proj/.idea/workspace.xml", "<project />");
                        ("/proj/.idea/a.iml", ""); ("/proj/.idea/b.iml", "")] []))
    as (this & w1 & Hnew & _ & _ & Hrefuse).
  exists this, w1. split; [exact Hnew|].
  apply Hrefuse. left. vm_compute. discriminate.
Defined.

End DiscoveryRun.

(* ================================================================== *)
(** * Properties of the document tree *)
(* ================================================================== *)

Section DomFacts.

(** Induction on a node with the property known of all its children. *)
Lemma node_forall_ind (P : node -> Prop) :
  (forall data, P (Text data)) ->
  (forall kind data, P (Other kind data)) ->
  (forall tag attribs children,
      Forall P children -> P (Element tag attribs children)) ->
  forall x, P x.
Proof.
  intros HT HO HE.
  fix F 1. intros [data|kind data|tag attribs children].
  - apply HT.
  - apply HO.
  - apply HE. induction children as [|c cs IH]; constructor; [apply F | apply IH].
Qed.

Lemma matches_removeIn (sel sel' : selector) (x : node) :
  matches sel (removeIn sel' x) = matches sel x.
Proof. destruct x; reflexivity. Qed.

Lemma filter_nil_app {A} (f : A -> bool) (l1 l2 : list A) :
  filter f (l1 ++ l2) = [] <-> filter f l1 = [] /\ filter f l2 = [].
Proof.
  rewrite filter_app. split.
  - intros H. now apply app_eq_nil in H.
  - intros [-> ->]. reflexivity.
Qed.

Lemma outline_app (l1 l2 : list node) :
  outline (l1 ++ l2) = outline l1 ++ outline l2.
Proof. apply flat_map_app. Qed.

Lemma outlineOutside_none (d : list node) :
  outlineOutside (fun _ => false) d = outline d.
Proof.
  unfold outlineOutside, outline.
  induction d as [|x d IHd]; simpl; [reflexivity|]. rewrite IHd. f_equal.
  clear. induction x as [| |t a cs IH] using node_forall_ind; try reflexivity.
  simpl. f_equal.
  induction IH as [|c cs Hc _ IHcs]; simpl; congruence.
Qed.

Lemma outlineOutside_ext (p p' : entry -> bool) :
  (forall e, p e = p' e) ->
  forall d, outlineOutside p d = outlineOutside p' d.
Proof.
  intros Hext. unfold outlineOutside.
  assert (Hnode : forall x, outsideIn p x = outsideIn p' x).
  { induction x as [| |t a cs IH] using node_forall_ind; try reflexivity.
    simpl. rewrite <- Hext. destruct (p (t, a)); [reflexivity|]. f_equal.
    induction IH as [|c cs Hc _ IHcs]; simpl; congruence. }
  induction d as [|x d IHd]; simpl; [reflexivity|].
  now rewrite Hnode, IHd.
Qed.

(** Nothing that satisfies [p] is left outside [p]. *)
Lemma outlineOutside_free (p : entry -> bool) (d : list node) :
  Forall (fun e => p e = false) (outlineOutside p d).
Proof.
  unfold outlineOutside.
  assert (Hnode : forall x, Forall (fun e => p e = false) (outsideIn p x)).
  { induction x as [| |t a cs IH] using node_forall_ind; try constructor.
    simpl. destruct (p (t, a)) eqn:E; constructor; [assumption|].
    induction IH as [|c cs Hc _ IHcs]; simpl; [constructor|].
    apply Forall_app. now split. }
  induction d as [|x d IHd]; simpl; [constructor|].
  apply Forall_app. now split.
Qed.

(** Removing the elements that match [sel] removes them from the
    outline, with what they contain. *)
Lemma remove_outside_forest (p : entry -> bool) (sel : selector) (d : list node) :
  Forall (fun x => matches sel x = false ->
                   outsideIn p (removeIn sel x)
                   = outsideIn (fun e => p e || matchesE sel e) x) d ->
  outlineOutside p (remove sel d)
  = outlineOutside (fun e => p e || matchesE sel e) d.
Proof.
  unfold outlineOutside, remove.
  induction 1 as [|x d Hx _ IH]; simpl; [reflexivity|].
  rewrite matches_removeIn.
  destruct (matches sel x) eqn:E; simpl.
  - rewrite IH. destruct x as [| |t a cs]; try discriminate.
    simpl in E |- *. rewrite E, orb_true_r. reflexivity.
  - now rewrite IH, Hx.
Qed.

Lemma removeIn_outside (p : entry -> bool) (sel : selector) (x : node) :
  matches sel x = false ->
  outsideIn p (removeIn sel x) = outsideIn (fun e => p e || matchesE sel e) x.
Proof.
  induction x as [| |t a cs IH] using node_forall_ind; try reflexivity.
  intros E. simpl in E |- *. rewrite E, orb_false_r.
  destruct (p (t, a)); [reflexivity|]. f_equal.
  now apply remove_outside_forest.
Qed.

Lemma remove_outside (p : entry -> bool) (sel : selector) (d : list node) :
  outlineOutside p (remove sel d)
  = outlineOutside (fun e => p e || matchesE sel e) d.
Proof.
  apply remove_outside_forest, Forall_forall.
  intros x _. apply removeIn_outside.
Qed.

(** A selector that matches nothing can be left out. *)
Lemma outside_unmatched (p : entry -> bool) (sel : selector) (d : list node) :
  filter (matchesE sel) (outline d) = [] ->
  outlineOutside (fun e => p e || matchesE sel e) d = outlineOutside p d.
Proof.
  unfold outlineOutside, outline.
  assert (Hnode : forall x,
             filter (matchesE sel) (outlineIn x) = [] ->
             outsideIn (fun e => p e || matchesE sel e) x = outsideIn p x).
  { induction x as [| |t a cs IH] using node_forall_ind; try reflexivity.
    simpl. destruct (matchesE sel (t, a)) eqn:E; [discriminate|].
    rewrite orb_false_r. intros Hcs.
    destruct (p (t, a)); [reflexivity|]. f_equal.
    induction IH as [|c cs Hc _ IHcs]; simpl in *; [reflexivity|].
    apply filter_nil_app in Hcs. destruct Hcs as [H1 H2].
    now rewrite Hc, IHcs. }
  induction d as [|x d IHd]; simpl; [reflexivity|].
  intros H. apply filter_nil_app in H. destruct H as [H1 H2].
  now rewrite Hnode, IHd.
Qed.

(** Appending content that holds no element of interest changes nothing
    of interest. *)
Lemma append_filter_old (q : entry -> bool) (sel : selector)
      (content d : list node) :
  filter q (outline content) = [] ->
  filter q (outline (append sel content d)) = filter q (outline d).
Proof.
  intros Hc. unfold outline, append.
  assert (Hforest : forall l,
             Forall (fun x => filter q (outlineIn (appendIn sel content x))
                              = filter q (outlineIn x)) l ->
             filter q (flat_map outlineIn (map (appendIn sel content) l))
             = filter q (flat_map outlineIn l)).
  { induction 1 as [|x l Hx _ IH]; simpl; [reflexivity|].
    now rewrite !filter_app, Hx, IH. }
  apply Hforest, Forall_forall. intros x _. clear d.
  induction x as [| |t a cs IH] using node_forall_ind; try reflexivity.
  simpl. f_equal.
  apply Hforest in IH.
  destruct (matchesE sel (t, a)); [|destruct (q (t, a)); now rewrite IH].
  rewrite flat_map_app, filter_app. fold (outline content).
  rewrite Hc, app_nil_r. destruct (q (t, a)); now rewrite IH.
Qed.

Lemma concat_repeat_comm {A} (f : list A) (n : nat) :
  concat (repeat f n) ++ f = f ++ concat (repeat f n).
Proof.
  induction n as [|n IH]; simpl.
  - now rewrite app_nil_r.
  - now rewrite <- app_assoc, IH.
Qed.

(** Appending to a forest without elements of interest leaves one copy
    of those of the content for every element appended to. *)
Lemma append_filter_new (q : entry -> bool) (sel : selector)
      (content d : list node) :
  filter q (outline d) = [] ->
  filter q (outline (append sel content d))
  = concat (repeat (filter q (outline content)) (count sel d)).
Proof.
  unfold count, outline, append.
  set (f := filter q (flat_map outlineIn content)).
  assert (Hforest : forall l,
             Forall (fun x => filter q (outlineIn x) = [] ->
                              filter q (outlineIn (appendIn sel content x))
                              = concat (repeat f (length (filter (matchesE sel)
                                                                 (outlineIn x))))) l ->
             filter q (flat_map outlineIn l) = [] ->
             filter q (flat_map outlineIn (map (appendIn sel content) l))
             = concat (repeat f (length (filter (matchesE sel)
                                                (flat_map outlineIn l))))).
  { induction 1 as [|x l Hx _ IH]; simpl; intros Hq; [reflexivity|].
    apply filter_nil_app in Hq. destruct Hq as [Hq1 Hq2].
    rewrite !filter_app, length_app, repeat_app, concat_app.
    now rewrite Hx, IH. }
  intros Hq. apply Hforest; [|assumption].
  apply Forall_forall. intros x _. clear d Hq.
  induction x as [| |t a cs IH] using node_forall_ind; try reflexivity.
  simpl. destruct (q (t, a)) eqn:Eq; [discriminate|]. intros Hq.
  specialize (Hforest cs IH Hq).
  destruct (matchesE sel (t, a)); simpl.
  - rewrite flat_map_app, filter_app, Hforest. fold f.
    apply concat_repeat_comm.
  - exact Hforest.
Qed.

Lemma joinText_outline (l : list node) :
  outline (joinText l) = outline l.
Proof.
  unfold outline.
  induction l as [|x l IH]; [reflexivity|].
  destruct x as [a|k a|t a cs]; simpl.
  - destruct (joinText l) as [|[b|k b|t b cs] r]; simpl in *; exact IH.
  - exact IH.
  - now rewrite IH.
Qed.

(** ** Scope entries *)

Lemma no_element_no_outline (cs : list node) :
  existsb isElement cs = false -> outline cs = [].
Proof.
  unfold outline.
  induction cs as [|[d|k d|t a cs'] cs IH]; simpl; auto; discriminate.
Qed.

Lemma entries_of_outline (d : list node) :
  Forall (fun e => tableNamed e = false) (outline d) ->
  forallb scopesAreEntriesIn d = true.
Proof.
  unfold outline.
  assert (Hnode : forall x,
             Forall (fun e => tableNamed e = false) (outlineIn x) ->
             scopesAreEntriesIn x = true).
  { induction x as [| |t a cs IH] using node_forall_ind; try reflexivity.
    simpl. intros H. inversion H as [|? ? Hhead Htail]; subst.
    rewrite Hhead. simpl.
    induction IH as [|c cs Hc _ IHcs]; simpl in *; [reflexivity|].
    apply Forall_app in Htail. destruct Htail as [H1 H2].
    rewrite Hc by assumption. apply IHcs; [|assumption].
    constructor; assumption. }
  induction d as [|x d IHd]; simpl; [reflexivity|].
  intros H. apply Forall_app in H. destruct H as [H1 H2].
  now rewrite Hnode, IHd.
Qed.

(** With scope entries as they should be, removing them is filtering
    them out of the outline. *)
Lemma entries_outside (d : list node) :
  forallb scopesAreEntriesIn d = true ->
  outlineOutside tableNamed d
  = filter (fun e => negb (tableNamed e)) (outline d).
Proof.
  unfold outlineOutside, outline.
  assert (Hforest : forall l,
             Forall (fun x => scopesAreEntriesIn x = true ->
                              outsideIn tableNamed x
                              = filter (fun e => negb (tableNamed e))
                                       (outlineIn x)) l ->
             forallb scopesAreEntriesIn l = true ->
             flat_map (outsideIn tableNamed) l
             = filter (fun e => negb (tableNamed e)) (flat_map outlineIn l)).
  { induction 1 as [|x l Hx _ IH]; simpl; intros H; [reflexivity|].
    apply andb_true_iff in H. destruct H as [H1 H2].
    now rewrite filter_app, Hx, IH. }
  intros H. apply Hforest; [|assumption].
  apply Forall_forall. intros x _. clear d H.
  induction x as [| |t a cs IH] using node_forall_ind; try reflexivity.
  simpl. intros H. apply andb_true_iff in H. destruct H as [H1 H2].
  destruct (tableNamed (t, a)); simpl.
  - apply andb_true_iff in H1. destruct H1 as [_ H1].
    apply negb_true_iff, no_element_no_outline in H1.
    unfold outline in H1. now rewrite H1.
  - f_equal. now apply Hforest.
Qed.

(** A scope entry is not the [project] element. *)
Lemma entries_not_project (d : list node) :
  forallb scopesAreEntriesIn d = true ->
  Forall (fun e => tableNamed e = true -> matchesE (ByTag "project") e = false)
         (outline d).
Proof.
  unfold outline.
  set (Q := fun e => tableNamed e = true -> matchesE (ByTag "project") e = false).
  assert (Hforest : forall l,
             Forall (fun x => scopesAreEntriesIn x = true ->
                              Forall Q (outlineIn x)) l ->
             forallb scopesAreEntriesIn l = true ->
             Forall Q (flat_map outlineIn l)).
  { induction 1 as [|x l Hx _ IH]; simpl; intros H; [constructor|].
    apply andb_true_iff in H. destruct H as [H1 H2].
    apply Forall_app. split; auto. }
  intros H. apply Hforest; [|assumption].
  apply Forall_forall. intros x _. clear d H.
  induction x as [| |t a cs IH] using node_forall_ind;
    try solve [intros _; constructor].
  intros H. constructor.
  - unfold Q. simpl. intros HT.
    simpl in H. rewrite HT in H.
    apply andb_true_iff in H. destruct H as [H _].
    apply andb_true_iff in H. destruct H as [H _].
    now apply negb_true_iff in H.
  - simpl in H. apply andb_true_iff in H. destruct H as [_ H].
    now apply Hforest.
Qed.

Lemma isElement_appendIn (sel : selector) (content : list node) (x : node) :
  isElement (appendIn sel content x) = isElement x.
Proof. destruct x; reflexivity. Qed.

(** Appending entries next to entries, never into one, keeps the scope
    entries as they should be. *)
Lemma entries_append (sel : selector) (content d : list node) :
  forallb scopesAreEntriesIn content = true ->
  Forall (fun e => tableNamed e = true -> matchesE sel e = false) (outline d) ->
  forallb scopesAreEntriesIn d = true ->
  forallb scopesAreEntriesIn (append sel content d) = true.
Proof.
  intros Hc. unfold outline, append.
  set (Q := fun e => tableNamed e = true -> matchesE sel e = false).
  assert (Hforest : forall l,
             Forall (fun x => Forall Q (outlineIn x) ->
                              scopesAreEntriesIn x = true ->
                              scopesAreEntriesIn (appendIn sel content x) = true) l ->
             Forall Q (flat_map outlineIn l) ->
             forallb scopesAreEntriesIn l = true ->
             forallb scopesAreEntriesIn (map (appendIn sel content) l) = true).
  { induction 1 as [|x l Hx _ IH]; simpl; intros HQ H; [reflexivity|].
    apply Forall_app in HQ. destruct HQ as [HQ1 HQ2].
    apply andb_true_iff in H. destruct H as [H1 H2].
    now rewrite Hx, IH. }
  intros HQ H. apply Hforest; [|assumption|assumption].
  apply Forall_forall. intros x _. clear d HQ H.
  induction x as [| |t a cs IH] using node_forall_ind; try reflexivity.
  simpl. intros HQ H.
  inversion HQ as [|? ? Hhead Htail]; subst.
  apply andb_true_iff in H. destruct H as [H1 H2].
  specialize (Hforest cs IH Htail H2).
  destruct (tableNamed (t, a)) eqn:ET.
  - rewrite (Hhead ET). rewrite Hforest, andb_true_r.
    apply andb_true_iff in H1. destruct H1 as [Hp He].
    rewrite Hp. simpl. rewrite <- He. f_equal.
    clear. induction cs as [|c cs IHcs]; simpl; [reflexivity|].
    now rewrite isElement_appendIn, IHcs.
  - simpl. destruct (matchesE sel (t, a)); [|assumption].
    rewrite forallb_app. now rewrite Hforest, Hc.
Qed.

End DomFacts.

(* ================================================================== *)
(** * The elements of a document *)
(* ================================================================== *)

Section Elements.

Lemma flat_map_flat_map {A B C} (f : A -> list B) (g : B -> list C) (l : list A) :
  flat_map g (flat_map f l) = flat_map (fun x => flat_map g (f x)) l.
Proof.
  induction l as [|x l IH]; simpl; [reflexivity|].
  now rewrite flat_map_app, IH.
Qed.

Lemma flat_map_ext_Forall {A B} (f g : A -> list B) (l : list A) :
  Forall (fun x => f x = g x) l -> flat_map f l = flat_map g l.
Proof. induction 1 as [|x l Hx _ IH]; simpl; congruence. Qed.

(** The outline does not see character data. *)
Lemma elements_outline (d : list node) :
  outline (elements d) = outline d.
Proof.
  unfold outline, elements. rewrite flat_map_flat_map.
  apply flat_map_ext_Forall, Forall_forall. intros x _. clear d.
  induction x as [| |t a cs IH] using node_forall_ind; try reflexivity.
  simpl. rewrite app_nil_r. f_equal.
  rewrite flat_map_flat_map. now apply flat_map_ext_Forall.
Qed.

Lemma elements_outline_nil (d : list node) :
  outline d = [] -> elements d = [].
Proof.
  unfold outline, elements.
  induction d as [|x d IH]; simpl; [reflexivity|].
  intros H. apply app_eq_nil in H. destruct H as [H1 H2].
  destruct x; try discriminate; simpl; auto.
Qed.

Lemma elements_append (sel : selector) (content d : list node) :
  elements (append sel content d)
  = append sel (elements content) (elements d).
Proof.
  unfold elements at 1 3, append.
  assert (Hforest : forall l,
             Forall (fun x => elementsIn (appendIn sel content x)
                              = map (appendIn sel (elements content))
                                    (elementsIn x)) l ->
             flat_map elementsIn (map (appendIn sel content) l)
             = map (appendIn sel (elements content)) (flat_map elementsIn l)).
  { induction 1 as [|x l Hx _ IH]; simpl; [reflexivity|].
    now rewrite map_app, Hx, IH. }
  apply Hforest, Forall_forall. intros x _. clear d.
  induction x as [| |t a cs IH] using node_forall_ind; try reflexivity.
  simpl. f_equal. f_equal. apply Hforest in IH.
  destruct (matchesE sel (t, a)); [|exact IH].
  rewrite flat_map_app, IH. reflexivity.
Qed.

Lemma matches_appendIn (sel sel' : selector) (content : list node) (x : node) :
  matches sel (appendIn sel' content x) = matches sel x.
Proof. destruct x; reflexivity. Qed.

(** Removing goes through appending. *)
Lemma remove_append (sel sel' : selector) (content d : list node) :
  remove sel (append sel' content d)
  = append sel' (remove sel content) (remove sel d).
Proof.
  unfold remove at 1 3, append.
  assert (Hforest : forall l,
             Forall (fun x => removeIn sel (appendIn sel' content x)
                              = appendIn sel' (remove sel content)
                                         (removeIn sel x)) l ->
             filter (fun c => negb (matches sel c))
                    (map (removeIn sel) (map (appendIn sel' content) l))
             = map (appendIn sel' (remove sel content))
                   (filter (fun c => negb (matches sel c))
                           (map (removeIn sel) l))).
  { induction 1 as [|x l Hx _ IH]; simpl; [reflexivity|].
    rewrite !matches_removeIn, matches_appendIn.
    destruct (matches sel x); simpl; [exact IH|].
    now rewrite Hx, IH. }
  apply Hforest, Forall_forall. intros x _. clear d.
  induction x as [| |t a cs IH] using node_forall_ind; try reflexivity.
  simpl. f_equal. apply Hforest in IH.
  destruct (matchesE sel' (t, a)); [|exact IH].
  rewrite map_app, filter_app, IH. reflexivity.
Qed.

(** Nothing to remove, nothing removed. *)
Lemma remove_unmatched (sel : selector) (d : list node) :
  filter (matchesE sel) (outline d) = [] -> remove sel d = d.
Proof.
  unfold remove, outline.
  assert (Hforest : forall l,
             Forall (fun x => filter (matchesE sel) (outlineIn x) = [] ->
                              removeIn sel x = x /\ matches sel x = false) l ->
             filter (matchesE sel) (flat_map outlineIn l) = [] ->
             filter (fun c => negb (matches sel c)) (map (removeIn sel) l) = l).
  { induction 1 as [|x l Hx _ IH]; simpl; intros H; [reflexivity|].
    apply filter_nil_app in H. destruct H as [H1 H2].
    destruct (Hx H1) as [E1 E2].
    now rewrite matches_removeIn, E2, E1, IH. }
  intros H. apply Hforest; [|assumption].
  apply Forall_forall. intros x _. clear d H.
  induction x as [| |t a cs IH] using node_forall_ind; try (split; reflexivity).
  simpl. destruct (matchesE sel (t, a)) eqn:E; [discriminate|].
  intros H. split; [|reflexivity]. f_equal. now apply Hforest.
Qed.

Lemma append_nothing (sel : selector) (d : list node) :
  append sel [] d = d.
Proof.
  unfold append.
  assert (Hforest : forall l,
             Forall (fun x => appendIn sel [] x = x) l ->
             map (appendIn sel []) l = l).
  { induction 1 as [|x l Hx _ IH]; simpl; congruence. }
  apply Hforest, Forall_forall. intros x _. clear d.
  induction x as [| |t a cs IH] using node_forall_ind; try reflexivity.
  simpl. apply Hforest in IH. rewrite IH.
  destruct (matchesE sel (t, a)); [now rewrite app_nil_r | reflexivity].
Qed.

End Elements.

Section Unmatched.

Lemma append_unmatched (sel : selector) (content d : list node) :
  filter (matchesE sel) (outline d) = [] -> append sel content d = d.
Proof.
  unfold append, outline.
  assert (Hforest : forall l,
             Forall (fun x => filter (matchesE sel) (outlineIn x) = [] ->
                              appendIn sel content x = x) l ->
             filter (matchesE sel) (flat_map outlineIn l) = [] ->
             map (appendIn sel content) l = l).
  { induction 1 as [|x l Hx _ IH]; simpl; intros H; [reflexivity|].
    apply filter_nil_app in H. destruct H as [H1 H2].
    now rewrite Hx, IH. }
  intros H. apply Hforest; [|assumption].
  apply Forall_forall. intros x _. clear d H.
  induction x as [| |t a cs IH] using node_forall_ind; try reflexivity.
  simpl. destruct (matchesE sel (t, a)) eqn:E; [discriminate|].
  intros H. f_equal. now apply Hforest.
Qed.

Lemma outlineOutside_unmatched (p q : entry -> bool) (d : list node) :
  filter q (outline d) = [] -> filter q (outlineOutside p d) = [].
Proof.
  unfold outlineOutside, outline.
  assert (Hnode : forall x,
             filter q (outlineIn x) = [] -> filter q (outsideIn p x) = []).
  { induction x as [| |t a cs IH] using node_forall_ind; try reflexivity.
    simpl. destruct (q (t, a)) eqn:E; [discriminate|]. intros Hcs.
    destruct (p (t, a)); [reflexivity|]. simpl. rewrite E.
    induction IH as [|c cs Hc _ IHcs]; simpl in *; [reflexivity|].
    apply filter_nil_app in Hcs. destruct Hcs as [H1 H2].
    rewrite filter_app. now rewrite Hc, IHcs. }
  induction d as [|x d IHd]; simpl; [reflexivity|].
  intros H. apply filter_nil_app in H. destruct H as [H1 H2].
  rewrite filter_app. now rewrite Hnode, IHd.
Qed.

End Unmatched.

(* ================================================================== *)
(** * Forests without some elements, forests with tails *)
(* ================================================================== *)

Section Shapes.

Lemma rootIs_withoutIn (p q : entry -> bool) (x : node) :
  rootIs q (withoutIn p x) = rootIs q x.
Proof. destruct x; reflexivity. Qed.

Lemma rootIs_or (p q : entry -> bool) (x : node) :
  rootIs (fun e => p e || q e) x = rootIs p x || rootIs q x.
Proof. destruct x; reflexivity. Qed.

(** [$(sel).remove()] leaves the forest without the elements that match. *)
Lemma remove_without (sel : selector) (d : list node) :
  remove sel d = without (matchesE sel) d.
Proof.
  unfold remove, without.
  change (fun c => negb (matches sel c))
    with (fun c => negb (rootIs (matchesE sel) c)).
  f_equal. apply map_ext_Forall, Forall_forall. intros x _. clear d.
  induction x as [| |t a cs IH] using node_forall_ind; try reflexivity.
  cbn [removeIn withoutIn].
  change (fun c => negb (matches sel c))
    with (fun c => negb (rootIs (matchesE sel) c)).
  f_equal. f_equal. now apply map_ext_Forall.
Qed.

Lemma without_without_forest (p q : entry -> bool) (l : list node) :
  Forall (fun x => withoutIn q (withoutIn p x)
                   = withoutIn (fun e => p e || q e) x) l ->
  without q (without p l) = without (fun e => p e || q e) l.
Proof.
  unfold without.
  induction 1 as [|x l Hx _ IH]; [reflexivity|].
  cbn [map filter]. rewrite rootIs_withoutIn, rootIs_withoutIn, rootIs_or.
  destruct (rootIs p x) eqn:Ep; cbn [negb orb].
  - exact IH.
  - cbn [map filter]. rewrite rootIs_withoutIn, Hx, rootIs_withoutIn.
    destruct (rootIs q x); cbn [negb]; [exact IH | now rewrite IH].
Qed.

Lemma without_without (p q : entry -> bool) (d : list node) :
  without q (without p d) = without (fun e => p e || q e) d.
Proof.
  apply without_without_forest, Forall_forall. intros x _. clear d.
  induction x as [| |t a cs IH] using node_forall_ind; try reflexivity.
  cbn [withoutIn]. f_equal.
  now apply (without_without_forest p q cs).
Qed.

Lemma without_ext (p p' : entry -> bool) :
  (forall e, p e = p' e) -> forall d, without p d = without p' d.
Proof.
  intros Hext.
  assert (Hroot : forall x, rootIs p x = rootIs p' x)
    by (intros [| |t a cs]; try reflexivity; apply Hext).
  assert (Hforest : forall l,
             Forall (fun x => withoutIn p x = withoutIn p' x) l ->
             without p l = without p' l).
  { unfold without. induction 1 as [|x l Hx _ IH]; [reflexivity|].
    cbn [map filter]. now rewrite !rootIs_withoutIn, Hroot, Hx, IH. }
  intros d. apply Hforest, Forall_forall. intros x _. clear d.
  induction x as [| |t a cs IH] using node_forall_ind; try reflexivity.
  cbn [withoutIn]. f_equal. now apply Hforest.
Qed.

(** The elements of the forest without [p] are the elements outside [p]. *)
Lemma outline_without (p : entry -> bool) (d : list node) :
  outline (without p d) = outlineOutside p d.
Proof.
  unfold outline, outlineOutside.
  assert (Hforest : forall l,
             Forall (fun x => outlineIn (withoutIn p x)
                              = if rootIs p x then outlineIn (withoutIn p x)
                                else outsideIn p x) l ->
             flat_map outlineIn (without p l) = flat_map (outsideIn p) l).
  { unfold without. induction 1 as [|x l Hx _ IH]; [reflexivity|].
    cbn [map filter flat_map]. rewrite rootIs_withoutIn.
    destruct (rootIs p x) eqn:Ep; cbn [negb].
    - rewrite IH. destruct x as [| |t a cs]; try discriminate.
      cbn [rootIs] in Ep. cbn [outsideIn]. now rewrite Ep.
    - cbn [flat_map]. now rewrite IH, Hx. }
  apply Hforest, Forall_forall. intros x _. clear d.
  induction x as [| |t a cs IH] using node_forall_ind; try reflexivity.
  cbn [rootIs withoutIn outlineIn outsideIn].
  destruct (p (t, a)); [reflexivity|]. f_equal.
  now apply (Hforest cs).
Qed.

(** [$(sel).append(content)] gives the elements that match a tail. *)
Lemma append_withTails (sel : selector) (content d : list node) :
  append sel content d
  = withTails (fun e => if matchesE sel e then content else []) d.
Proof.
  unfold append, withTails.
  apply map_ext_Forall, Forall_forall. intros x _. clear d.
  induction x as [| |t a cs IH] using node_forall_ind; try reflexivity.
  cbn [appendIn withTailsIn]. apply map_ext_Forall in IH. rewrite IH.
  destruct (matchesE sel (t, a)); [reflexivity | now rewrite app_nil_r].
Qed.

Lemma withTails_withTails (f g : entry -> list node) (d : list node) :
  withTails g (withTails f d)
  = withTails (fun e => map (withTailsIn g) (f e) ++ g e) d.
Proof.
  unfold withTails. rewrite map_map.
  apply map_ext_Forall, Forall_forall. intros x _. clear d.
  induction x as [| |t a cs IH] using node_forall_ind; try reflexivity.
  cbn [withTailsIn]. apply map_ext_Forall in IH.
  now rewrite map_app, map_map, IH, app_assoc.
Qed.

Lemma withTails_ext_on (f g : entry -> list node) (d : list node) :
  Forall (fun e => f e = g e) (outline d) ->
  withTails f d = withTails g d.
Proof.
  unfold withTails, outline.
  assert (Hforest : forall l,
             Forall (fun x => Forall (fun e => f e = g e) (outlineIn x) ->
                              withTailsIn f x = withTailsIn g x) l ->
             Forall (fun e => f e = g e) (flat_map outlineIn l) ->
             map (withTailsIn f) l = map (withTailsIn g) l).
  { induction 1 as [|x l Hx _ IH]; [reflexivity|].
    cbn [flat_map map]. intros H. apply Forall_app in H. destruct H as [H1 H2].
    now rewrite Hx, IH. }
  intros H. apply Hforest; [|exact H].
  apply Forall_forall. intros x _. clear d H.
  induction x as [| |t a cs IH] using node_forall_ind; try reflexivity.
  cbn [outlineIn withTailsIn]. intros H. inversion H as [|? ? He Hcs]; subst.
  now rewrite He, (Hforest cs IH Hcs).
Qed.

End Shapes.

(* ================================================================== *)
(** * The merge into the workspace document *)
(* ================================================================== *)

Section Merge.

Import Watcher.

Variable load : string -> document.

Lemma cleanKey_outside (p : entry -> bool) (doc : document) (key : string) :
  outlineOutside p (cleanKey doc key)
  = outlineOutside
      (fun e => p e || matchesE (ByAttr "name" (show (obj_get key SCOPENAME))) e)
      doc.
Proof.
  unfold cleanKey.
  destruct (Nat.ltb_spec 0 (count (ByAttr "name" (show (obj_get key SCOPENAME))) doc))
    as [Hpos|Hzero].
  - apply remove_outside.
  - symmetry. apply outside_unmatched.
    apply length_zero_iff_nil. unfold count in Hzero. lia.
Qed.

(** The loop of [cleanNamedScope] removes, for all four file types of
    the table, every element that carries the scope name, with what it
    contains. *)
Lemma clean_loop_outline (d : list node) :
  outline (fold_left cleanKey (obj_keys SCOPENAME) d)
  = outlineOutside tableNamed d.
Proof.
  rewrite <- outlineOutside_none.
  change (obj_keys SCOPENAME) with ["js"; "scss"; "md"; "vue"].
  cbn [fold_left].
  rewrite !cleanKey_outside.
  apply outlineOutside_ext. intros e.
  unfold tableNamed, matchesE. cbn [existsb SCOPENAME snd show].
  change (obj_get "js" SCOPENAME) with (Some "prettier-js").
  change (obj_get "scss" SCOPENAME) with (Some "prettier-scss").
  change (obj_get "md" SCOPENAME) with (Some "prettier-md").
  change (obj_get "vue" SCOPENAME) with (Some "prettier-vue").
  cbn [show].
  destruct (obj_get "name" (snd e)) as [v|]; [|reflexivity].
  destruct (v =? "prettier-js")%string, (v =? "prettier-scss")%string,
    (v =? "prettier-md")%string, (v =? "prettier-vue")%string; reflexivity.
Qed.

Lemma cleanNamedScope_outline (doc : document) :
  outline (cleanNamedScope doc)
  = outlineOutside tableNamed (ensureContainer doc).
Proof. apply clean_loop_outline. Qed.

Lemma container_not_tableNamed (e : entry) :
  tableNamed e = true -> matchesE (ByAttr "name" NamedScopeManager) e = false.
Proof.
  unfold tableNamed, matchesE. cbn [existsb SCOPENAME snd].
  destruct (obj_get "name" (snd e)) as [v|]; [|reflexivity].
  intros H. destruct (String.eqb_spec v NamedScopeManager) as [->|]; [|reflexivity].
  discriminate H.
Qed.

Lemma workspaceDocument_iff (d : document) :
  workspaceDocument d = true
  <-> count (ByTag "project") d = 1
      /\ count (ByAttr "name" NamedScopeManager) d <= 1
      /\ forallb scopesAreEntriesIn d = true.
Proof.
  unfold workspaceDocument.
  rewrite !andb_true_iff, Nat.eqb_eq, Nat.leb_le. tauto.
Qed.

Lemma filter_filter_neg {A} (q t : A -> bool) (l : list A) :
  Forall (fun e => t e = true -> q e = false) l ->
  filter q (filter (fun e => negb (t e)) l) = filter q l.
Proof.
  induction 1 as [|e l He _ IH]; simpl; [reflexivity|].
  destruct (t e) eqn:Et; simpl.
  - now rewrite (He eq_refl).
  - now rewrite IH.
Qed.

(** The container is there after the first step. *)
Lemma ensureContainer_workspace (doc : document) :
  workspaceDocument doc = true ->
  count (ByTag "project") (ensureContainer doc) = 1
  /\ count (ByAttr "name" NamedScopeManager) (ensureContainer doc) = 1
  /\ forallb scopesAreEntriesIn (ensureContainer doc) = true.
Proof.
  intros W. apply workspaceDocument_iff in W. destruct W as (Hp & Hc & He).
  unfold ensureContainer.
  destruct (Nat.eqb_spec (count (ByAttr "name" NamedScopeManager) doc) 0)
    as [Hzero|Hsome].
  - split; [|split].
    + unfold count. rewrite append_filter_old; [exact Hp | reflexivity].
    + unfold count at 1. rewrite append_filter_new.
      * rewrite Hp. reflexivity.
      * apply length_zero_iff_nil. exact Hzero.
    + apply entries_append; [reflexivity | | assumption].
      now apply entries_not_project.
  - repeat split; [assumption | lia | assumption].
Qed.

(** The document after cleaning, seen through its outline. *)
Lemma cleanNamedScope_workspace (doc : document) :
  workspaceDocument doc = true ->
  count (ByTag "project") (cleanNamedScope doc) = 1
  /\ count (ByAttr "name" NamedScopeManager) (cleanNamedScope doc) = 1
  /\ Forall (fun e => tableNamed e = false) (outline (cleanNamedScope doc)).
Proof.
  intros W. destruct (ensureContainer_workspace doc W) as (Hp & Hc & He).
  split; [|split].
  - unfold count. rewrite cleanNamedScope_outline, entries_outside by assumption.
    rewrite filter_filter_neg; [exact Hp|].
    now apply entries_not_project.
  - unfold count. rewrite cleanNamedScope_outline, entries_outside by assumption.
    rewrite filter_filter_neg; [exact Hc|].
    apply Forall_forall. intros e _. apply container_not_tableNamed.
  - rewrite cleanNamedScope_outline. apply outlineOutside_free.
Qed.

(** ** The scopes of the run *)

Lemma joinText_entries (l : list node) :
  forallb scopesAreEntriesIn (joinText l) = forallb scopesAreEntriesIn l.
Proof.
  induction l as [|x l IH]; [reflexivity|].
  destruct x as [a|k a|t a cs]; simpl.
  - destruct (joinText l) as [|[b|k b|t b cs] r]; simpl in *; exact IH.
  - exact IH.
  - now rewrite IH.
Qed.

Lemma scopesDom_outline (run : obj typeConfig) (projectName : string) :
  outline (scopesDom run projectName)
  = map (fun kv => scopeEntry (snd kv) projectName) run.
Proof.
  unfold scopesDom. rewrite joinText_outline. unfold outline.
  induction run as [|kv run IH]; simpl; [reflexivity|]. now rewrite IH.
Qed.

Lemma scopesDom_entries (run : obj typeConfig) (projectName : string) :
  forallb scopesAreEntriesIn (scopesDom run projectName) = true.
Proof.
  unfold scopesDom. rewrite joinText_entries.
  induction run as [|kv run IH]; simpl; [reflexivity|].
  rewrite IH. now destruct (tableNamed _).
Qed.

Lemma normalized_tableNamed (kv : string * typeConfig) (projectName : string) :
  normalizedEntry kv -> tableNamed (scopeEntry (snd kv) projectName) = true.
Proof.
  intros (name & Hname & Hscope).
  unfold scopeEntry. rewrite Hscope. unfold SCOPENAME in Hname.
  cbn [obj_get] in Hname.
  repeat match type of Hname with
         | (if ?b then _ else _) = _ => destruct b
         end; try discriminate; injection Hname as <-; reflexivity.
Qed.

(** The table gives different file types different scope names. *)
Lemma SCOPENAME_injective (k k' name : string) :
  obj_get k SCOPENAME = Some name -> obj_get k' SCOPENAME = Some name -> k = k'.
Proof.
  unfold SCOPENAME. cbn [obj_get].
  destruct (String.eqb_spec "js" k); destruct (String.eqb_spec "js" k');
    destruct (String.eqb_spec "scss" k); destruct (String.eqb_spec "scss" k');
    destruct (String.eqb_spec "md" k); destruct (String.eqb_spec "md" k');
    destruct (String.eqb_spec "vue" k); destruct (String.eqb_spec "vue" k');
    intros H1 H2; try discriminate; try congruence;
    injection H1 as <-; discriminate.
Qed.

Lemma matchesE_scopeEntry (v : string) (tc : typeConfig) (projectName : string) :
  matchesE (ByAttr "name" v) (scopeEntry tc projectName)
  = (show (scopeName tc) =? v)%string.
Proof. reflexivity. Qed.

Lemma scopesDom_one_per_key (run : obj typeConfig) (projectName : string) :
  normalizedRun run -> NoDup (obj_keys run) ->
  forall key tc, In (key, tc) run ->
    filter (matchesE (ByAttr "name" (show (scopeName tc))))
           (outline (scopesDom run projectName))
    = [scopeEntry tc projectName].
Proof.
  intros Hn Hd key tc Hin. rewrite scopesDom_outline.
  assert (Hother : forall kv, In kv run -> fst kv <> key ->
             matchesE (ByAttr "name" (show (scopeName tc)))
                      (scopeEntry (snd kv) projectName) = false).
  { intros kv Hkv Hne.
    unfold normalizedRun in Hn. rewrite Forall_forall in Hn.
    destruct (Hn _ Hkv) as (n1 & Hn1 & Hs1).
    destruct (Hn _ Hin) as (n2 & Hn2 & Hs2). cbn [fst snd] in Hn2, Hs2.
    rewrite matchesE_scopeEntry, Hs1, Hs2. cbn [show].
    apply String.eqb_neq. intros ->. apply Hne.
    eapply SCOPENAME_injective; eassumption. }
  clear Hn.
  induction run as [|[k c] run IH]; [destruct Hin|].
  simpl in Hd. inversion Hd as [|? ? Hnotin Hd']; subst.
  cbn [map filter snd]. destruct Hin as [E|Hin].
  - injection E as -> ->.
    rewrite matchesE_scopeEntry, String.eqb_refl. f_equal. clear IH.
    assert (Hrest : forall kv, In kv run -> fst kv <> key).
    { intros kv Hkv <-. apply Hnotin. now apply in_map. }
    assert (Hrun : forall kv, In kv run ->
               matchesE (ByAttr "name" (show (scopeName tc)))
                        (scopeEntry (snd kv) projectName) = false).
    { intros kv Hkv. apply Hother; [now right | now apply Hrest]. }
    clear - Hrun.
    induction run as [|kv run IHr]; cbn [map filter]; [reflexivity|].
    rewrite Hrun by now left. apply IHr.
    intros kv' Hkv'. apply Hrun. now right.
  - pose proof (Hother (k, c) (or_introl eq_refl)) as Hk. cbn [fst snd] in Hk.
    rewrite Hk.
    + apply IH; auto. intros kv Hkv. apply Hother. now right.
    + intros ->. apply Hnotin.
      change key with (fst (key, tc)). now apply in_map.
Qed.


Lemma Forall_concat_repeat {A} (P : A -> Prop) (f : list A) (n : nat) :
  Forall P f -> Forall P (concat (repeat f n)).
Proof.
  intros H. induction n as [|n IH]; simpl; [constructor|].
  apply Forall_app. now split.
Qed.

Lemma filter_all {A} (f : A -> bool) (l : list A) :
  Forall (fun x => f x = true) l -> filter f l = l.
Proof.
  induction 1 as [|x l Hx _ IH]; simpl; [reflexivity|]. now rewrite Hx, IH.
Qed.

Lemma filter_none {A} (f : A -> bool) (l : list A) :
  Forall (fun x => f x = false) l -> filter f l = [].
Proof.
  induction 1 as [|x l Hx _ IH]; simpl; [reflexivity|]. now rewrite Hx.
Qed.

Lemma scopesDom_tableNamed (run : obj typeConfig) (projectName : string) :
  normalizedRun run ->
  Forall (fun e => tableNamed e = true) (outline (scopesDom run projectName)).
Proof.
  intros Hn. rewrite scopesDom_outline. apply Forall_map.
  eapply Forall_impl; [|exact Hn].
  intros kv. apply normalized_tableNamed.
Qed.

Lemma cleanKey_remove (doc : document) (key : string) :
  cleanKey doc key
  = remove (ByAttr "name" (show (obj_get key SCOPENAME))) doc.
Proof.
  unfold cleanKey.
  destruct (Nat.ltb_spec 0 (count (ByAttr "name" (show (obj_get key SCOPENAME))) doc))
    as [Hpos|Hzero]; [reflexivity|].
  symmetry. apply remove_unmatched.
  apply length_zero_iff_nil. unfold count in Hzero. lia.
Qed.

(** The loop of [cleanNamedScope], as one removal. *)
Lemma clean_loop_without (d : list node) :
  fold_left cleanKey (obj_keys SCOPENAME) d = without tableNamed d.
Proof.
  change (obj_keys SCOPENAME) with ["js"; "scss"; "md"; "vue"].
  cbn [fold_left].
  rewrite !cleanKey_remove, !remove_without, !without_without.
  apply without_ext. intros e.
  unfold tableNamed, matchesE. cbn [existsb SCOPENAME snd show].
  change (obj_get "js" SCOPENAME) with (Some "prettier-js").
  change (obj_get "scss" SCOPENAME) with (Some "prettier-scss").
  change (obj_get "md" SCOPENAME) with (Some "prettier-md").
  change (obj_get "vue" SCOPENAME) with (Some "prettier-vue").
  cbn [show].
  destruct (obj_get "name" (snd e)) as [v|]; [|reflexivity].
  destruct (v =? "prettier-js")%string, (v =? "prettier-scss")%string,
    (v =? "prettier-md")%string, (v =? "prettier-vue")%string; reflexivity.
Qed.

Lemma without_append_container (sel : selector) (d : list node) :
  without tableNamed
    (append sel [Element "component" [("name", NamedScopeManager)] []] d)
  = append sel [Element "component" [("name", NamedScopeManager)] []]
           (without tableNamed d).
Proof.
  rewrite <- !clean_loop_without.
  change (obj_keys SCOPENAME) with ["js"; "scss"; "md"; "vue"].
  cbn [fold_left].
  rewrite !cleanKey_remove. cbn [show obj_get SCOPENAME String.eqb].
  change (obj_get "js" SCOPENAME) with (Some "prettier-js").
  change (obj_get "scss" SCOPENAME) with (Some "prettier-scss").
  change (obj_get "md" SCOPENAME) with (Some "prettier-md").
  change (obj_get "vue" SCOPENAME) with (Some "prettier-vue").
  cbn [show].
  now rewrite !remove_append.
Qed.

(** The document after [cleanNamedScope]. *)
Lemma cleanNamedScope_eq (doc : document) :
  cleanNamedScope doc
  = if (count (ByAttr "name" NamedScopeManager) doc =? 0)%nat
    then append (ByTag "project")
                [Element "component" [("name", NamedScopeManager)] []]
                (without tableNamed doc)
    else without tableNamed doc.
Proof.
  unfold cleanNamedScope, ensureContainer. rewrite clean_loop_without.
  destruct (count (ByAttr "name" NamedScopeManager) doc =? 0)%nat;
    [apply without_append_container | reflexivity].
Qed.

(** The merge in one pass: the elements of the table leave, and the
    elements that are left receive their tails. *)
Lemma mergeScopes_eq (scopes : list node) (doc : document) :
  mergeScopes scopes doc
  = withTails
      (mergedTail scopes (count (ByAttr "name" NamedScopeManager) doc =? 0)%nat)
      (without tableNamed doc).
Proof.
  unfold mergeScopes. rewrite cleanNamedScope_eq.
  destruct (Nat.eqb_spec (count (ByAttr "name" NamedScopeManager) doc) 0)
    as [Hzero|Hsome].
  - rewrite !append_withTails, withTails_withTails.
    apply withTails_ext_on. rewrite outline_without.
    assert (Hnone : filter (matchesE (ByAttr "name" NamedScopeManager))
                           (outlineOutside tableNamed doc) = []).
    { apply outlineOutside_unmatched, length_zero_iff_nil. exact Hzero. }
    induction (outlineOutside tableNamed doc) as [|e l IH]; constructor.
    + cbn [filter] in Hnone.
      destruct (matchesE (ByAttr "name" NamedScopeManager) e) eqn:En;
        [discriminate|].
      unfold mergedTail. rewrite En. cbn [andb].
      change (matchesE (ByTag "project") e) with (fst e =? "project")%string.
      destruct (fst e =? "project")%string; [|reflexivity].
      rewrite app_nil_r. reflexivity.
    + apply IH. cbn [filter] in Hnone.
      destruct (matchesE (ByAttr "name" NamedScopeManager) e);
        [discriminate | exact Hnone].
  - rewrite append_withTails. apply withTails_ext_on.
    apply Forall_forall. intros e _. unfold mergedTail.
    destruct (matchesE (ByAttr "name" NamedScopeManager) e); reflexivity.
Qed.

(** C1, as the specification states it, fails: the workspace holds an
    entry of the file type [vue], the run is over [js] alone, and after
    the merge the [vue] entry is gone. *)
Lemma mergeScopes_other_type_counterexample :
  obj_get "vue" Sample.run = None
  /\ obj_get "vue" SCOPENAME = Some "prettier-vue"
  /\ outline Sample.workspace
     = [ ("project", [("version", "4")]);
         ("component", [("name", "NamedScopeManager")]);
         ("scope", [("name", "prettier-vue"); ("pattern", "file:src//*")]);
         ("scope", [("name", "tests"); ("pattern", "file:test//*")]) ]
  /\ outline (mergeScopes (scopesDom Sample.run "demo") Sample.workspace)
     = [ ("project", [("version", "4")]);
         ("component", [("name", "NamedScopeManager")]);
         ("scope", [("name", "tests"); ("pattern", "file:test//*")]);
         ("scope", [("name", "prettier-js");
                    ("pattern",
                     "!file[demo]:node_modules//*&&!file[demo]:.git//*&&!file[demo]:.svn//*")]) ].
Proof. repeat split. Qed.

(** C1, amended. For every merge of a watch rule set into a workspace
    document, the nodes of the document that neither are elements
    carrying one of the four scope names of the fixed table nor lie
    inside such an element stay where they are, with their tags and
    attributes; the elements that carry one of the four names leave,
    for every file type of the table, in the current run or not; the
    scopes of the run, as the parser reads their markup, are added
    after the last child of the element named [NamedScopeManager],
    which is itself added, with the scopes, after the last child of
    [project] when the document has no element of that name; and
    nothing else changes, so that the only elements with a name of the
    table after the merge are those of the scopes of the run. *)
Theorem mergeScopes_frame (doc : document) (run : obj typeConfig)
        (projectName : string) :
  let scopes := load (scopesMarkup run projectName) in
  let merged := mergeScopes scopes doc in
  let fresh := (count (ByAttr "name" NamedScopeManager) doc =? 0)%nat in
  merged = withTails (mergedTail scopes fresh) (without tableNamed doc)
  /\ outline (without tableNamed doc) = outlineOutside tableNamed doc
  /\ Forall (fun e => tableNamed e = false) (outlineOutside tableNamed doc)
  /\ Forall (fun e => In e (outline scopes))
            (filter tableNamed (outline merged))
  /\ (scopes = scopesDom run projectName ->
      Forall (fun e => In e (map (fun kv => scopeEntry (snd kv) projectName)
                                 run))
             (filter tableNamed (outline merged))).
Proof.
  intros scopes merged fresh.
  assert (Hnew : Forall (fun e => In e (outline scopes))
                        (filter tableNamed (outline merged))).
  { subst merged. unfold mergeScopes. rewrite append_filter_new.
    - apply Forall_concat_repeat, Forall_forall.
      intros e He. apply filter_In in He. tauto.
    - apply filter_none. rewrite cleanNamedScope_outline.
      apply outlineOutside_free. }
  split; [apply mergeScopes_eq|].
  split; [apply outline_without|].
  split; [apply outlineOutside_free|].
  split; [exact Hnew|].
  intros Hparsed. rewrite <- scopesDom_outline, <- Hparsed. exact Hnew.
Qed.

(** One merge into a workspace document gives a workspace document with
    exactly one entry per file type of the run. *)
Lemma mergeScopes_workspace (doc : document) (run : obj typeConfig)
      (projectName : string) :
  workspaceDocument doc = true ->
  normalizedRun run ->
  NoDup (obj_keys run) ->
  let merged := mergeScopes (scopesDom run projectName) doc in
  workspaceDocument merged = true
  /\ forall key tc, In (key, tc) run ->
       filter (matchesE (ByAttr "name" (show (scopeName tc)))) (outline merged)
       = [scopeEntry tc projectName].
Proof.
  intros W Hn Hd merged. subst merged. unfold mergeScopes.
  destruct (cleanNamedScope_workspace doc W) as (Hp & Hc & Hfree).
  pose proof (scopesDom_tableNamed run projectName Hn) as Hfrs.
  split.
  - apply workspaceDocument_iff. split; [|split].
    + unfold count. rewrite append_filter_old; [exact Hp|].
      apply filter_none. rewrite scopesDom_outline. apply Forall_map.
      apply Forall_forall. reflexivity.
    + unfold count. rewrite append_filter_old;
        [unfold count in Hc; now rewrite Hc|].
      apply filter_none. eapply Forall_impl; [|exact Hfrs].
      intros e. apply container_not_tableNamed.
    + apply entries_append.
      * apply scopesDom_entries.
      * apply Forall_forall. intros e _. apply container_not_tableNamed.
      * now apply entries_of_outline.
  - intros key tc Hin. rewrite append_filter_new.
    + rewrite Hc. simpl. rewrite app_nil_r.
      now apply scopesDom_one_per_key with (key := key).
    + apply filter_none. eapply Forall_impl; [|exact Hfree].
      intros e He.
      unfold normalizedRun in Hn. rewrite Forall_forall in Hn.
      destruct (Hn _ Hin) as (name & Hname & Hscope). cbn [fst snd] in *.
      destruct (matchesE (ByAttr "name" (show (scopeName tc))) e) eqn:Em;
        [|reflexivity].
      enough (tableNamed e = true) by congruence.
      rewrite Hscope in Em. cbn [show] in Em.
      unfold tableNamed. apply existsb_exists.
      exists (key, name). split; [|exact Em].
      clear - Hname. unfold SCOPENAME in *. cbn [obj_get] in Hname.
      destruct (String.eqb_spec "js" key) as [<-|];
        [injection Hname as <-; simpl; tauto|].
      destruct (String.eqb_spec "scss" key) as [<-|];
        [injection Hname as <-; simpl; tauto|].
      destruct (String.eqb_spec "md" key) as [<-|];
        [injection Hname as <-; simpl; tauto|].
      destruct (String.eqb_spec "vue" key) as [<-|];
        [injection Hname as <-; simpl; tauto|].
      discriminate.
Qed.

(** ** A second merge *)

(** Cleaning goes through appending. *)
Lemma clean_loop_append (keys : list string) :
  forall (sel : selector) (content doc : list node),
    fold_left cleanKey keys (append sel content doc)
    = append sel (fold_left cleanKey keys content)
             (fold_left cleanKey keys doc).
Proof.
  induction keys as [|k keys IH]; intros sel content doc; simpl;
    [reflexivity|].
  rewrite !cleanKey_remove, remove_append. apply IH.
Qed.

(** Cleaning a forest without scope entries changes nothing. *)
Lemma clean_loop_free (d : list node) :
  Forall (fun e => tableNamed e = false) (outline d) ->
  fold_left cleanKey (obj_keys SCOPENAME) d = d.
Proof.
  intros Hfree.
  assert (Hkey : forall key name,
             obj_get key SCOPENAME = Some name ->
             In (key, name) SCOPENAME ->
             cleanKey d key = d).
  { intros key name Hname Hin. rewrite cleanKey_remove, Hname. cbn [show].
    apply remove_unmatched, filter_none.
    eapply Forall_impl; [|exact Hfree].
    intros e He. destruct (matchesE (ByAttr "name" name) e) eqn:Em;
      [|reflexivity].
    enough (tableNamed e = true) by congruence.
    unfold tableNamed. apply existsb_exists. now exists (key, name). }
  change (obj_keys SCOPENAME) with ["js"; "scss"; "md"; "vue"].
  cbn [fold_left].
  rewrite (Hkey "js" "prettier-js"), (Hkey "scss" "prettier-scss"),
    (Hkey "md" "prettier-md"), (Hkey "vue" "prettier-vue");
    try reflexivity; simpl; tauto.
Qed.

(** Cleaning the scopes of a run leaves no element of them. *)
Lemma clean_loop_scopes (run : obj typeConfig) (projectName : string) :
  normalizedRun run ->
  elements (fold_left cleanKey (obj_keys SCOPENAME)
                      (scopesDom run projectName)) = [].
Proof.
  intros Hn. apply elements_outline_nil.
  pose proof (clean_loop_outline (scopesDom run projectName)) as H.
  rewrite H. clear H.
  pose proof (scopesDom_tableNamed run projectName Hn) as Hall.
  unfold outlineOutside, outline in *.
  induction (scopesDom run projectName) as [|x l IH]; [reflexivity|].
  simpl in Hall |- *. apply Forall_app in Hall. destruct Hall as [H1 H2].
  rewrite IH by assumption. rewrite app_nil_r.
  destruct x as [| |t a cs]; try reflexivity.
  simpl in H1 |- *. inversion H1 as [|? ? Hhead _]; subst. now rewrite Hhead.
Qed.

(** A second merge of the same run gives the elements of the first. *)
Lemma mergeScopes_again (doc : document) (run : obj typeConfig)
      (projectName : string) :
  workspaceDocument doc = true ->
  normalizedRun run ->
  let once := mergeScopes (scopesDom run projectName) doc in
  elements (mergeScopes (scopesDom run projectName) once) = elements once.
Proof.
  intros W Hn once.
  destruct (cleanNamedScope_workspace doc W) as (_ & Hc & Hfree).
  pose proof (scopesDom_tableNamed run projectName Hn) as Hfrs.
  assert (Hcount : count (ByAttr "name" NamedScopeManager) once = 1).
  { subst once. unfold mergeScopes, count.
    rewrite append_filter_old; [exact Hc|].
    apply filter_none. eapply Forall_impl; [|exact Hfrs].
    intros e. apply container_not_tableNamed. }
  unfold mergeScopes at 1, cleanNamedScope, ensureContainer.
  rewrite Hcount. cbn [Nat.eqb].
  subst once. unfold mergeScopes at 1.
  rewrite clean_loop_append, (clean_loop_free (cleanNamedScope doc) Hfree).
  rewrite !elements_append, (clean_loop_scopes run projectName Hn).
  rewrite append_nothing. unfold mergeScopes. now rewrite elements_append.
Qed.

(** Two merges in succession, for scopes that are read as written. *)
Lemma mergeScopes_twice_scopesDom (doc : document) (run1 run2 : obj typeConfig)
        (projectName : string) :
  workspaceDocument doc = true ->
  normalizedRun run1 -> NoDup (obj_keys run1) ->
  normalizedRun run2 -> NoDup (obj_keys run2) ->
  let once := mergeScopes (scopesDom run1 projectName) doc in
  let twice := mergeScopes (scopesDom run2 projectName) once in
  (forall key tc, In (key, tc) run1 ->
     exists name,
       obj_get key SCOPENAME = Some name
       /\ filter (matchesE (ByAttr "name" name)) (outline once)
          = [("scope", [("name", name);
                        ("pattern", scopePattern tc projectName)])])
  /\ (forall key tc, In (key, tc) run2 ->
        exists name,
          obj_get key SCOPENAME = Some name
          /\ filter (matchesE (ByAttr "name" name)) (outline twice)
             = [("scope", [("name", name);
                           ("pattern", scopePattern tc projectName)])]
          /\ count (ByAttr "name" name) twice = 1)
  /\ (run2 = run1 ->
      elements twice = elements once /\ outline twice = outline once).
Proof.
  intros W Hn1 Hd1 Hn2 Hd2 once twice.
  assert (Hagain : run2 = run1 ->
            elements twice = elements once /\ outline twice = outline once).
  { intros E. subst run2.
    pose proof (mergeScopes_again doc run1 projectName W Hn1) as H.
    cbv zeta in H. fold once in H. fold twice in H.
    split; [exact H|].
    now rewrite <- (elements_outline twice), H, elements_outline. }
  destruct (mergeScopes_workspace doc run1 projectName W Hn1 Hd1) as [W1 H1].
  destruct (mergeScopes_workspace once run2 projectName W1 Hn2 Hd2) as [_ H2].
  fold once in H1. fold twice in H2.
  unfold normalizedRun in Hn1, Hn2. rewrite Forall_forall in Hn1, Hn2.
  split; [|split; [|exact Hagain]]; intros key tc Hin.
  - destruct (Hn1 _ Hin) as (name & Hname & Hscope). cbn [fst snd] in *.
    exists name. specialize (H1 key tc Hin).
    unfold scopeEntry in H1. rewrite Hscope in H1. cbn [show] in H1.
    split; assumption.
  - destruct (Hn2 _ Hin) as (name & Hname & Hscope). cbn [fst snd] in *.
    exists name. specialize (H2 key tc Hin).
    unfold scopeEntry in H2. rewrite Hscope in H2. cbn [show] in H2.
    split; [assumption|]. split; [assumption|].
    unfold count. now rewrite H2.
Qed.


End Merge.


Lemma sample_run_normalized : normalizedRun Sample.run.
Proof.
  repeat constructor. exists "prettier-js"%string. split; reflexivity.
Qed.

Lemma sample_run_nodup : NoDup (obj_keys Sample.run).
Proof. repeat constructor. intros []. Qed.

Lemma sample_run_parsed :
  Sample.load (Watcher.scopesMarkup Sample.run "demo")
  = Watcher.scopesDom Sample.run "demo".
Proof. reflexivity. Qed.

(** The merge of the sample run into the sample workspace: the stale
    entry of [vue] leaves, the entry of the user stays, the entry of
    [js] comes last in the container. *)
Lemma mergeScopes_frame_witness :
  Watcher.mergeScopes (Sample.load (Watcher.scopesMarkup Sample.run "demo"))
                      Sample.workspace
  = [ Element "project" [("version", "4")]
        [ Element "component" [("name", "NamedScopeManager")]
            [ Element "scope" [("name", "tests");
                               ("pattern", "file:test//*")] [];
              Text (Watcher.nl ++ Watcher.tab);
              Element "scope"
                [("name", "prettier-js");
                 ("pattern",
                  "!file[demo]:node_modules//*&&!file[demo]:.git//*&&!file[demo]:.svn//*")]
                [];
              Text Watcher.nl ] ] ].
Proof.
  exact (proj1 (mergeScopes_frame Sample.load Sample.workspace Sample.run
                                  "demo")).
Defined.


(* ================================================================== *)

Section NormalizedConfig.

Import Watcher.

Context {V : Type}.

Lemma obj_get_of_In (kv : string * V) (o : obj V) :
  In kv o -> obj_get (fst kv) o <> None.
Proof.
  induction o as [|[k v] o IH]; simpl; [tauto|].
  intros [<-|H]; simpl.
  - now rewrite String.eqb_refl.
  - destruct (String.eqb k (fst kv)); [discriminate | auto].
Qed.

Lemma obj_keys_set_present (k : string) (v v' : V) (o : obj V) :
  obj_get k o = Some v' -> obj_keys (obj_set k v o) = obj_keys o.
Proof.
  induction o as [|[k0 v0] o IH]; simpl; [discriminate|].
  destruct (String.eqb k0 k); simpl; [reflexivity|].
  intros H. now rewrite IH.
Qed.

Lemma obj_set_In (k : string) (v : V) (o : obj V) (kv : string * V) :
  NoDup (obj_keys o) ->
  In kv (obj_set k v o) -> kv = (k, v) \/ (In kv o /\ fst kv <> k).
Proof.
  induction o as [|[k0 v0] o IH]; simpl; intros Hd Hin.
  - destruct Hin as [<-|[]]. now left.
  - inversion Hd as [|? ? Hnotin Hd']; subst.
    destruct (String.eqb_spec k0 k) as [->|Hne]; simpl in Hin.
    + destruct Hin as [<-|Hin]; [now left|].
      right. split; [now right|].
      intros E. apply Hnotin. rewrite <- E. now apply in_map.
    + destruct Hin as [<-|Hin]; [right; split; [now left | assumption]|].
      destruct (IH Hd' Hin) as [->|[H1 H2]]; [now left|].
      right. split; [now right | assumption].
Qed.

Lemma obj_delete_In (k : string) (o : obj V) (kv : string * V) :
  In kv (obj_delete k o) -> In kv o /\ fst kv <> k.
Proof.
  unfold obj_delete. intros H. apply filter_In in H. destruct H as [H1 H2].
  split; [assumption|]. apply negb_true_iff in H2. now apply String.eqb_neq.
Qed.

Lemma obj_delete_NoDup (k : string) (o : obj V) :
  NoDup (obj_keys o) -> NoDup (obj_keys (obj_delete k o)).
Proof.
  unfold obj_keys, obj_delete.
  induction o as [|[k0 v0] o IH]; simpl; intros Hd; [constructor|].
  inversion Hd as [|? ? Hnotin Hd']; subst.
  destruct (negb (k0 =? k)%string); simpl; [|auto].
  constructor; [|auto].
  intros Hin. apply Hnotin. apply in_map_iff in Hin.
  destruct Hin as (kv & E & Hkv). apply filter_In in Hkv.
  apply in_map_iff. exists kv. tauto.
Qed.

End NormalizedConfig.

Section NormalizedRun.

Import Watcher.

(** No file type that reaches the loop is a name that objects inherit. *)
Lemma normalize_loop_normalized (ks : list string) :
  Forall (fun k => obj_get k objectPrototype = None) ks ->
  forall (t t' : obj typeConfig) (w w' : world),
    NoDup (obj_keys t) ->
    (forall kv, In kv t -> In (fst kv) ks \/ normalizedEntry kv) ->
    foldM normalizeKey ks t w = (inr t', w') ->
    normalizedRun t' /\ NoDup (obj_keys t').
Proof.
  induction 1 as [|k ks Hk _ IH]; intros t t' w w' Hd Hinv Hrun.
  - injection Hrun as <- _. split; [|assumption].
    apply Forall_forall. intros kv Hkv.
    destruct (Hinv kv Hkv) as [[]|H]; assumption.
  - cbn [foldM] in Hrun. unfold bind, normalizeKey, scopeNameOf in Hrun.
    rewrite Hk in Hrun.
    destruct (obj_get k t) as [tc|] eqn:Eget.
    + destruct (obj_get k SCOPENAME) as [name|] eqn:Ename; simpl in Hrun.
      * apply IH in Hrun; [assumption| |].
        -- erewrite obj_keys_set_present; eassumption.
        -- intros kv Hkv. apply obj_set_In in Hkv; [|assumption].
           destruct Hkv as [->|[Hkv Hne]].
           ++ right. exists name. split; [exact Ename | reflexivity].
           ++ destruct (Hinv kv Hkv) as [[E|H]|H]; auto. congruence.
      * apply IH in Hrun; [assumption| |].
        -- now apply obj_delete_NoDup.
        -- intros kv Hkv. apply obj_delete_In in Hkv.
           destruct Hkv as [Hkv Hne].
           destruct (Hinv kv Hkv) as [[E|H]|H]; auto. congruence.
    + simpl in Hrun. apply IH in Hrun; [assumption|assumption|].
      intros kv Hkv. destruct (Hinv kv Hkv) as [[E|H]|H]; auto.
      apply obj_get_of_In in Hkv. congruence.
Qed.

(** What [normalizedConfig] returns is a normalized run, when no file
    type of the rule set is a name that objects inherit. *)
Lemma normalizedConfig_normalized (config t' : obj typeConfig) (w w' : world) :
  Forall (fun k => obj_get k objectPrototype = None) (obj_keys config) ->
  NoDup (obj_keys config) ->
  normalizedConfig config w = (inr t', w') ->
  normalizedRun t' /\ NoDup (obj_keys t').
Proof.
  intros Hown Hd Hrun. unfold normalizedConfig in Hrun.
  eapply normalize_loop_normalized; [exact Hown | exact Hd | | exact Hrun].
  intros kv Hkv. left. now apply in_map.
Qed.

Lemma string_append_assoc (a b c : string) :
  ((a ++ b) ++ c = a ++ b ++ c)%string.
Proof. induction a as [|x a IH]; simpl; congruence. Qed.

Lemma string_append_nil_r (a : string) : (a ++ "")%string = a.
Proof. induction a as [|x a IH]; simpl; congruence. Qed.

Lemma markupOfList_app (l1 l2 : list node) :
  markupOfList (l1 ++ l2) = (markupOfList l1 ++ markupOfList l2)%string.
Proof.
  unfold markupOfList. induction l1 as [|x l1 IH]; simpl; [reflexivity|].
  now rewrite IH, string_append_assoc.
Qed.

(** Joining character data does not change the markup. *)
Lemma markupOfList_joinText (l : list node) :
  markupOfList (joinText l) = markupOfList l.
Proof.
  unfold markupOfList.
  induction l as [|x l IH]; [reflexivity|].
  destruct x as [a|k a|t a cs]; simpl.
  - destruct (joinText l) as [|[b|k b|t b cs] r]; simpl in *;
      rewrite <- IH; try reflexivity.
    apply string_append_assoc.
  - now rewrite IH.
  - now rewrite IH.
Qed.

(** The markup of [genScopes] is the markup of the nodes appended. *)
Lemma genScopes_markup (config : typeConfig) (projectName : string) :
  genScopes config projectName
  = markupOfList (scopeNodes config projectName).
Proof.
  unfold genScopes, scopeNodes, scopeEntry, markupOfList, markup, attribute, q.
  cbn [map fold_right String.concat fst snd].
  rewrite !string_append_assoc, string_append_nil_r. reflexivity.
Qed.

(** The string that the loop of [addRuletoWorkspace] builds is the
    markup of the nodes that the merge appends. *)
Lemma scopesMarkup_scopesDom (run : obj typeConfig) (projectName : string) :
  scopesMarkup run projectName = markupOfList (scopesDom run projectName).
Proof.
  unfold scopesMarkup, scopesDom. rewrite markupOfList_joinText.
  change (markupOfList
            (flat_map (fun kv => scopeNodes (snd kv) projectName) run))
    with (""
          ++ markupOfList
               (flat_map (fun kv => scopeNodes (snd kv) projectName) run))%string.
  generalize ""%string as scopes.
  induction run as [|kv run IH]; intros scopes; cbn [fold_left flat_map].
  - symmetry. apply string_append_nil_r.
  - rewrite IH, markupOfList_app, <- genScopes_markup.
    apply string_append_assoc.
Qed.

End NormalizedRun.

(* ================================================================== *)
(** * The merge as the program runs it *)
(* ================================================================== *)

Section Workspace.

Import Watcher.

Context {fs : FileSystem}.
Variable basename : string -> string.
Variable load : string -> document.
Variable xml : document -> string.

Lemma addScope_loop (ws : wsConfigT) (name : string) :
  firstNonDotRun (basename (projectConfig ws)) = Some name ->
  forall (run : obj typeConfig) (scopes : string) (w : world),
    foldM (addScope basename ws) run scopes w
    = (inr (fold_left
              (fun scopes kv => (scopes ++ genScopes (snd kv) name)%string)
              run scopes), w).
Proof.
  intros Hname. induction run as [|kv run IH]; intros scopes w.
  - reflexivity.
  - cbn [foldM fold_left]. unfold bind, addScope at 1. rewrite Hname.
    apply IH.
Qed.

(** [addRuletoWorkspace] reads the workspace file, merges the scopes of
    the run into its tree and writes the tree back, when the file
    system lets it. *)
Lemma addRuletoWorkspace_merges (this : Watch) (ws : wsConfigT)
      (workspaceStr name : string) (w : world) :
  readRefused (files w) (workspaceConfig ws) = None ->
  obj_get (realpath (workspaceConfig ws)) (files w) = Some workspaceStr ->
  firstNonDotRun (basename (projectConfig ws)) = Some name ->
  writeRefused (files w) (workspaceConfig ws) = None ->
  addRuletoWorkspace basename load xml this ws w
  = (inr (VBool true),
     mkWorld (obj_set (realpath (workspaceConfig ws))
                      (xml (mergeScopes (load (scopesMarkup (typeObj this) name))
                                        (load workspaceStr)))
                      (files w))
             (console w ++ [("WS的workspace文件创建完成 " ++ workspaceConfig ws)%string])).
Proof.
  intros Hread Hfile Hname Hwrite.
  unfold addRuletoWorkspace, bind, readFileSync. rewrite Hread, Hfile.
  rewrite (addScope_loop ws name Hname).
  unfold writeFileSync. rewrite Hwrite. reflexivity.
Qed.

End Workspace.

(* ================================================================== *)
(** * Sample runs *)
(* ================================================================== *)

Example genEslintConfig_vue :
  Init.genEslintConfig (Answers.mk "problems" "esm" "vue" ["browser"] true)
  = {| rules := Some [("prettier/prettier", VStr "error")];
       env := [("es6", VBool true); ("browser", VBool true)];
       parserOptions := [("ecmaVersion", VNum (Int 2018));
                         ("sourceType", VStr "module")];
       extends := Arr ["eslint:recommended"; "fee-base";
                       "plugin:vue/essential"; "prettier"];
       plugins := Some ["vue"; "prettier"];
       globals := Some [("Atomics", VStr "readonly");
                        ("SharedArrayBuffer", VStr "readonly")] |}.
Proof. reflexivity. Qed.

Example genEslintConfig_plain :
  extends (Init.genEslintConfig (Answers.mk "syntax" "none" "none" [] false))
  = Str "fee-base".
Proof. reflexivity. Qed.

Example getModulesList_vue :
  Init.getModulesList
    (Init.genEslintConfig (Answers.mk "problems" "esm" "vue" ["browser"] true))
    (Some true)
  = ["eslint-plugin-vue@latest"; "eslint-plugin-prettier@latest";
     "prettier@latest"; "eslint-config-fee-base@latest";
     "eslint-config-prettier@latest"; "eslint@latest"].
Proof. reflexivity. Qed.

Example scopePattern_include :
  Watcher.scopePattern
    (Watcher.mkTypeConfig (Some "prettier-js") ["packages/"; "src//"; "index.js"]
                          true) "demo"
  = "file[demo]:packages//*||file[demo]:src//*||file:index.js".
Proof. reflexivity. Qed.

Example scopePattern_exclude :
  Watcher.scopePattern
    (Watcher.mkTypeConfig (Some "prettier-js") ["lib/"; "dist.js"] false) "demo"
  = "!file[demo]:lib//*&&!file:dist.js".
Proof. reflexivity. Qed.

Example normalizedConfig_unknown_type :
  Watcher.normalizedConfig
    [("js", Watcher.mkTypeConfig None [] true);
     ("xyz", Watcher.mkTypeConfig None [] true)]
    (mkWorld [] [])
  = (inr [("js", Watcher.mkTypeConfig (Some "prettier-js") [] true)],
     mkWorld [] ["xyz:此类型尚未在SCOPENAME中配置！skip~"]).
Proof. reflexivity. Qed.

Example firstNonDotRun_iml :
  Watcher.firstNonDotRun (Sample.basename "/proj/.idea/demo.iml") = Some "demo".
Proof. reflexivity. Qed.

(* ================================================================== *)
(** * More on the severity normalizer *)
(* ================================================================== *)

Section NormalizerMore.

Import ConfigOps.

Lemma obj_set_same_value {V} (k : string) (v : V) (o : obj V) :
  obj_get k o = Some v -> obj_set k v o = o.
Proof.
  induction o as [|[k' v'] o IH]; simpl; [discriminate|].
  destruct (String.eqb k' k).
  - now intros [= ->].
  - intros H. now rewrite IH.
Qed.

Lemma obj_get_of_key {V} (k : string) (o : obj V) :
  In k (obj_keys o) -> exists v, obj_get k o = Some v.
Proof.
  induction o as [|[k' v'] o IH]; simpl; [tauto|].
  intros [->|H].
  - rewrite String.eqb_refl. eauto.
  - destruct (String.eqb k' k); eauto.
Qed.

Lemma normalizeRuleAt_keys (rs : obj value) (k : string) :
  obj_keys (normalizeRuleAt rs k) = obj_keys rs.
Proof.
  unfold normalizeRuleAt. destruct (obj_get k rs) eqn:E; [|reflexivity].
  eapply obj_keys_set_present. eassumption.
Qed.

Lemma normalize_loop_keys (ks : list string) :
  forall rs, obj_keys (fold_left normalizeRuleAt ks rs) = obj_keys rs.
Proof.
  induction ks as [|k ks IH]; intros rs; simpl; [reflexivity|].
  now rewrite IH, normalizeRuleAt_keys.
Qed.

(** The loop changes nothing where every rule it visits is normalized. *)
Lemma normalize_loop_fixed (ks : list string) :
  forall rs,
    (forall k v, In k ks -> obj_get k rs = Some v -> normalizeRule v = v) ->
    fold_left normalizeRuleAt ks rs = rs.
Proof.
  induction ks as [|k ks IH]; intros rs Hfix; simpl; [reflexivity|].
  assert (E : normalizeRuleAt rs k = rs).
  { unfold normalizeRuleAt. destruct (obj_get k rs) as [v|] eqn:Hget;
      [|reflexivity].
    rewrite (Hfix k v (or_introl eq_refl) Hget).
    now apply obj_set_same_value. }
  rewrite E. apply IH. intros k' v Hin. apply Hfix. now right.
Qed.

(** X1. Normalizing is idempotent: a configuration that went through
    [normalizeToStrings] goes through it again unchanged. *)
Theorem normalizeToStrings_idempotent (c : config) :
  normalizeToStrings (normalizeToStrings c) = normalizeToStrings c.
Proof.
  unfold normalizeToStrings at 2 3.
  destruct (rules c) as [rs|] eqn:Hrules.
  - unfold normalizeToStrings, set_rules. cbn [rules env parserOptions extends plugins globals].
    f_equal. f_equal.
    rewrite normalize_loop_keys.
    apply normalize_loop_fixed. intros k v' Hin Hget.
    destruct (obj_get_of_key k rs Hin) as [v Hv].
    rewrite (normalize_loop_visited (obj_keys rs) rs k v Hv Hin) in Hget.
    injection Hget as <-. apply normalizeRule_idem.
  - unfold normalizeToStrings. now rewrite Hrules.
Qed.

(** X2. Normalizing keeps the rule ids, in their order, and touches
    nothing but the rules: the other fields of the configuration stay,
    and a configuration without rules is returned as it is. *)
Theorem normalizeToStrings_frame (c : config) :
  option_map obj_keys (rules (normalizeToStrings c))
  = option_map obj_keys (rules c)
  /\ env (normalizeToStrings c) = env c
  /\ parserOptions (normalizeToStrings c) = parserOptions c
  /\ extends (normalizeToStrings c) = extends c
  /\ plugins (normalizeToStrings c) = plugins c
  /\ globals (normalizeToStrings c) = globals c
  /\ (rules c = None -> normalizeToStrings c = c).
Proof.
  unfold normalizeToStrings.
  destruct (rules c) as [rs|] eqn:Hrules; cbn; rewrite ?Hrules;
    repeat split; try reflexivity; try discriminate.
  now rewrite normalize_loop_keys.
Qed.

End NormalizerMore.

(* ================================================================== *)
(** * More on the config synthesizer *)
(* ================================================================== *)

Section SynthesizerMore.

Import Init.

Lemma normalizeToStrings_fields (c : config) :
  env (ConfigOps.normalizeToStrings c) = env c
  /\ parserOptions (ConfigOps.normalizeToStrings c) = parserOptions c
  /\ plugins (ConfigOps.normalizeToStrings c) = plugins c.
Proof.
  unfold ConfigOps.normalizeToStrings. destruct (rules c); repeat split.
Qed.

Lemma fold_set_keep {V} (v : V) (names : list string) :
  forall (e : obj V) (k : string),
    obj_get k e = Some v ->
    obj_get k (fold_left (fun e name => obj_set name v e) names e) = Some v.
Proof.
  induction names as [|n names IH]; intros e k H; simpl; [assumption|].
  apply IH. destruct (String.eqb_spec n k) as [->|Hne].
  - apply obj_get_set_same.
  - now rewrite obj_get_set_other.
Qed.

Lemma fold_set_in {V} (v : V) (names : list string) :
  forall (e : obj V) (k : string),
    In k names ->
    obj_get k (fold_left (fun e name => obj_set name v e) names e) = Some v.
Proof.
  induction names as [|n names IH]; intros e k Hin; simpl; [destruct Hin|].
  destruct (String.eqb_spec n k) as [->|Hne].
  - apply fold_set_keep, obj_get_set_same.
  - destruct Hin as [E|Hin]; [congruence|]. now apply IH.
Qed.

Lemma fold_set_keys {V} (v : V) (names : list string) :
  forall (e : obj V) (k : string),
    In k (obj_keys (fold_left (fun e name => obj_set name v e) names e))
    <-> In k (obj_keys e) \/ In k names.
Proof.
  induction names as [|n names IH]; intros e k; simpl; [tauto|].
  rewrite IH, obj_keys_set. intuition.
Qed.

Lemma obj_set_values {V} (P : V -> Prop) (k : string) (v : V) (e : obj V) :
  P v -> Forall (fun kv => P (snd kv)) e ->
  Forall (fun kv => P (snd kv)) (obj_set k v e).
Proof.
  intros Hv. induction 1 as [|[k' v'] e Hx Ht IH]; simpl.
  - repeat constructor. exact Hv.
  - destruct (String.eqb k' k); constructor; simpl; auto.
Qed.

Lemma fold_set_values {V} (P : V -> Prop) (v : V) (names : list string) :
  P v ->
  forall e : obj V,
    Forall (fun kv => P (snd kv)) e ->
    Forall (fun kv => P (snd kv))
           (fold_left (fun e name => obj_set name v e) names e).
Proof.
  intros Hv. induction names as [|n names IH]; intros e He; simpl;
    [assumption|].
  apply IH. now apply obj_set_values.
Qed.

(** X3. In every synthesized configuration the environment [es6] is on,
    every environment of the answers is on, no environment is ever set
    to anything but [true], and the only names in [env] are [es6],
    [commonjs] and those of the answers; [commonjs] is there exactly
    when the module type is commonjs or the answers name it. *)
Theorem genEslintConfig_env (answers : Answers.t) :
  let e := env (genEslintConfig answers) in
  obj_get "es6" e = Some (VBool true)
  /\ Forall (fun name => obj_get name e = Some (VBool true))
            (Answers.env answers)
  /\ Forall (fun kv => snd kv = VBool true) e
  /\ Forall (fun k => k = "es6" \/ k = "commonjs" \/ In k (Answers.env answers))
            (obj_keys e)
  /\ (In "commonjs" (obj_keys e)
      <-> Answers.moduleType answers = "commonjs"
          \/ In "commonjs" (Answers.env answers)).
Proof.
  cbv zeta. unfold genEslintConfig.
  rewrite (proj1 (normalizeToStrings_fields _)). cbn [env]. unfold envOf.
  set (e0 := if (Answers.moduleType answers =? "esm")%string
             then obj_set "es6" (VBool true) []
             else if (Answers.moduleType answers =? "commonjs")%string
                  then obj_set "commonjs" (VBool true)
                               (obj_set "es6" (VBool true) [])
                  else obj_set "es6" (VBool true) []).
  assert (Hes6 : obj_get "es6" e0 = Some (VBool true)).
  { subst e0. destruct (_ =? "esm")%string; [reflexivity|].
    destruct (_ =? "commonjs")%string; reflexivity. }
  assert (Hvals : Forall (fun kv : string * value => snd kv = VBool true) e0).
  { subst e0. destruct (_ =? "esm")%string; [repeat constructor|].
    destruct (_ =? "commonjs")%string; repeat constructor. }
  assert (Hkeys : forall k, In k (obj_keys e0)
                            <-> k = "es6"
                                \/ (k = "commonjs"
                                    /\ Answers.moduleType answers = "commonjs")).
  { intros k. subst e0.
    destruct (String.eqb_spec (Answers.moduleType answers) "esm") as [E|E].
    - rewrite E. simpl. intuition; discriminate.
    - destruct (String.eqb_spec (Answers.moduleType answers) "commonjs")
        as [E'|E']; simpl; intuition. }
  split; [now apply fold_set_keep|].
  split; [apply Forall_forall; intros name Hin; now apply fold_set_in|].
  split; [now apply (fold_set_values (fun v => v = VBool true))|].
  split.
  - apply Forall_forall. intros k Hk.
    apply fold_set_keys in Hk. rewrite Hkeys in Hk. tauto.
  - rewrite fold_set_keys, Hkeys. intuition; discriminate.
Qed.

(** The three tests of [genEslintConfig] on the answers, as facts. *)
Lemma answers_cases (answers : Answers.t) :
  ((Answers.framework answers =? "react")%string = true
   /\ Answers.framework answers = "react"
   \/ (Answers.framework answers =? "react")%string = false
      /\ (Answers.framework answers =? "vue")%string = true
      /\ Answers.framework answers = "vue"
   \/ (Answers.framework answers =? "react")%string = false
      /\ (Answers.framework answers =? "vue")%string = false
      /\ Answers.framework answers <> "react"
      /\ Answers.framework answers <> "vue")
  /\ ((Answers.purpose answers =? "problems")%string = true
      /\ Answers.purpose answers = "problems"
      \/ (Answers.purpose answers =? "problems")%string = false
         /\ Answers.purpose answers <> "problems").
Proof.
  destruct (String.eqb_spec (Answers.framework answers) "react");
    destruct (String.eqb_spec (Answers.framework answers) "vue");
    destruct (String.eqb_spec (Answers.purpose answers) "problems");
    intuition congruence.
Qed.

(** X4. The fields of a synthesized configuration agree with each
    other: the preset [prettier], the plugin [prettier] and the rule
    [prettier/prettier] at [error] come together, exactly when prettier
    is installed; the preset of the vue plugin comes exactly with the
    plugin [vue]; and the parser feature [jsx] comes exactly with the
    plugin [react]. *)
Theorem genEslintConfig_consistent (answers : Answers.t) :
  let c := genEslintConfig answers in
  let ps := match plugins c with Some l => l | None => [] end in
  let es := extendsList (extends c) in
  (In "prettier" es <-> Answers.installedPrettier answers = true)
  /\ (In "prettier" ps <-> Answers.installedPrettier answers = true)
  /\ (rules c = Some [("prettier/prettier", VStr "error")]
      <-> Answers.installedPrettier answers = true)
  /\ (In "plugin:vue/essential" es <-> In "vue" ps)
  /\ (In "vue" ps <-> Answers.framework answers = "vue")
  /\ (obj_get "ecmaFeatures" (parserOptions c)
      = Some (VObj [("jsx", VBool true)]) <-> In "react" ps)
  /\ (In "react" ps <-> Answers.framework answers = "react").
Proof.
  cbv zeta. unfold genEslintConfig.
  rewrite normalizeToStrings_extends.
  rewrite (proj2 (proj2 (normalizeToStrings_fields _))).
  rewrite (proj1 (proj2 (normalizeToStrings_fields _))).
  unfold ConfigOps.normalizeToStrings.
  cbn [rules env parserOptions extends plugins globals set_rules].
  unfold extendsArray, pluginsOf, rulesOf, parserOptionsOf.
  destruct (answers_cases answers)
    as [[(T1 & F1)|[(T1 & T2 & F1)|(T1 & T2 & F1 & F2)]] [(T3 & F3)|(T3 & F3)]];
    rewrite ?T1, ?T2, ?T3;
    destruct (Answers.installedPrettier answers);
    destruct (Answers.moduleType answers =? "esm")%string;
    cbn; repeat split; intros; try discriminate; try reflexivity;
      try tauto; try congruence;
      repeat match goal with
             | H : _ \/ _ |- _ => destruct H
             | H : False |- _ => destruct H
             end; try discriminate; try congruence; try tauto.
Qed.

End SynthesizerMore.

(* ================================================================== *)
(** * More on the module list resolver *)
(* ================================================================== *)

Section ResolverMore.

Import Init.

Lemma obj_set_absent {V} (k : string) (v : V) (o : obj V) :
  ~ In k (obj_keys o) -> obj_set k v o = o ++ [(k, v)].
Proof.
  induction o as [|[k' v'] o IH]; simpl; intros H; [reflexivity|].
  destruct (String.eqb_spec k' k) as [->|Hne]; [tauto|].
  rewrite IH; tauto.
Qed.

Lemma obj_set_NoDup {V} (k : string) (v : V) (o : obj V) :
  NoDup (obj_keys o) -> NoDup (obj_keys (obj_set k v o)).
Proof.
  intros Hd. destruct (in_dec string_dec k (obj_keys o)) as [Hin|Hout].
  - destruct (obj_get_of_key k o Hin) as [v' Hv].
    now rewrite (obj_keys_set_present k v v' o Hv).
  - rewrite obj_set_absent by assumption.
    unfold obj_keys in *. rewrite map_app. simpl.
    apply NoDup_app; [assumption | repeat constructor; tauto |].
    intros x Hx [<-|[]]. contradiction.
Qed.

Lemma NoDup_plugins (ps : list string) :
  forall m : obj string,
    NoDup (obj_keys m) -> NoDup (obj_keys (fold_left addPlugin ps m)).
Proof.
  induction ps as [|p ps IH]; intros m H; simpl; [assumption|].
  apply IH. unfold addPlugin.
  destruct (negb _); repeat apply obj_set_NoDup; assumption.
Qed.

Lemma NoDup_extends (es : list string) :
  forall m : obj string,
    NoDup (obj_keys m) -> NoDup (obj_keys (fold_left addExtend es m)).
Proof.
  induction es as [|e es IH]; intros m H; simpl; [assumption|].
  apply IH. unfold addExtend.
  destruct (_ && _)%bool; [apply obj_set_NoDup|]; assumption.
Qed.

Lemma plugins_keys_iff (ps : list string) :
  forall (m : obj string) (x : string),
    In x (obj_keys (fold_left addPlugin ps m))
    <-> In x (obj_keys m)
        \/ (exists p, In p ps /\ x = ("eslint-plugin-" ++ p)%string)
        \/ (x = "prettier" /\ In "prettier" ps).
Proof.
  induction ps as [|p ps IH]; intros m x; simpl.
  - split; [tauto|]. intros [H|[(p & [] & _)|[_ []]]]. assumption.
  - rewrite IH. unfold addPlugin, externalModules, arrayIndexOf, arrayIndexOfFrom.
    destruct (String.eqb_spec "prettier" p) as [<-|Hne].
    + change (negb (0 =? -1)%Z) with true. cbv iota.
      rewrite !obj_keys_set. split.
      * intros [[->|[->|H]]|[(q & Hq & ->)|[-> H]]]; eauto 8.
      * intros [H|[(q & [<-|Hq] & ->)|[-> H]]]; eauto 8.
    + change (negb (-1 =? -1)%Z) with false. cbv iota.
      rewrite obj_keys_set. split.
      * intros [[->|H]|[(q & Hq & ->)|[-> H]]]; eauto 8.
      * intros [H|[(q & [<-|Hq] & ->)|[-> [E|H]]]]; eauto 8. congruence.
Qed.

Lemma NoDup_map_injective {A B} (f : A -> B) (l : list A) :
  (forall x y, f x = f y -> x = y) -> NoDup l -> NoDup (map f l).
Proof.
  intros Hinj. induction 1 as [|x l Hx _ IH]; simpl; constructor; [|assumption].
  intros Hin. apply in_map_iff in Hin. destruct Hin as (y & E & Hy).
  apply Hinj in E. now subst.
Qed.

(** The modules object at the end of [getModulesList]. *)
Lemma getModulesList_keys (c : config) (installESLint : option bool) :
  exists modules : obj string,
    getModulesList c installESLint
    = map (fun name => (name ++ "@latest")%string) (obj_keys modules)
    /\ NoDup (obj_keys modules)
    /\ (forall x,
          In x (obj_keys modules)
          <-> (x = "eslint" /\ installESLint <> Some false)
              \/ (exists p, In p (match plugins c with Some l => l | None => [] end)
                            /\ x = ("eslint-plugin-" ++ p)%string)
              \/ (x = "prettier"
                  /\ In "prettier" (match plugins c with Some l => l | None => [] end))
              \/ (exists e, In e (match extends c with Arr l => l | _ => [] end)
                            /\ passes e = true
                            /\ x = ("eslint-config-" ++ e)%string))
    /\ (installESLint <> Some false -> last (obj_keys modules) "" = "eslint").
Proof.
  unfold getModulesList.
  set (ps := match plugins c with Some l => l | None => [] end).
  set (es := match extends c with Arr l => l | _ => [] end).
  set (m1 := match plugins c with
             | Some ps => fold_left addPlugin ps []
             | None => []
             end).
  set (m2 := match extends c with
             | Arr es => fold_left addExtend es m1
             | _ => m1
             end).
  set (m3 := match installESLint with
             | Some false => obj_delete "eslint" m2
             | _ => obj_set "eslint" "latest" m2
             end).
  assert (E1 : m1 = fold_left addPlugin ps []).
  { subst m1 ps. now destruct (plugins c). }
  assert (E2 : m2 = fold_left addExtend es m1).
  { subst m2 es. now destruct (extends c). }
  assert (L3 : allLatest m3).
  { subst m3. rewrite E2, E1.
    assert (allLatest (fold_left addExtend es (fold_left addPlugin ps [])))
      by (apply allLatest_extends, allLatest_plugins; constructor).
    destruct installESLint as [[|]|];
      auto using allLatest_set, allLatest_delete. }
  assert (D2 : NoDup (obj_keys m2)).
  { rewrite E2, E1. apply NoDup_extends, NoDup_plugins. constructor. }
  assert (K2 : forall x,
             In x (obj_keys m2)
             <-> (exists p, In p ps /\ x = ("eslint-plugin-" ++ p)%string)
                 \/ (x = "prettier" /\ In "prettier" ps)
                 \/ (exists e, In e es /\ passes e = true
                               /\ x = ("eslint-config-" ++ e)%string)).
  { intros x. rewrite E2, extends_keys, E1, plugins_keys_iff. simpl. tauto. }
  assert (N2 : ~ In "eslint" (obj_keys m2)).
  { rewrite K2. intros [(p & _ & E)|[[E _]|(e & _ & _ & E)]]; discriminate. }
  exists m3. split; [|split; [|split]].
  - apply map_ext_in. intros name Hname. unfold moduleSpec.
    now rewrite (allLatest_get name m3 L3 Hname).
  - subst m3. destruct installESLint as [[|]|];
      auto using obj_set_NoDup, obj_delete_NoDup.
  - intros x. subst m3. destruct installESLint as [[|]|].
    + rewrite obj_keys_set, K2. split; [|tauto].
      intros [->|H]; [left; split; [reflexivity|discriminate] | tauto].
    + rewrite obj_keys_delete, K2. split; [tauto|].
      intros [[_ H]|H]; [congruence|]. split; [|assumption].
      intros ->. apply N2, K2. assumption.
    + rewrite obj_keys_set, K2. split; [|tauto].
      intros [->|H]; [left; split; [reflexivity|discriminate] | tauto].
  - intros Hne. subst m3.
    assert (E : obj_set "eslint" "latest" m2 = m2 ++ [("eslint", "latest")])
      by now apply obj_set_absent.
    destruct installESLint as [[|]|]; try congruence;
      rewrite E; unfold obj_keys; rewrite map_app; apply last_last.
Qed.

Lemma In_latest (name : string) (names : list string) :
  In (name ++ "@latest")%string
     (map (fun n => (n ++ "@latest")%string) names)
  <-> In name names.
Proof.
  rewrite in_map_iff. split.
  - intros (n & E & Hn). apply append_inj_r in E. now subst.
  - intros H. now exists name.
Qed.

(** X5. The module list holds no module twice, whatever the plugins and
    presets of the configuration repeat. *)
Theorem getModulesList_NoDup (c : config) (installESLint : option bool) :
  NoDup (getModulesList c installESLint).
Proof.
  destruct (getModulesList_keys c installESLint) as (m & -> & Hd & _).
  apply NoDup_map_injective; [|assumption].
  intros x y. apply append_inj_r.
Qed.

(** X6. The base linter package [eslint@latest] is in the module list
    unless [installESLint] is [false], and then it is the last module;
    with [false] it is not in the list, whatever the configuration. *)
Theorem getModulesList_eslint (c : config) (installESLint : option bool) :
  match installESLint with
  | Some false => ~ In "eslint@latest" (getModulesList c installESLint)
  | _ => last (getModulesList c installESLint) "" = "eslint@latest"
  end.
Proof.
  destruct (getModulesList_keys c installESLint) as (m & -> & _ & Hk & Hlast).
  assert (Hl : installESLint <> Some false ->
               last (map (fun n => (n ++ "@latest")%string) (obj_keys m)) ""
               = "eslint@latest").
  { intros Hne. specialize (Hlast Hne).
    assert (Hin : In "eslint" (obj_keys m))
      by (apply Hk; left; split; [reflexivity | assumption]).
    destruct (obj_keys m) as [|k ks] eqn:E; [destruct Hin|].
    assert (Hnn : k :: ks <> []) by discriminate.
    destruct (exists_last Hnn) as (front & z & Ez). rewrite Ez in *.
    rewrite last_last in Hlast. subst z.
    rewrite map_app. simpl. apply last_last. }
  destruct installESLint as [[|]|]; try (apply Hl; discriminate).
  change "eslint@latest" with ("eslint" ++ "@latest")%string.
  rewrite In_latest, Hk.
  intros [[_ H]|[(p & _ & E)|[[E _]|(e & _ & _ & E)]]];
    try discriminate. now apply H.
Qed.

(** X7. Every plugin of the configuration brings its package
    [eslint-plugin-<name>@latest]; the package [prettier@latest] itself
    is in the list exactly when [prettier] is among the plugins; and a
    module named [eslint-plugin-...] is there for a plugin only. *)
Theorem getModulesList_plugins (c : config) (installESLint : option bool) :
  let ps := match plugins c with Some l => l | None => [] end in
  let modules := getModulesList c installESLint in
  Forall (fun p => In (("eslint-plugin-" ++ p) ++ "@latest")%string modules) ps
  /\ (In "prettier@latest" modules <-> In "prettier" ps)
  /\ (forall x, In (("eslint-plugin-" ++ x) ++ "@latest")%string modules
                <-> In x ps).
Proof.
  cbv zeta.
  destruct (getModulesList_keys c installESLint) as (m & -> & _ & Hk & _).
  assert (Hplug : forall x,
             In (("eslint-plugin-" ++ x) ++ "@latest")%string
                (map (fun n => (n ++ "@latest")%string) (obj_keys m))
             <-> In x (match plugins c with Some l => l | None => [] end)).
  { intros x. rewrite In_latest, Hk. split.
    - intros [[E _]|[(p & Hp & E)|[[E _]|(e & _ & _ & E)]]];
        try discriminate.
      apply append_inj_l in E. now subst.
    - intros H. right; left. eauto. }
  split; [|split].
  - apply Forall_forall. intros p Hp. now apply Hplug.
  - change "prettier@latest" with ("prettier" ++ "@latest")%string.
    rewrite In_latest, Hk. split.
    + intros [[E _]|[(p & _ & E)|[[_ H]|(e & _ & _ & E)]]];
        try discriminate. assumption.
    + intros H. right; right; left. now split.
  - exact Hplug.
Qed.

(** X8. When [extends] is a bare string or absent, the resolver adds no
    config package at all: it looks at [extends] only when it is an
    array. *)
Theorem getModulesList_bare_extends (c : config) (installESLint : option bool) :
  match extends c with
  | Arr _ => True
  | _ => Forall (fun x => String.prefix "eslint-config-" x = false)
                (getModulesList c installESLint)
  end.
Proof.
  destruct (getModulesList_keys c installESLint) as (m & -> & _ & Hk & _).
  assert (H : (match extends c with Arr l => l | _ => [] end) = [] ->
              Forall (fun x => String.prefix "eslint-config-" x = false)
                     (map (fun n => (n ++ "@latest")%string) (obj_keys m))).
  { intros Hes. apply Forall_map, Forall_forall. intros x Hx.
    apply Hk in Hx. rewrite Hes in Hx.
    destruct Hx as [[-> _]|[(p & _ & ->)|[[-> _]|(e & [] & _)]]]; reflexivity. }
  destruct (extends c); [apply H; reflexivity | apply H; reflexivity | exact I].
Qed.

(** X9. The config package of the base preset, [eslint-config-fee-base],
    is among the modules of a synthesized configuration exactly when the
    answers add a second preset (vue, the recommended rules or prettier):
    with [fee-base] alone [extends] is a bare string, which the resolver
    passes over. *)
Theorem getModulesList_fee_base (answers : Answers.t)
        (installESLint : option bool) :
  In "eslint-config-fee-base@latest"
     (getModulesList (genEslintConfig answers) installESLint)
  <-> Answers.framework answers = "vue"
      \/ Answers.purpose answers = "problems"
      \/ Answers.installedPrettier answers = true.
Proof.
  destruct (getModulesList_keys (genEslintConfig answers) installESLint)
    as (m & -> & _ & Hk & _).
  change "eslint-config-fee-base@latest"
    with ("eslint-config-fee-base" ++ "@latest")%string.
  rewrite In_latest, Hk. rewrite genEslintConfig_extends.
  unfold extendsArray.
  destruct (answers_cases answers)
    as [[(T1 & F1)|[(T1 & T2 & F1)|(T1 & T2 & F1 & F2)]] [(T3 & F3)|(T3 & F3)]];
    rewrite ?T1, ?T2, ?T3;
    destruct (Answers.installedPrettier answers); cbn [app normalizeExtends];
    (split;
     [ intros [[E _]|[(p & _ & E)|[[E _]|(e & He & _ & E)]]];
       try discriminate; try tauto; try (destruct He); try congruence
     | intros H; try (right; right; right; exists "fee-base"%string;
                      split; [simpl; tauto | split; reflexivity]) ]);
    try (destruct H as [H|[H|H]]; congruence).
Qed.

End ResolverMore.

(* ================================================================== *)
(** * More on the config serializer *)
(* ================================================================== *)

Section SerializerMore.

Import ConfigFile.

Lemma compare_refl (s : string) : String.compare s s = Eq.
Proof.
  induction s as [|c s IH]; simpl; [reflexivity|].
  unfold Ascii.compare. now rewrite N.compare_refl.
Qed.

Lemma compare_gt_trans (a : string) :
  forall b c,
    String.compare a b = Gt -> String.compare b c = Gt ->
    String.compare a c = Gt.
Proof.
  induction a as [|x a IH]; intros [|y b] [|z c]; simpl; try discriminate;
    try reflexivity.
  unfold Ascii.compare.
  destruct (N.compare_spec (N_of_ascii x) (N_of_ascii y)) as [Exy|Lxy|Gxy];
    try discriminate;
    destruct (N.compare_spec (N_of_ascii y) (N_of_ascii z)) as [Eyz|Lyz|Gyz];
    try discriminate; intros H1 H2.
  - rewrite Exy, Eyz, N.compare_refl. eapply IH; eassumption.
  - rewrite Exy. now apply N.compare_gt_iff in Gyz as ->.
  - rewrite <- Eyz. now apply N.compare_gt_iff in Gxy as ->.
  - assert (G : (N_of_ascii z < N_of_ascii x)%N) by lia.
    now apply N.compare_gt_iff in G as ->.
Qed.

(** X10. The comparison [sortByKey] never answers 0: it answers 1 or
    -1; for two different keys the two directions are opposite, for two
    equal keys both directions answer -1; and "greater" is transitive. *)
Theorem sortByKey_order (a b c : entry) :
  (sortByKey a b = 1%Z \/ sortByKey a b = (-1)%Z)
  /\ (key a = key b -> sortByKey a b = (-1)%Z /\ sortByKey b a = (-1)%Z)
  /\ (key a <> key b -> sortByKey a b = (- sortByKey b a)%Z)
  /\ (sortByKey a b = 1%Z -> sortByKey b c = 1%Z -> sortByKey a c = 1%Z).
Proof.
  unfold sortByKey, string_gt. repeat split.
  - destruct (String.compare (key a) (key b)); auto.
  - rewrite H, compare_refl. reflexivity.
  - rewrite H, compare_refl. reflexivity.
  - intros Hne. rewrite (String.compare_antisym (key b) (key a)).
    destruct (String.compare (key a) (key b)) eqn:E; try reflexivity.
    apply String.compare_eq_iff in E. contradiction.
  - intros H1 H2.
    destruct (String.compare (key a) (key b)) eqn:E1; try discriminate.
    destruct (String.compare (key b) (key c)) eqn:E2; try discriminate.
    now rewrite (compare_gt_trans _ _ _ E1 E2).
Qed.

Context {C : Type}.
Context {fs : FileSystem}.
Variable extname : string -> string.
Variable stringify : C -> stringifyOptions -> exn + string.
Variable safeDump : C -> dumpOptions -> exn + string.

(** X11. What [write] wrote is what a read gives back: when the
    library serializes the configuration and the file system accepts
    the write of a [.json], [.yaml] or [.yml] path, [write] returns,
    nothing is logged, a read of the path, or of any path that names
    the same file, gives the serialized text unless the read is
    refused, and the files that other paths name hold what they held. *)
Theorem write_read_back (config : C) (filePath text : string) (w : world) :
  (extname filePath = ".json"
   /\ stringify config (mkStringifyOptions sortByKey 4) = inr text)
  \/ ((extname filePath = ".yaml" \/ extname filePath = ".yml")
      /\ safeDump config (mkDumpOptions true) = inr text) ->
  writeRefused (files w) filePath = None ->
  exists w' : world,
    write extname stringify safeDump config filePath w = (inr tt, w')
    /\ console w' = console w
    /\ (forall path,
           realpath path = realpath filePath ->
           readRefused (files w') path = None ->
           readFileSync path w' = (inr text, w'))
    /\ (forall other,
           realpath other <> realpath filePath ->
           obj_get (realpath other) (files w')
           = obj_get (realpath other) (files w)).
Proof.
  intros Hext Hfs.
  exists (mkWorld (obj_set (realpath filePath) text (files w)) (console w)).
  split; [|split; [reflexivity|split]].
  - rewrite write_eq. unfold bind, call, writeFileSync.
    destruct Hext as [[Ej ->]|[Ey ->]].
    + rewrite Ej. cbn [String.eqb Ascii.eqb Bool.eqb]. now rewrite Hfs.
    + destruct (String.eqb_spec (extname filePath) ".json") as [Ej|_].
      * destruct Ey as [Ey|Ey]; rewrite Ej in Ey; discriminate.
      * assert (E : ((extname filePath =? ".yaml")
                     || (extname filePath =? ".yml"))%bool = true).
        { destruct Ey as [-> | ->]; [reflexivity | apply orb_true_r]. }
        rewrite E. now rewrite Hfs.
  - intros path Hsame Hread. unfold readFileSync. rewrite Hread.
    cbn [files]. now rewrite Hsame, obj_get_set_same.
  - intros other Hne. cbn [files]. apply obj_get_set_other.
    congruence.
Qed.

End SerializerMore.

(** Two names of one file: what is written under one is read under the
    other. *)
Lemma write_read_back_witness :
  let fs := {| realpath := fun path =>
                             match Sample.after "./" path with
                             | Some rest => rest
                             | None => path
                             end;
               writeRefused := fun _ _ => None;
               readRefused := fun _ _ => None |} in
  exists w' : world,
    ConfigFile.write (fs := fs) Sample.extname Demo.stringify Demo.safeDump
                     Index.prettierConfigObject "./.prettierrc.json"
                     (mkWorld [("package.json", "{}")] [])
    = (inr tt, w')
    /\ readFileSync (fs := fs) ".prettierrc.json" w'
       = (inr "printWidth,bracketSpacing,semi,tabWidth,singleQuote,jsxSingleQuote,jsxBracketSameLine,arrowParens,endOfLine"%string,
          w')
    /\ obj_get "package.json" (files w') = Some "{}"%string.
Proof.
  intros fs.
  destruct (write_read_back (fs := fs) Sample.extname Demo.stringify
              Demo.safeDump Index.prettierConfigObject "./.prettierrc.json"
              "printWidth,bracketSpacing,semi,tabWidth,singleQuote,jsxSingleQuote,jsxBracketSameLine,arrowParens,endOfLine"
              (mkWorld [("package.json", "{}")] [])
              (or_introl (conj eq_refl eq_refl)) eq_refl)
    as (w' & Hw & _ & Hr & Ho).
  exists w'. split; [exact Hw|]. split.
  - apply Hr; reflexivity.
  - exact (Ho "package.json"%string ltac:(discriminate)).
Defined.

(* ================================================================== *)
(** * Installing the modules and writing the files *)
(* ================================================================== *)

Section Install.

Variable spawn_sync : string -> list string -> world -> option string * world.

(** X13. [installSyncSaveDev] never raises, whatever becomes of the
    [npm] process: when [npm] cannot be found ([ENOENT]) it logs one line
    that names the packages, and after any other outcome, another error
    included, it logs nothing; the files are as the process left them. *)
Theorem installSyncSaveDev_reports (packages : string + list string)
        (w : world) :
  let packageList := match packages with inr l => l | inl p => [p] end in
  let spawned := spawn_sync "npm" (["i"; "--save-dev"] ++ packageList) w in
  exists w' : world,
    NpmUtils.installSyncSaveDev spawn_sync packages w = (inr tt, w')
    /\ files w' = files (snd spawned)
    /\ console w'
       = console (snd spawned)
         ++ match fst spawned with
            | Some code =>
                if (code =? "ENOENT")%string
                then [("Could not execute npm. Please install the following package"
                         ++ (if (1 <? length packageList)%nat then "s" else "")
                         ++ " with a package manager of your choice: "
                         ++ String.concat ", " packageList)%string]
                else []
            | None => []
            end.
Proof.
  cbv zeta. unfold NpmUtils.installSyncSaveDev.
  destruct (spawn_sync "npm"
              (["i"; "--save-dev"]
                 ++ match packages with inr l => l | inl p => [p] end) w)
    as [[code|] w1]; cbn [fst snd].
  - destruct (code =? "ENOENT")%string.
    + eexists. split; [reflexivity|]. split; reflexivity.
    + exists w1. rewrite app_nil_r. repeat split.
  - exists w1. rewrite app_nil_r. repeat split.
Qed.

(** X14. [askInstallModules] does nothing at all for an empty list of
    modules; and when the user declines, [npm] is not run: the outcome
    does not depend on the process, no file changes, and only the two
    lines that announce the modules are logged. *)
Theorem askInstallModules_declined
        (spawn_sync' : string -> list string -> world -> option string * world)
        (modules : list string) (executeInstallation : bool) (w : world) :
  Index.askInstallModules spawn_sync [] executeInstallation w = (inr tt, w)
  /\ Index.askInstallModules spawn_sync modules false w
     = Index.askInstallModules spawn_sync' modules false w
  /\ fst (Index.askInstallModules spawn_sync modules false w) = inr tt
  /\ files (snd (Index.askInstallModules spawn_sync modules false w)) = files w
  /\ console (snd (Index.askInstallModules spawn_sync modules false w))
     = console w
       ++ match modules with
          | [] => []
          | _ => [("配置中中你选择的引用将会安装以下依赖:" ++ Watcher.nl)%string;
                  String.concat " " modules]
          end.
Proof.
  unfold Index.askInstallModules.
  destruct modules as [|m ms]; cbn [length Nat.eqb].
  - repeat split. cbn. now rewrite app_nil_r.
  - repeat split. cbn. now rewrite <- app_assoc.
Qed.

End Install.

Section WriteFile.

Context {fs : FileSystem}.
Variable extname : string -> string.
Variable stringify : obj value -> ConfigFile.stringifyOptions -> exn + string.
Variable safeDump : obj value -> ConfigFile.dumpOptions -> exn + string.
Variable process_cwd : string.

(** X15. [writeFile] supports two formats only: with a format other
    than [YAML] and [JSON] it falls back on the extension [.js], which
    the serializer refuses, so it raises, writes no file and logs no
    success. *)
Theorem writeFile_unsupported_format (framework format : string)
        (config : obj value) (w : world) :
  format <> "YAML" -> format <> "JSON" ->
  extname ("./." ++ framework ++ "rc" ++ ".js") = ".js" ->
  Index.writeFile extname stringify safeDump process_cwd framework config format w
  = (inl (Error "Can't write to unknown file type."), w).
Proof.
  intros Hy Hj Hext. unfold Index.writeFile.
  apply String.eqb_neq in Hy, Hj. rewrite Hy, Hj.
  unfold bind, ConfigFile.write. rewrite Hext. reflexivity.
Qed.

(** [writeFile] for the format [JSON], by what the stringifier and the
    file system do. *)
Lemma writeFile_json_eq (framework : string) (config : obj value) (w : world) :
  extname ("./." ++ framework ++ "rc" ++ ".json") = ".json" ->
  Index.writeFile extname stringify safeDump process_cwd
                  framework config "JSON" w
  = match stringify (obj_delete "installedESLint" config)
                    (ConfigFile.mkStringifyOptions ConfigFile.sortByKey 4) with
    | inl e => (inl e, w)
    | inr text =>
        match writeRefused (files w)
                           ("./." ++ framework ++ "rc" ++ ".json") with
        | Some e => (inl e, w)
        | None =>
            (inr tt,
             mkWorld
               (obj_set (realpath ("./." ++ framework ++ "rc" ++ ".json"))
                        text (files w))
               (console w
                  ++ [("Successfully created ." ++ framework ++ "rc" ++ ".json"
                         ++ " file in " ++ process_cwd)%string]
                  ++ match obj_get "installedESLint" config with
                     | Some v =>
                         if truthy v
                         then ["ESLint was installed locally. We recommend using this local copy instead of your globally-installed copy."%string]
                         else []
                     | None => []
                     end))
        end
    end.
Proof.
  intros Hext.
  unfold Index.writeFile. cbn [String.eqb Ascii.eqb Bool.eqb].
  unfold bind at 1. rewrite write_eq, Hext.
  cbn [String.eqb Ascii.eqb Bool.eqb].
  unfold bind at 1, call.
  destruct (stringify (obj_delete "installedESLint" config)
                      (ConfigFile.mkStringifyOptions ConfigFile.sortByKey 4))
    as [e|text]; [reflexivity|].
  unfold writeFileSync.
  destruct (writeRefused (files w) ("./." ++ framework ++ "rc" ++ ".json"))
    as [e|]; [reflexivity|].
  destruct (obj_get "installedESLint" config) as [v|];
    [destruct (truthy v)|]; cbn; rewrite <- ?app_assoc, ?app_nil_r;
    reflexivity.
Qed.


End WriteFile.

Section WriteFileRuns.

#[local] Existing Instance Sample.plain.

Lemma writeFile_unsupported_format_witness :
  Index.writeFile Sample.extname Demo.stringify Demo.safeDump "/proj"
                  "eslint" Index.prettierConfigObject "JS"
                  (mkWorld [("package.json", "{}")] [])
  = (inl (Error "Can't write to unknown file type."),
     mkWorld [("package.json", "{}")] []).
Proof.
  apply writeFile_unsupported_format; [discriminate | discriminate | reflexivity].
Defined.


End WriteFileRuns.

(* ================================================================== *)
(** * From the answer on the watched paths to the rules *)
(* ================================================================== *)

Section WatchRules.

Import Index.

(** ** White space at the head of a string *)

Lemma spaces_whole : forallb wholeCharacter spaces = true.
Proof. reflexivity. Qed.

Lemma spaces_length :
  forallb (fun sp => (spaceLength sp =? String.length sp)%nat) spaces = true.
Proof. reflexivity. Qed.

Lemma space_whole (sp : string) : In sp spaces -> wholeCharacter sp = true.
Proof.
  intros H. pose proof spaces_whole as Hall.
  rewrite forallb_forall in Hall. now apply Hall.
Qed.

Lemma spaceLength_zero_iff (s : string) :
  spaceLength s = 0
  <-> forall sp, In sp spaces -> String.prefix sp s = false.
Proof.
  unfold spaceLength. split.
  - destruct (find (fun sp => String.prefix sp s) spaces) as [sp|] eqn:E.
    + intros Hlen. apply find_some in E. destruct E as [Hin _].
      apply space_whole in Hin. destruct sp; discriminate.
    + intros _ sp Hin. exact (find_none _ _ E sp Hin).
  - intros Hall.
    destruct (find (fun sp => String.prefix sp s) spaces) as [sp|] eqn:E;
      [|reflexivity].
    apply find_some in E. destruct E as [Hin Hp].
    rewrite (Hall sp Hin) in Hp. discriminate.
Qed.

Lemma spaceLength_found (s : string) (k : nat) :
  spaceLength s = S k ->
  exists sp rest,
    In sp spaces /\ s = (sp ++ rest)%string /\ String.length sp = S k.
Proof.
  unfold spaceLength.
  destruct (find (fun sp => String.prefix sp s) spaces) as [sp|] eqn:E;
    [|discriminate].
  intros Hlen. apply find_some in E. destruct E as [Hin Hp].
  apply prefix_app_iff in Hp. destruct Hp as [rest ->].
  now exists sp, rest.
Qed.

Lemma spaceLength_nil : spaceLength "" = 0.
Proof. reflexivity. Qed.

(** More text after a string does not take white space off its head. *)
Lemma spaceLength_app (a b : string) :
  spaceLength (a ++ b) = 0 -> spaceLength a = 0.
Proof.
  rewrite !spaceLength_zero_iff. intros H sp Hin.
  destruct (String.prefix sp a) eqn:E; [|reflexivity].
  apply prefix_app_iff in E. destruct E as [r ->].
  rewrite <- (H sp Hin). symmetry. apply prefix_app_iff.
  exists (r ++ b)%string. apply string_append_assoc.
Qed.

(** Bytes that follow a first byte do not reach into the next
    character. *)
Lemma tail_prefix (tail : string) :
  forallb tailByte (list_ascii_of_string tail) = true ->
  forall (a : string) (l : ascii) (r : string),
    leadByte l = true ->
    String.prefix tail (a ++ String l r) = true ->
    String.prefix tail a = true.
Proof.
  induction tail as [|y tail IH]; intros Ht a l r Hl Hp.
  - now destruct a.
  - cbn [list_ascii_of_string forallb] in Ht.
    apply andb_true_iff in Ht. destruct Ht as [Hy Ht].
    apply prefix_app_iff in Hp. destruct Hp as [b Hb].
    destruct a as [|c a]; cbn [String.append] in Hb.
    + injection Hb as -> _. unfold tailByte in Hy. rewrite Hl in Hy.
      discriminate.
    + injection Hb as -> Hb. apply prefix_app_iff.
      assert (Hp : String.prefix tail (a ++ String l r) = true)
        by (apply prefix_app_iff; now exists b).
      apply (IH Ht a l r Hl), prefix_app_iff in Hp.
      destruct Hp as [b' ->]. now exists b'.
Qed.

Lemma space_prefix (sp a : string) (l : ascii) (r : string) :
  In sp spaces -> a <> "" -> leadByte l = true ->
  String.prefix sp (a ++ String l r) = true ->
  String.prefix sp a = true.
Proof.
  intros Hin Ha Hl Hp. apply space_whole in Hin.
  destruct sp as [|x tail]; [discriminate|].
  cbn [wholeCharacter] in Hin. apply andb_true_iff in Hin.
  destruct Hin as [_ Ht].
  destruct a as [|c a]; [contradiction|].
  apply prefix_app_iff in Hp. destruct Hp as [b Hb].
  cbn [String.append] in Hb. injection Hb as -> Hb.
  assert (Hp : String.prefix tail (a ++ String l r) = true)
    by (apply prefix_app_iff; now exists b).
  apply (tail_prefix tail Ht a l r Hl), prefix_app_iff in Hp.
  destruct Hp as [b' ->]. apply prefix_app_iff. now exists b'.
Qed.

(** The head of a string before a character: white space there lies
    within the string. *)
Lemma spaceLength_before (a : string) (l : ascii) (r : string) :
  a <> "" -> leadByte l = true ->
  spaceLength (a ++ String l r) = spaceLength a.
Proof.
  intros Ha Hl. unfold spaceLength.
  assert (E : forall sp, In sp spaces ->
                String.prefix sp (a ++ String l r) = String.prefix sp a).
  { intros sp Hin.
    destruct (String.prefix sp a) eqn:Ea.
    - apply prefix_app_iff in Ea. destruct Ea as [b ->].
      apply prefix_app_iff. exists (b ++ String l r)%string.
      apply string_append_assoc.
    - destruct (String.prefix sp (a ++ String l r)) eqn:Eb; [|reflexivity].
      apply (space_prefix sp a l r Hin Ha Hl) in Eb. congruence. }
  induction spaces as [|sp l0 IH]; [reflexivity|].
  cbn [find]. rewrite (E sp (or_introl eq_refl)).
  destruct (String.prefix sp a); [reflexivity|].
  apply IH. intros sp' Hin'. apply E. now right.
Qed.

Lemma space_lead (sp : string) :
  In sp spaces -> exists l r, sp = String l r /\ leadByte l = true.
Proof.
  intros Hin. apply space_whole in Hin.
  destruct sp as [|l r]; [discriminate|].
  cbn [wholeCharacter] in Hin. apply andb_true_iff in Hin.
  exists l, r. tauto.
Qed.

Lemma space_spaceLength (sp : string) :
  In sp spaces -> spaceLength sp = String.length sp.
Proof.
  intros Hin. pose proof spaces_length as Hall.
  rewrite forallb_forall in Hall. now apply Nat.eqb_eq, Hall.
Qed.

(** ** The pieces *)

Lemma splitFrom_not_nil (s : string) :
  forall skip inRun, splitFrom skip inRun s <> [].
Proof.
  induction s as [|c s IH]; intros skip inRun; cbn [splitFrom];
    [discriminate|].
  destruct skip as [|k]; [|apply IH].
  destruct (spaceLength (String c s)) as [|k].
  - destruct (splitFrom 0 false s); discriminate.
  - destruct inRun; [apply IH | discriminate].
Qed.

Lemma splitFrom_all (s : string) :
  forall inRun, splitFrom (String.length s) inRun s = [""].
Proof. induction s as [|c s IH]; intros inRun; [reflexivity | apply IH]. Qed.

(** The first piece is the head of the string. *)
Lemma splitFrom_head (s : string) :
  exists piece pieces rest,
    splitFrom 0 false s = piece :: pieces /\ s = (piece ++ rest)%string.
Proof.
  induction s as [|c s (piece & pieces & rest & E & Hs)].
  - now exists ""%string, [], ""%string.
  - cbn [splitFrom]. destruct (spaceLength (String c s)) as [|k].
    + rewrite E. exists (String c piece), pieces, rest.
      split; [reflexivity|]. cbn [String.append]. now rewrite <- Hs.
    + exists ""%string, (splitFrom k true s), (String c s). now split.
Qed.

Lemma splitFrom_no_space (s : string) :
  forall skip inRun,
    Forall (fun piece => hasSpace piece = false) (splitFrom skip inRun s).
Proof.
  induction s as [|c s IH]; intros skip inRun; cbn [splitFrom].
  - repeat constructor.
  - destruct skip as [|k]; [|apply IH].
    destruct (spaceLength (String c s)) as [|k] eqn:E.
    + specialize (IH 0 false).
      destruct (splitFrom_head s) as (piece & pieces & rest & Ep & Hs).
      rewrite Ep in *. inversion IH as [|? ? H1 H2]; subst.
      constructor; [|assumption].
      cbn [hasSpace]. rewrite H1, orb_false_r.
      change (String c (piece ++ rest))
        with (String c piece ++ rest)%string in E.
      apply spaceLength_app in E. now rewrite E.
    + destruct inRun; [apply IH|]. constructor; [reflexivity | apply IH].
Qed.

(** White space at the end. *)
Lemma splitFrom_two (sp : string) :
  In sp spaces ->
  forall (s : string) (skip : nat),
    skip <= String.length s ->
    exists p q r, splitFrom skip false (s ++ sp) = p :: q :: r.
Proof.
  intros Hin. induction s as [|c s IH]; intros skip Hskip.
  - cbn [String.length] in Hskip. assert (skip = 0) as -> by lia.
    cbn [String.append].
    destruct (space_lead sp Hin) as (l & r & -> & _).
    cbn [splitFrom]. rewrite (space_spaceLength _ Hin).
    cbn [String.length]. rewrite splitFrom_all.
    now exists ""%string, ""%string, [].
  - cbn [String.append splitFrom]. destruct skip as [|k].
    + destruct (spaceLength (String c (s ++ sp))) as [|k] eqn:E.
      * destruct (IH 0 ltac:(lia)) as (p & q & r & Ep). rewrite Ep.
        now exists (String c p), q, r.
      * pose proof (splitFrom_not_nil (s ++ sp) k true) as Hnn.
        destruct (splitFrom k true (s ++ sp)) as [|q r]; [contradiction|].
        now exists ""%string, q, r.
    + apply IH. cbn [String.length] in Hskip. lia.
Qed.

Lemma splitFrom_last_space (sp : string) :
  In sp spaces ->
  forall (s : string) (skip : nat) (inRun : bool),
    skip <= String.length s ->
    last (splitFrom skip inRun (s ++ sp)) "-" = "".
Proof.
  intros Hin. destruct (space_lead sp Hin) as (l & r & Esp & Hl).
  induction s as [|c s IH]; intros skip inRun Hskip.
  - cbn [String.length] in Hskip. assert (skip = 0) as -> by lia.
    cbn [String.append]. rewrite Esp. cbn [splitFrom]. rewrite <- Esp.
    rewrite (space_spaceLength _ Hin), Esp.
    cbn [String.length]. rewrite splitFrom_all. now destruct inRun.
  - cbn [String.append splitFrom]. destruct skip as [|k].
    + destruct (spaceLength (String c (s ++ sp))) as [|k] eqn:E.
      * destruct (splitFrom_two sp Hin s 0 ltac:(lia)) as (p & q & r' & Ep).
        specialize (IH 0 false ltac:(lia)). rewrite Ep in *. exact IH.
      * assert (Hk : k <= String.length s).
        { change (String c (s ++ sp)) with (String c s ++ sp)%string in E.
          rewrite Esp in E.
          rewrite spaceLength_before in E by (auto; discriminate).
          apply spaceLength_found in E.
          destruct E as (sp' & rest & _ & Hs & Hlen).
          apply (f_equal String.length) in Hs.
          rewrite string_length_append, Hlen in Hs.
          cbn [String.length] in Hs. lia. }
        specialize (IH k true Hk).
        destruct inRun; [exact IH|].
        pose proof (splitFrom_not_nil (s ++ sp) k true) as Hnn.
        destruct (splitFrom k true (s ++ sp)); [contradiction | exact IH].
    + apply IH. cbn [String.length] in Hskip. lia.
Qed.

(** X17. The pieces that [split] makes of the answer hold no white
    space, and there is always at least one piece; but an answer that
    begins or ends with a white-space character gives an empty first or
    last piece. *)
Theorem split_pieces (s : string) :
  split s <> []
  /\ Forall (fun piece => hasSpace piece = false) (split s)
  /\ (spaceLength s <> 0 -> hd "-" (split s) = "")
  /\ (forall s' sp, In sp spaces -> s = (s' ++ sp)%string ->
                    last (split s) "-" = "").
Proof.
  unfold split. split; [apply splitFrom_not_nil|].
  split; [apply splitFrom_no_space|]. split.
  - intros Hsp. destruct s as [|c s]; [now rewrite spaceLength_nil in Hsp|].
    cbn [splitFrom]. destruct (spaceLength (String c s)); [contradiction|].
    reflexivity.
  - intros s' sp Hin ->. apply splitFrom_last_space; [assumption | lia].
Qed.

(** A word: not empty, no white space in it. *)
Lemma word_before (word : string) (l : ascii) (r : string) :
  word <> "" -> hasSpace word = false -> leadByte l = true ->
  spaceLength (word ++ String l r) = 0.
Proof.
  intros Hne Hw Hl. rewrite spaceLength_before by assumption.
  destruct word as [|c word]; [contradiction|].
  cbn [hasSpace] in Hw. apply orb_false_iff in Hw. destruct Hw as [Hc _].
  apply negb_false_iff, Nat.eqb_eq in Hc. exact Hc.
Qed.

Lemma word_head (word : string) :
  word <> "" -> hasSpace word = false -> spaceLength word = 0.
Proof.
  intros Hne Hw. destruct word as [|c word]; [contradiction|].
  cbn [hasSpace] in Hw. apply orb_false_iff in Hw. destruct Hw as [Hc _].
  now apply negb_false_iff, Nat.eqb_eq in Hc.
Qed.

Lemma splitFrom_word_end (word : string) :
  hasSpace word = false -> splitFrom 0 false word = [word].
Proof.
  induction word as [|c word IH]; intros Hw; [reflexivity|].
  cbn [hasSpace] in Hw. apply orb_false_iff in Hw. destruct Hw as [Hc Hw].
  apply negb_false_iff, Nat.eqb_eq in Hc.
  cbn [splitFrom]. rewrite Hc, IH by assumption. reflexivity.
Qed.

Lemma splitFrom_word (word : string) (l : ascii) (r : string) :
  hasSpace word = false -> leadByte l = true ->
  splitFrom 0 false (word ++ String l r)
  = match splitFrom 0 false (String l r) with
    | piece :: pieces => (word ++ piece)%string :: pieces
    | [] => [word]
    end.
Proof.
  intros Hw Hl.
  pose proof (splitFrom_not_nil (String l r) 0 false) as Hnn.
  remember (splitFrom 0 false (String l r)) as rest eqn:Erest.
  destruct rest as [|piece pieces]; [contradiction|]. clear Hnn.
  induction word as [|c word IH].
  - cbn [String.append]. now rewrite <- Erest.
  - assert (Hhead : spaceLength (String c word ++ String l r) = 0)
      by (apply word_before; [discriminate | assumption | assumption]).
    cbn [hasSpace] in Hw. apply orb_false_iff in Hw. destruct Hw as [_ Hw].
    cbn [String.append] in Hhead |- *.
    change (splitFrom 0 false (String c (word ++ String l r)))
      with (match spaceLength (String c (word ++ String l r)) with
            | S k => EmptyString :: splitFrom k true (word ++ String l r)
            | O => match splitFrom 0 false (word ++ String l r) with
                   | p :: ps => String c p :: ps
                   | [] => [String c EmptyString]
                   end
            end).
    rewrite Hhead, IH by assumption. reflexivity.
Qed.

Lemma splitFrom_run_word (s : string) :
  spaceLength s = 0 -> splitFrom 0 true s = splitFrom 0 false s.
Proof.
  intros Hs. destruct s as [|c s]; [reflexivity|].
  cbn [splitFrom]. now rewrite Hs.
Qed.

Lemma space_after (r : string) : spaceLength (String " " r) = 1.
Proof. destruct r; reflexivity. Qed.

Lemma concat_head (word : string) (words : list string) :
  String.concat " " (word :: words) = word
  \/ exists r, String.concat " " (word :: words) = (word ++ String " " r)%string.
Proof.
  destruct words as [|word' words]; [now left|]. right. eexists. reflexivity.
Qed.

Lemma concat_spaceLength (words : list string) :
  words <> [] ->
  Forall (fun word => word <> "" /\ hasSpace word = false) words ->
  spaceLength (String.concat " " words) = 0.
Proof.
  intros Hnn Hall. destruct Hall as [|word words [Hne Hw] _]; [contradiction|].
  destruct (concat_head word words) as [-> | [r ->]].
  - now apply word_head.
  - now apply word_before.
Qed.

Lemma split_concat (words : list string) :
  words <> [] ->
  Forall (fun word => word <> "" /\ hasSpace word = false) words ->
  split (String.concat " " words) = words.
Proof.
  unfold split. intros Hnn Hall.
  induction Hall as [|word words [Hne Hw] Hrest IH]; [contradiction|].
  destruct words as [|word' words'].
  - cbn [String.concat]. now apply splitFrom_word_end.
  - change (String.concat " " (word :: word' :: words'))
      with (word ++ String " " (String.concat " " (word' :: words')))%string.
    rewrite splitFrom_word by (assumption || reflexivity).
    cbn [splitFrom]. rewrite space_after.
    rewrite splitFrom_run_word
      by (apply concat_spaceLength; [discriminate | assumption]).
    rewrite IH by discriminate. now rewrite string_append_nil_r.
Qed.

Lemma indexOf_bang (s : string) :
  (indexOf s "!" =? 0)%Z = String.prefix "!" s.
Proof.
  unfold indexOf. rewrite indexOfFrom_eq.
  destruct (String.prefix "!" s) eqn:E; [reflexivity|].
  destruct s as [|c s]; [reflexivity|].
  destruct (indexOfFrom_spec "!" s (0 + 1) ltac:(lia)) as [[H _]|[H _]];
    [rewrite H; reflexivity|].
  apply Z.eqb_neq. lia.
Qed.

Lemma notBlank_concat (words : list string) :
  words <> [] ->
  Forall (fun word => word <> "" /\ hasSpace word = false) words ->
  notBlank (String.concat " " words) = true.
Proof.
  intros Hnn Hall.
  pose proof (concat_spaceLength words Hnn Hall) as Hs.
  destruct Hall as [|word words [Hne Hw] _]; [contradiction|].
  destruct (String.concat " " (word :: words)) as [|c s] eqn:E.
  - destruct (concat_head word words) as [H | [r H]]; rewrite E in H.
    + now subst word.
    + destruct word; [contradiction | discriminate].
  - unfold notBlank. cbn [allSpace]. now rewrite Hs.
Qed.

(** X18. The answer is read back as it was meant: paths separated by
    single spaces become the rules, in their order, as an include list;
    the same answer after a leading [!] becomes the same rules as an
    exclude list. *)
Theorem ruleOf_words (words : list string) :
  words <> [] ->
  Forall (fun word => word <> "" /\ hasSpace word = false) words ->
  String.prefix "!" (hd "" words) = false ->
  ruleOf (String.concat " " words) = words
  /\ ruleDirectionOf (String.concat " " words) = true
  /\ ruleOf ("!" ++ String.concat " " words) = words
  /\ ruleDirectionOf ("!" ++ String.concat " " words) = false.
Proof.
  intros Hnn Hall Hbang.
  assert (Hp : String.prefix "!" (String.concat " " words) = false).
  { destruct words as [|word words]; [contradiction|].
    cbn [hd] in Hbang.
    inversion Hall as [|? ? [Hne _] _]; subst.
    destruct (String.prefix "!" (String.concat " " (word :: words))) eqn:E;
      [|reflexivity].
    apply prefix_app_iff in E. destruct E as [b E].
    destruct word as [|c word]; [contradiction|].
    assert (c = "!"%char) as ->.
    { destruct (concat_head (String c word) words) as [H | [r H]];
        rewrite H in E; cbn [String.append] in E; now injection E. }
    assert (String.prefix "!" (String "!" word) = true)
      by (apply prefix_app_iff; now exists word).
    congruence. }
  unfold ruleOf, ruleDirectionOf. rewrite !indexOf_bang, Hp.
  change (String.prefix "!" ("!" ++ String.concat " " words)) with
    (String.prefix "" (String.concat " " words)).
  replace (String.prefix "" (String.concat " " words)) with true
    by (now destruct (String.concat " " words)).
  cbn [slice1 String.append negb].
  rewrite notBlank_concat, split_concat by assumption. repeat split.
Qed.

Lemma ruleOf_words_witness :
  ruleOf "packages/ src/ index.js" = ["packages/"; "src/"; "index.js"]
  /\ ruleDirectionOf "packages/ src/ index.js" = true
  /\ ruleOf "!packages/ src/ index.js" = ["packages/"; "src/"; "index.js"]
  /\ ruleDirectionOf "!packages/ src/ index.js" = false.
Proof.
  apply (ruleOf_words ["packages/"; "src/"; "index.js"]).
  - discriminate.
  - repeat constructor; discriminate.
  - reflexivity.
Defined.

(** The entries of [config.typeObj]: one for every file type chosen,
    all with the same rules and direction, none with a scope name. *)
Lemma typeObjOf_entries (answers : watchAnswers) :
  NoDup (obj_keys (typeObjOf answers))
  /\ (forall k, In k (obj_keys (typeObjOf answers)) <-> In k (watchList answers))
  /\ Forall (fun kv => snd kv
                       = Watcher.mkTypeConfig None (ruleOf (watchMatch answers))
                           (ruleDirectionOf (watchMatch answers)))
            (typeObjOf answers).
Proof.
  unfold typeObjOf.
  set (tc := Watcher.mkTypeConfig None (ruleOf (watchMatch answers))
                                  (ruleDirectionOf (watchMatch answers))).
  assert (H : forall l (o : obj Watcher.typeConfig),
             NoDup (obj_keys o) ->
             Forall (fun kv => snd kv = tc) o ->
             NoDup (obj_keys (fold_left (fun t f => obj_set f tc t) l o))
             /\ (forall k, In k (obj_keys (fold_left (fun t f => obj_set f tc t) l o))
                           <-> In k (obj_keys o) \/ In k l)
             /\ Forall (fun kv => snd kv = tc)
                       (fold_left (fun t f => obj_set f tc t) l o)).
  { induction l as [|f l IH]; intros o Hd Ho; simpl.
    - repeat split; auto; tauto.
    - destruct (IH (obj_set f tc o)) as (H1 & H2 & H3).
      + now apply obj_set_NoDup.
      + now apply (obj_set_values (fun v => v = tc)).
      + split; [assumption|]. split; [|assumption].
        intros k. rewrite H2, obj_keys_set. intuition. }
  destruct (H (watchList answers) []) as (H1 & H2 & H3);
    [constructor | constructor |].
  split; [assumption|]. split; [|assumption].
  intros k. rewrite H2. simpl. tauto.
Qed.

Lemma bang_not_blank (rest : string) : notBlank (String "!" rest) = true.
Proof. reflexivity. Qed.

(** X19. When the user gives no path (the answer is blank, or [!] and
    white space only), every file type chosen gets the pattern of the
    three default exclusions, whatever the direction. *)
Theorem typeObjOf_blank (answers : watchAnswers) (projectName : string) :
  notBlank (watchMatch answers) = false
  \/ (exists rest, watchMatch answers = String "!" rest
                   /\ notBlank rest = false) ->
  Forall (fun kv =>
            In (fst kv) (watchList answers)
            /\ Watcher.scopePattern (snd kv) projectName
               = (("!file[" ++ projectName ++ "]:node_modules//*") ++ "&&"
                    ++ ("!file[" ++ projectName ++ "]:.git//*") ++ "&&"
                    ++ ("!file[" ++ projectName ++ "]:.svn//*"))%string)
         (typeObjOf answers).
Proof.
  intros Hblank.
  assert (Hrule : ruleOf (watchMatch answers) = []).
  { unfold ruleOf. rewrite indexOf_bang.
    destruct Hblank as [H|(rest & -> & H)].
    - destruct (String.prefix "!" (watchMatch answers)) eqn:E;
        [|now rewrite H].
      apply prefix_app_iff in E. destruct E as [b E]. rewrite E in H.
      cbn [String.append] in H. rewrite bang_not_blank in H. discriminate H.
    - replace (String.prefix "!" (String "!" rest)) with true
        by (symmetry; apply prefix_app_iff; now exists rest).
      cbn [slice1]. now rewrite H. }
  destruct (typeObjOf_entries answers) as (_ & Hk & Hv).
  apply Forall_forall. intros kv Hin. split.
  - apply Hk. now apply in_map.
  - rewrite Forall_forall in Hv. rewrite (Hv kv Hin), Hrule. reflexivity.
Qed.

(** An answer of [!] and two white-space characters, an ideographic
    space and a space. *)
Lemma typeObjOf_blank_witness :
  Forall (fun kv =>
            In (fst kv) ["js"; "md"]
            /\ Watcher.scopePattern (snd kv) "demo"
               = "!file[demo]:node_modules//*&&!file[demo]:.git//*&&!file[demo]:.svn//*")
         (typeObjOf (mkWatchAnswers true ["js"; "md"]
                                    ("!" ++ utf8 12288 ++ " "))).
Proof.
  apply (typeObjOf_blank
           (mkWatchAnswers true ["js"; "md"] ("!" ++ utf8 12288 ++ " "))
           "demo").
  right. exists (utf8 12288 ++ " ")%string. split; reflexivity.
Defined.

(** The answer is cut at the white-space characters and nowhere else:
    not at a byte inside a character, and at an ideographic space too. *)
Example split_characters :
  split "学习/ src/" = ["学习/"; "src/"]
  /\ split ("src/" ++ utf8 12288 ++ "lib/") = ["src/"; "lib/"]
  /\ split ("src/" ++ utf8 160 ++ " lib/") = ["src/"; "lib/"].
Proof. repeat split. Qed.

End WatchRules.

(* ================================================================== *)
(** * More on the watch rule set *)
(* ================================================================== *)

Section WatcherMore.

Import Watcher.

Lemma obj_get_middle {V} (k : string) (v : V) (front back : obj V) :
  ~ In k (obj_keys front) -> obj_get k (front ++ (k, v) :: back) = Some v.
Proof.
  induction front as [|[k' v'] front IH]; simpl; intros H.
  - now rewrite String.eqb_refl.
  - destruct (String.eqb_spec k' k) as [->|Hne]; [tauto|]. apply IH. tauto.
Qed.

Lemma obj_set_middle {V} (k : string) (v v' : V) (front back : obj V) :
  ~ In k (obj_keys front) ->
  obj_set k v' (front ++ (k, v) :: back) = front ++ (k, v') :: back.
Proof.
  induction front as [|[k0 v0] front IH]; simpl; intros H.
  - now rewrite String.eqb_refl.
  - destruct (String.eqb_spec k0 k) as [->|Hne]; [tauto|].
    rewrite IH; tauto.
Qed.

Lemma obj_delete_absent {V} (k : string) (o : obj V) :
  ~ In k (obj_keys o) -> obj_delete k o = o.
Proof.
  unfold obj_delete. induction o as [|[k' v'] o IH]; simpl; intros H;
    [reflexivity|].
  destruct (String.eqb_spec k' k) as [->|Hne]; [tauto|].
  simpl. rewrite IH; tauto.
Qed.

Lemma obj_delete_middle {V} (k : string) (v : V) (front back : obj V) :
  ~ In k (obj_keys front) -> ~ In k (obj_keys back) ->
  obj_delete k (front ++ (k, v) :: back) = front ++ back.
Proof.
  intros Hf Hb. unfold obj_delete. rewrite filter_app. simpl.
  rewrite String.eqb_refl. simpl.
  fold (obj_delete k front). fold (obj_delete k back).
  now rewrite !obj_delete_absent.
Qed.

Lemma normalizeKey_middle (k : string) (tc : typeConfig)
    (front back : obj typeConfig) (w : world) :
  ~ In k (obj_keys front) -> ~ In k (obj_keys back) ->
  normalizeKey (front ++ (k, tc) :: back) k w
  = (inr (front ++ keptEntry (k, tc) ++ back),
     mkWorld (files w) (console w ++ skipLine (k, tc))).
Proof.
  intros Hf Hb. unfold normalizeKey, keptEntry, skipLine.
  rewrite obj_get_middle by assumption. cbn [fst snd].
  destruct (scopeNameOf k) as [name|].
  - rewrite obj_set_middle by assumption. unfold ret.
    rewrite app_nil_r. now destruct w.
  - rewrite obj_delete_middle by assumption. reflexivity.
Qed.

(** The loop of [normalizedConfig], entry by entry. *)
Lemma normalize_loop_eq (back : obj typeConfig) :
  forall (front : obj typeConfig) (w : world),
    NoDup (obj_keys (front ++ back)) ->
    foldM normalizeKey (obj_keys back) (front ++ back) w
    = (inr (front ++ flat_map keptEntry back),
       mkWorld (files w) (console w ++ flat_map skipLine back)).
Proof.
  induction back as [|[k tc] back IH]; intros front w Hd.
  - simpl. rewrite !app_nil_r. now destruct w.
  - pose proof Hd as Hd0.
    unfold obj_keys in Hd. rewrite map_app in Hd. simpl in Hd.
    pose proof (NoDup_remove_2 _ _ _ Hd) as Hk.
    assert (Hf : ~ In k (obj_keys front))
      by (intros H; apply Hk, in_or_app; now left).
    assert (Hb : ~ In k (obj_keys back))
      by (intros H; apply Hk, in_or_app; now right).
    change (obj_keys ((k, tc) :: back)) with (k :: obj_keys back).
    cbn [foldM]. unfold bind.
    rewrite normalizeKey_middle by assumption.
    rewrite app_assoc. rewrite IH.
    + cbn [files console flat_map]. now rewrite <- !app_assoc.
    + unfold obj_keys. rewrite !map_app.
      unfold keptEntry. cbn [fst snd].
      unfold obj_keys in Hd0. rewrite map_app in Hd0. cbn [map fst] in Hd0.
      destruct (scopeNameOf k) as [name|].
      * cbn [map fst]. rewrite <- app_assoc. exact Hd0.
      * cbn [map]. rewrite app_nil_r. now apply NoDup_remove_1 in Hd0.
Qed.

Lemma keptEntry_keys (config : obj typeConfig) (k : string) :
  In k (obj_keys (flat_map keptEntry config)) ->
  In k (obj_keys config) /\ scopeNameOf k <> None.
Proof.
  induction config as [|[k' tc] config IH]; [intros []|].
  cbn [flat_map]. unfold obj_keys at 1 2. rewrite map_app, in_app_iff.
  fold (obj_keys (flat_map keptEntry config)).
  change (map fst ((k', tc) :: config)) with (k' :: obj_keys config).
  unfold keptEntry at 1. cbn [fst snd].
  destruct (scopeNameOf k') as [name|] eqn:E.
  - cbn [map fst]. intros [[<-|[]]|H].
    + split; [now left|]. congruence.
    + destruct (IH H). split; [now right|assumption].
  - cbn [map]. intros [[]|H]. destruct (IH H). split; [now right|assumption].
Qed.

Lemma keptEntry_NoDup (config : obj typeConfig) :
  NoDup (obj_keys config) -> NoDup (obj_keys (flat_map keptEntry config)).
Proof.
  induction config as [|[k tc] config IH]; simpl; intros Hd; [constructor|].
  inversion Hd as [|? ? Hk Hd']; subst.
  unfold obj_keys. rewrite map_app.
  fold (obj_keys (flat_map keptEntry config)).
  unfold keptEntry at 1. cbn [fst snd].
  destruct (scopeNameOf k) as [name|].
  - cbn [map fst app]. constructor; [|now apply IH].
    intros H. apply keptEntry_keys in H. tauto.
  - cbn [map app]. now apply IH.
Qed.

Lemma keptEntry_kept (kv : string * typeConfig) :
  flat_map keptEntry (keptEntry kv) = keptEntry kv
  /\ flat_map skipLine (keptEntry kv) = [].
Proof.
  destruct kv as [k tc]. unfold keptEntry, skipLine. cbn [fst snd].
  destruct (scopeNameOf k) as [name|] eqn:E; [|now split].
  cbn [flat_map fst snd rule ruleDirection]. rewrite E. now split.
Qed.

Lemma keptEntry_fixed (config : obj typeConfig) :
  flat_map keptEntry (flat_map keptEntry config) = flat_map keptEntry config
  /\ flat_map skipLine (flat_map keptEntry config) = [].
Proof.
  induction config as [|kv config [IH1 IH2]]; [now split|].
  cbn [flat_map]. rewrite !flat_map_app, IH1, IH2.
  destruct (keptEntry_kept kv) as [-> ->]. now split.
Qed.

Lemma normalizedConfig_eq (config : obj typeConfig) (w : world) :
  NoDup (obj_keys config) ->
  normalizedConfig config w
  = (inr (flat_map keptEntry config),
     mkWorld (files w) (console w ++ flat_map skipLine config)).
Proof.
  intros Hd. unfold normalizedConfig.
  exact (normalize_loop_eq config [] w Hd).
Qed.

(** X20. [normalizedConfig], in full: over a rule set whose keys are
    distinct it never throws; the result holds, in the order of the rule
    set, exactly the entries whose key is a file type of the table of
    scope names, each with the scope name of its key and its rule list and
    direction unchanged; for every other entry, in order, one line is
    logged; no file is touched. *)
Theorem normalizedConfig_result (config : obj typeConfig) (w : world) :
  NoDup (obj_keys config) ->
  normalizedConfig config w
  = (inr (flat_map keptEntry config),
     mkWorld (files w) (console w ++ flat_map skipLine config)).
Proof.
  apply normalizedConfig_eq.
Qed.

(** X21. [normalizedConfig] is idempotent: run on its own result it
    returns that result again and logs nothing. *)
Theorem normalizedConfig_idempotent (config : obj typeConfig) (w : world) :
  NoDup (obj_keys config) ->
  exists (typeObj : obj typeConfig) (w1 : world),
    normalizedConfig config w = (inr typeObj, w1)
    /\ normalizedConfig typeObj w1 = (inr typeObj, w1).
Proof.
  intros Hd. exists (flat_map keptEntry config).
  exists (mkWorld (files w) (console w ++ flat_map skipLine config)).
  split.
  - now apply normalizedConfig_eq.
  - rewrite (normalizedConfig_eq _ _ (keptEntry_NoDup config Hd)).
    destruct (keptEntry_fixed config) as [-> ->].
    cbn [files console app]. now rewrite app_nil_r.
Qed.

Lemma dropSlashes_split (s : string) :
  exists n : nat,
    s = (dropSlashes s ++ string_of_list_ascii (repeat "/"%char n))%string
    /\ endsWithSlash (dropSlashes s) = false.
Proof.
  induction s as [|c s (n & Hs & He)]; [now exists 0|].
  cbn [dropSlashes]. destruct (dropSlashes s) as [|c' r] eqn:E.
  - destruct (Ascii.eqb_spec c "/"%char) as [->|Hc].
    + exists (S n). split; [|reflexivity].
      cbn [repeat string_of_list_ascii String.append]. now rewrite Hs at 1.
    + exists n. split; [cbn [String.append]; now rewrite Hs at 1|].
      cbn [endsWithSlash]. now apply Ascii.eqb_neq.
  - exists n. split; [cbn [String.append] in *; now rewrite Hs at 1|].
    exact He.
Qed.

Lemma dropSlashes_fixed (s : string) :
  endsWithSlash s = false -> dropSlashes s = s.
Proof.
  induction s as [|c s IH]; [reflexivity|].
  destruct s as [|c' r].
  - cbn [endsWithSlash dropSlashes]. now intros ->.
  - intros H. change (endsWithSlash (String c' r) = false) in H.
    cbn [dropSlashes] in IH |- *. rewrite (IH H). reflexivity.
Qed.

Lemma endsWithSlash_slashes (stem : string) (n : nat) :
  endsWithSlash (stem ++ string_of_list_ascii (repeat "/"%char (S n))) = true.
Proof.
  induction stem as [|c stem IH].
  - induction n as [|n IHn]; [reflexivity|].
    change (endsWithSlash (string_of_list_ascii (repeat "/"%char (S n))) = true).
    exact IHn.
  - cbn [String.append]. cbn [String.append] in IH.
    destruct (stem ++ string_of_list_ascii (repeat "/"%char (S n)))%string
      as [|c' r] eqn:E; [discriminate IH|exact IH].
Qed.

Lemma dropSlashes_slashes (stem : string) (n : nat) :
  dropSlashes (stem ++ string_of_list_ascii (repeat "/"%char n))
  = dropSlashes stem.
Proof.
  induction stem as [|c stem IH].
  - induction n as [|n IHn]; [reflexivity|].
    cbn [String.append repeat string_of_list_ascii dropSlashes] in *.
    now rewrite IHn.
  - cbn [String.append dropSlashes]. now rewrite IH.
Qed.

Lemma slashes_length (n : nat) :
  String.length (string_of_list_ascii (repeat "/"%char n)) = n.
Proof. induction n as [|n IH]; simpl; congruence. Qed.

(** X22. A rule that ends in a slash names a directory: it is, in one
    way only, a stem that does not end in a slash (empty for a rule of
    slashes only) followed by one slash or more; [genScopes] takes off
    all the slashes at the end, however many, and closes the term with
    two slashes and a star under the project name, so that the stem with
    any other number of slashes after it gives the same term. *)
Theorem formatRule_directory (projectName : string) (ruleDirection : bool)
        (rule : string) :
  endsWithSlash rule = true ->
  exists (stem : string) (n : nat),
    rule = (stem ++ string_of_list_ascii (repeat "/"%char (S n)))%string
    /\ endsWithSlash stem = false
    /\ (forall (stem' : string) (n' : nat),
           rule = (stem' ++ string_of_list_ascii (repeat "/"%char (S n')))%string ->
           endsWithSlash stem' = false ->
           stem' = stem /\ n' = n)
    /\ formatRule projectName ruleDirection rule
       = ((if ruleDirection then "" else "!")
            ++ "file[" ++ projectName ++ "]:" ++ stem ++ "//*")%string
    /\ forall m : nat,
         formatRule projectName ruleDirection
                    (stem ++ string_of_list_ascii (repeat "/"%char (S m)))
         = formatRule projectName ruleDirection rule.
Proof.
  intros Hend. destruct (dropSlashes_split rule) as (n & Hs & He).
  exists (dropSlashes rule).
  destruct n as [|n].
  - cbn [repeat string_of_list_ascii] in Hs.
    rewrite string_append_nil_r in Hs. rewrite <- Hs in He. congruence.
  - exists n. split; [exact Hs|]. split; [exact He|]. split.
    + intros stem' n' Hs' He'.
      assert (Hstem : stem' = dropSlashes rule).
      { rewrite Hs' at 1. rewrite dropSlashes_slashes.
        symmetry. now apply dropSlashes_fixed. }
      split; [exact Hstem|].
      rewrite Hs' in Hs at 1. rewrite Hstem in Hs.
      apply append_inj_l, (f_equal String.length) in Hs.
      rewrite !slashes_length in Hs. lia.
    + unfold formatRule. rewrite Hend. split.
      * now destruct ruleDirection.
      * intros m. rewrite endsWithSlash_slashes, dropSlashes_slashes.
        now rewrite (dropSlashes_fixed _ He).
Qed.

(** A rule that does not end in a slash names a file and is taken as it
    is. *)
Lemma formatRule_file (projectName : string) (ruleDirection : bool)
      (rule : string) :
  endsWithSlash rule = false ->
  formatRule projectName ruleDirection rule
  = ((if ruleDirection then "" else "!") ++ "file:" ++ rule)%string.
Proof.
  intros H. unfold formatRule. rewrite H. now destruct ruleDirection.
Qed.

Lemma untilDot_split (s : string) :
  forallb (fun c => negb (c =? ".")%char) (list_ascii_of_string (untilDot s))
  = true
  /\ exists rest : string,
       s = (untilDot s ++ rest)%string
       /\ (rest = ""%string \/ exists r, rest = String "."%char r).
Proof.
  induction s as [|c s (Hf & rest & Hs & Hr)].
  - split; [reflexivity|]. exists ""%string. split; [reflexivity|now left].
  - cbn [untilDot]. destruct (Ascii.eqb_spec c "."%char) as [->|Hc].
    + split; [reflexivity|]. exists (String "."%char s).
      split; [reflexivity|]. right. now exists s.
    + split.
      * cbn [list_ascii_of_string forallb]. rewrite Hf.
        apply Ascii.eqb_neq in Hc. now rewrite Hc.
      * exists rest. split; [|exact Hr]. cbn [String.append]. now rewrite <- Hs.
Qed.

Lemma firstNonDotRun_dots (n : nat) :
  firstNonDotRun (string_of_list_ascii (repeat "."%char n)) = None.
Proof. induction n as [|n IH]; [reflexivity|exact IH]. Qed.

(** X23. The project name is the first run of characters other than a
    dot in the base name of the project file: the dots before it are
    skipped, it is not empty, it holds no dot, and it ends at the next
    dot or at the end of the name; there is none exactly when the name
    is made of dots alone (or is empty). *)
Theorem firstNonDotRun_run (s : string) :
  match firstNonDotRun s with
  | Some name =>
      name <> ""%string
      /\ forallb (fun c => negb (c =? ".")%char) (list_ascii_of_string name)
         = true
      /\ exists (n : nat) (rest : string),
           s = (string_of_list_ascii (repeat "."%char n) ++ name ++ rest)%string
           /\ (rest = ""%string \/ exists r, rest = String "."%char r)
  | None => True
  end
  /\ (firstNonDotRun s = None
      <-> exists n : nat, s = string_of_list_ascii (repeat "."%char n)).
Proof.
  split.
  - induction s as [|c s IH]; [exact I|].
    cbn [firstNonDotRun]. destruct (Ascii.eqb_spec c "."%char) as [->|Hc].
    + destruct (firstNonDotRun s) as [name|]; [|exact I].
      destruct IH as (Hne & Hf & n & rest & Hs & Hr).
      split; [exact Hne|]. split; [exact Hf|].
      exists (S n), rest. split; [|exact Hr].
      cbn [repeat string_of_list_ascii String.append]. now rewrite <- Hs.
    + destruct (untilDot_split (String c s)) as (Hf & rest & Hs & Hr).
      split.
      * cbn [untilDot]. apply Ascii.eqb_neq in Hc. rewrite Hc. discriminate.
      * split; [exact Hf|]. exists 0, rest. split; [exact Hs|exact Hr].
  - split.
    + induction s as [|c s IH]; [now exists 0|].
      cbn [firstNonDotRun]. destruct (Ascii.eqb_spec c "."%char) as [->|Hc];
        [|discriminate].
      intros H. destruct (IH H) as [n Hn]. exists (S n).
      cbn [repeat string_of_list_ascii]. now rewrite <- Hn.
    + intros [n ->]. apply firstNonDotRun_dots.
Qed.

(** X24. A document without a [project] element and without a
    container gets no scope: the container cannot be created, the append
    matches nothing, and the merge only removes the elements that carry a
    scope name of the table; the rule set of the run is dropped, whatever
    it is. *)
Theorem mergeScopes_no_project (scopes : list node) (doc : document) :
  count (ByTag "project") doc = 0 ->
  count (ByAttr "name" NamedScopeManager) doc = 0 ->
  mergeScopes scopes doc = fold_left cleanKey (obj_keys SCOPENAME) doc
  /\ outline (mergeScopes scopes doc) = outlineOutside tableNamed doc
  /\ count (ByAttr "name" NamedScopeManager) (mergeScopes scopes doc) = 0.
Proof.
  intros Hp Hc. unfold count in Hp, Hc.
  apply length_zero_iff_nil in Hp. pose proof Hc as Hc0.
  apply length_zero_iff_nil in Hc.
  assert (He : ensureContainer doc = doc).
  { unfold ensureContainer, count. rewrite Hc0. cbn [Nat.eqb].
    now apply append_unmatched. }
  assert (Hclean : filter (matchesE (ByAttr "name" NamedScopeManager))
                          (outline (cleanNamedScope doc)) = []).
  { rewrite cleanNamedScope_outline, He. now apply outlineOutside_unmatched. }
  assert (Hm : mergeScopes scopes doc
               = fold_left cleanKey (obj_keys SCOPENAME) doc).
  { unfold mergeScopes. rewrite append_unmatched by exact Hclean.
    unfold cleanNamedScope. now rewrite He. }
  split; [exact Hm|]. rewrite Hm. split.
  - apply clean_loop_outline.
  - unfold count. rewrite clean_loop_outline.
    now rewrite outlineOutside_unmatched.
Qed.

End WatcherMore.

(* ================================================================== *)
(** * From the answers to the files of the IDE *)
(* ================================================================== *)

Section WatchRun.

Import Watcher.

Context {fs : FileSystem}.
Variable resolve : string -> string -> string.
Variable basename : string -> string.
Variable glob_sync : obj string -> string -> list string.
Variable load : string -> document.
Variable xml : document -> string.

Lemma typeObjOf_NoDup (answers : Index.watchAnswers) :
  NoDup (obj_keys (Index.typeObjOf answers)).
Proof. apply typeObjOf_entries. Qed.

Lemma new_eq (rootDir : string) (config : obj typeConfig) (w : world) :
  NoDup (obj_keys config) ->
  new resolve glob_sync rootDir config w
  = (inr (mkWatch rootDir (flat_map keptEntry config)
            (if ((length (glob_sync (files w) (resolve rootDir ".idea/*.iml"))
                  =? 1)%nat
                 && (length (glob_sync (files w)
                                       (resolve rootDir ".idea/workspace.xml"))
                     =? 1)%nat)%bool
             then Some (mkWsConfig
                          (nth 0 (glob_sync (files w)
                                            (resolve rootDir ".idea/*.iml")) "")
                          (nth 0 (glob_sync (files w)
                                            (resolve rootDir ".idea/workspace.xml"))
                               ""))
             else None)),
     mkWorld (files w) (console w ++ flat_map skipLine config)).
Proof.
  intros Hd. unfold new, bind.
  rewrite (normalizedConfig_eq config w Hd).
  rewrite getWSConfig_eq. reflexivity.
Qed.

(** X25. Asked to watch in a directory that is no project of the IDE
    (not exactly one workspace file and one project file under [.idea]),
    [watch] changes no file, raises nothing, logs the file types it
    skipped and the refusal, and does not resolve its promise. *)
Theorem watch_not_a_project (cwd : string) (answers : Index.watchAnswers)
        (w : world) :
  Index.wsWatch answers = true ->
  ((length (glob_sync (files w) (resolve cwd ".idea/*.iml")) =? 1)%nat
   && (length (glob_sync (files w) (resolve cwd ".idea/workspace.xml")) =? 1)%nat)%bool
  = false ->
  Index.watch resolve basename glob_sync load xml cwd answers w
  = (inr false,
     mkWorld (files w)
             (console w ++ flat_map skipLine (Index.typeObjOf answers)
                ++ ["这不是一个webstorm项目！"%string])).
Proof.
  intros Hw Hglob. unfold Index.watch. rewrite Hw. cbn [negb].
  unfold bind. rewrite (new_eq cwd _ w (typeObjOf_NoDup answers)).
  rewrite Hglob. unfold writeFile. cbn [wsConfig log files console].
  now rewrite <- app_assoc.
Qed.

(** X26. Asked to watch in a project of the IDE, [watch] writes two
    files and resolves its promise, when the file system lets it:
    [.idea/watcherTasks.xml] with the tasks of the file types it kept,
    and the workspace file, read before and written back with the scopes
    of those file types merged in under the name of the project. *)
Theorem watch_writes (cwd : string) (answers : Index.watchAnswers) (w : world)
        (project workspace workspaceStr name : string) :
  Index.wsWatch answers = true ->
  glob_sync (files w) (resolve cwd ".idea/*.iml") = [project] ->
  glob_sync (files w) (resolve cwd ".idea/workspace.xml") = [workspace] ->
  firstNonDotRun (basename project) = Some name ->
  let typeObj := flat_map keptEntry (Index.typeObjOf answers) in
  let tasksPath := resolve cwd ".idea/watcherTasks.xml" in
  let tasksWritten :=
    obj_set (realpath tasksPath) (genWatchXml typeObj) (files w) in
  writeRefused (files w) tasksPath = None ->
  readRefused tasksWritten workspace = None ->
  obj_get (realpath workspace) tasksWritten = Some workspaceStr ->
  writeRefused tasksWritten workspace = None ->
  Index.watch resolve basename glob_sync load xml cwd answers w
  = (inr true,
     mkWorld
       (obj_set (realpath workspace)
                (xml (mergeScopes (load (scopesMarkup typeObj name))
                                  (load workspaceStr)))
                tasksWritten)
       (console w ++ flat_map skipLine (Index.typeObjOf answers)
          ++ [("WS的监听文件创建完成 " ++ tasksPath)%string;
              ("WS的workspace文件创建完成 " ++ workspace)%string])).
Proof.
  intros Hw Hp Hws Hname typeObj tasksPath tasksWritten
         Hwrite1 Hread Hfile Hwrite2.
  unfold Index.watch. rewrite Hw. cbn [negb].
  unfold bind at 1. rewrite (new_eq cwd _ w (typeObjOf_NoDup answers)).
  rewrite Hp, Hws. cbn [length Nat.eqb andb nth].
  unfold bind at 1. unfold writeFile. cbn [wsConfig root Watcher.typeObj].
  fold typeObj. fold tasksPath.
  unfold bind at 1. unfold writeFileSync at 1. cbn [files console].
  rewrite Hwrite1. fold tasksWritten.
  unfold bind at 1. unfold log at 1. cbn [files console].
  unfold bind at 1.
  rewrite (addRuletoWorkspace_merges basename load xml _ _ workspaceStr name).
  - cbn [files console Watcher.typeObj workspaceConfig ret].
    rewrite <- !app_assoc. reflexivity.
  - exact Hread.
  - exact Hfile.
  - exact Hname.
  - exact Hwrite2.
Qed.

(** When the file system refuses the first write, [watch] raises its
    error and nothing is written. *)
Lemma watch_refused (cwd : string) (answers : Index.watchAnswers) (w : world)
      (project workspace : string) (e : exn) :
  Index.wsWatch answers = true ->
  glob_sync (files w) (resolve cwd ".idea/*.iml") = [project] ->
  glob_sync (files w) (resolve cwd ".idea/workspace.xml") = [workspace] ->
  writeRefused (files w) (resolve cwd ".idea/watcherTasks.xml") = Some e ->
  Index.watch resolve basename glob_sync load xml cwd answers w
  = (inl e,
     mkWorld (files w)
             (console w ++ flat_map skipLine (Index.typeObjOf answers))).
Proof.
  intros Hw Hp Hws Hrefused.
  unfold Index.watch. rewrite Hw. cbn [negb].
  unfold bind at 1. rewrite (new_eq cwd _ w (typeObjOf_NoDup answers)).
  rewrite Hp, Hws. cbn [length Nat.eqb andb nth].
  unfold bind at 1. unfold writeFile. cbn [wsConfig root Watcher.typeObj].
  unfold bind at 1. unfold writeFileSync at 1. cbn [files console].
  now rewrite Hrefused.
Qed.

End WatchRun.

Section Pipeline.

Context {fs : FileSystem}.
Variable spawn_sync : string -> list string -> world -> option string * world.
Variable extname : string -> string.
Variable stringify : obj value -> ConfigFile.stringifyOptions -> exn + string.
Variable safeDump : obj value -> ConfigFile.dumpOptions -> exn + string.
Variable process_cwd : string.
Variable inspect : Answers.t -> string.
Variable resolve : string -> string -> string.
Variable basename : string -> string.
Variable glob_sync : obj string -> string -> list string.
Variable load : string -> document.
Variable xml : document -> string.

Lemma installSyncSaveDev_returns (packages : string + list string) (w : world) :
  exists w' : world,
    NpmUtils.installSyncSaveDev spawn_sync packages w = (inr tt, w').
Proof.
  unfold NpmUtils.installSyncSaveDev.
  destruct (spawn_sync _ _ w) as [[code|] w1].
  - destruct (code =? "ENOENT")%string; eexists; reflexivity.
  - eexists; reflexivity.
Qed.

Lemma askInstallModules_returns (modules : list string)
      (executeInstallation : bool) (w : world) :
  exists w' : world,
    Index.askInstallModules spawn_sync modules executeInstallation w
    = (inr tt, w').
Proof.
  unfold Index.askInstallModules.
  destruct (length modules =? 0)%nat; [eexists; reflexivity|].
  unfold bind, log. destruct executeInstallation; [|eexists; reflexivity].
  unfold Index.installModules, bind, log.
  apply installSyncSaveDev_returns.
Qed.

Lemma configObject_installedESLint (c : config) :
  obj_get "installedESLint" (Index.configObject c) = None
  /\ obj_delete "installedESLint" (Index.configObject c) = Index.configObject c.
Proof.
  destruct c as [r e p x g ps]. unfold Index.configObject.
  cbn [rules env parserOptions extends globals plugins].
  destruct r, x, g, ps; split; reflexivity.
Qed.


End Pipeline.

(* ================================================================== *)
(** * Sample runs of the watch set-up *)
(* ================================================================== *)

Lemma demo_ruleSet_nodup : NoDup (obj_keys Demo.ruleSet).
Proof.
  repeat constructor; simpl; intros H;
    repeat (destruct H as [H|H]; [discriminate H|]); exact H.
Qed.

Lemma normalizedConfig_result_witness :
  Watcher.normalizedConfig Demo.ruleSet (mkWorld [] [])
  = (inr [("js", Watcher.mkTypeConfig (Some "prettier-js") ["src/"] true)],
     mkWorld [] ["ts:此类型尚未在SCOPENAME中配置！skip~"]).
Proof.
  exact (normalizedConfig_result Demo.ruleSet (mkWorld [] [])
           demo_ruleSet_nodup).
Defined.

Lemma normalizedConfig_idempotent_witness :
  exists (typeObj : obj Watcher.typeConfig) (w1 : world),
    Watcher.normalizedConfig Demo.ruleSet (mkWorld [] []) = (inr typeObj, w1)
    /\ Watcher.normalizedConfig typeObj w1 = (inr typeObj, w1).
Proof.
  exact (normalizedConfig_idempotent Demo.ruleSet (mkWorld [] [])
           demo_ruleSet_nodup).
Defined.

Lemma formatRule_directory_witness :
  exists (stem : string) (n : nat),
    "src//" = (stem ++ string_of_list_ascii (repeat "/"%char (S n)))%string
    /\ Watcher.endsWithSlash stem = false
    /\ (forall (stem' : string) (n' : nat),
           "src//"
           = (stem' ++ string_of_list_ascii (repeat "/"%char (S n')))%string ->
           Watcher.endsWithSlash stem' = false ->
           stem' = stem /\ n' = n)
    /\ Watcher.formatRule "proj" false "src//"
       = ("!" ++ "file[" ++ "proj" ++ "]:" ++ stem ++ "//*")%string
    /\ forall m : nat,
         Watcher.formatRule "proj" false
           (stem ++ string_of_list_ascii (repeat "/"%char (S m)))
         = Watcher.formatRule "proj" false "src//".
Proof.
  exact (formatRule_directory "proj" false "src//" eq_refl).
Defined.

Lemma mergeScopes_no_project_witness :
  Watcher.mergeScopes (Watcher.scopesDom Sample.run "proj")
    [Element "scopes" [] [Element "scope" [("name", "prettier-js")] []]]
  = [Element "scopes" [] []].
Proof.
  exact (proj1 (mergeScopes_no_project (Watcher.scopesDom Sample.run "proj")
                  [Element "scopes" []
                     [Element "scope" [("name", "prettier-js")] []]]
                  eq_refl eq_refl)).
Defined.

(** A file type of a name that every object inherits is kept, with the
    text of what the table inherits under the name. *)
Example normalizedConfig_inherited :
  Watcher.normalizedConfig
    [("constructor", Watcher.mkTypeConfig None ["src/"] true)]
    (mkWorld [] [])
  = (inr [("constructor",
           Watcher.mkTypeConfig (Some "function Object() { [native code] }")
                                ["src/"] true)],
     mkWorld [] []).
Proof. reflexivity. Qed.

Section WatchRuns.

#[local] Existing Instance Sample.plain.

Lemma watch_not_a_project_witness :
  Index.watch Sample.resolve Sample.basename Sample.glob_sync
              Demo.load Demo.xml "/p"
              (Index.mkWatchAnswers true ["js"; "ts"] "")
              (mkWorld [("/p/package.json", "{}")] [])
  = (inr false,
     mkWorld [("/p/package.json", "{}")]
             ["ts:此类型尚未在SCOPENAME中配置！skip~";
              "这不是一个webstorm项目！"]).
Proof.
  exact (watch_not_a_project Sample.resolve Sample.basename Sample.glob_sync
           Demo.load Demo.xml "/p"
           (Index.mkWatchAnswers true ["js"; "ts"] "")
           (mkWorld [("/p/package.json", "{}")] []) eq_refl eq_refl).
Defined.

Lemma watch_writes_witness :
  fst (Index.watch Sample.resolve Sample.basename Sample.glob_sync
                   Demo.load Demo.xml "/p"
                   (Index.mkWatchAnswers true ["js"] "src/")
                   (mkWorld [("/p/.idea/p.iml", "");
                             ("/p/.idea/workspace.xml", "<project />")] []))
  = inr true.
Proof.
  exact (f_equal fst
           (watch_writes Sample.resolve Sample.basename Sample.glob_sync
              Demo.load Demo.xml "/p"
              (Index.mkWatchAnswers true ["js"] "src/")
              (mkWorld [("/p/.idea/p.iml", "");
                        ("/p/.idea/workspace.xml", "<project />")] [])
              "/p/.idea/p.iml" "/p/.idea/workspace.xml" "<project />" "p"
              eq_refl eq_refl eq_refl eq_refl eq_refl eq_refl eq_refl
              eq_refl)).
Defined.


End WatchRuns.
